(** * gocharm: a shallow embedding of the charm build orchestrator

    The development follows the two Go packages of the repository:

    - [Module Strings] has what both use of the standard library:
      [strings.TrimSpace] with the UTF-8 decoding and the white space of
      the [unicode] package it rests on, [HasPrefix], [Index] and [Join].
    - [Module Hook] embeds [hook/hook.go]: the [Context] methods that talk
      to the unit agent through [ctxt.run], and [SetRelationWithId].
    - [Module Gocharm] embeds [cmd/gocharm/gocharm.go]: [setenv], [compile],
      [testCharm], [isGoCharm], [processGoCharm] and [main], over an explicit
      state (exit code, the two output streams, the revision files, the files
      the program writes, and the external commands it runs) and a [World]
      that fixes the outcome of every operating-system call whose result the
      source inspects, and what the commands it starts print on the streams
      they are given.

    Go strings are byte strings and are modelled by [string]; a Go [error]
    is modelled by its message, [nil] by [None]; Go's [int] is taken to be
    the 64-bit two's-complement integer of the platforms the tool targets. *)

From Stdlib Require Import ZArith Lia Ascii String.
From stdpp Require Import base decidable option list strings gmap sorting pretty.

Local Open Scope Z_scope.

(** ** Strings *)

Module Strings.

(** The quote character and the line feed. *)
Definition dquote : string := String "034"%char EmptyString.
Definition newline : string := String "010"%char EmptyString.

(** [strings.HasPrefix s prefix] *)
Definition HasPrefix (s prefix : string) : bool := String.prefix prefix s.

(** [strings.Index s sep]: [None] stands for Go's [-1]. *)
Definition Index (s sep : string) : option nat := String.index 0 sep s.

(** [s[lo:hi]] *)
Definition slice (s : string) (lo hi : nat) : string :=
  String.substring lo (hi - lo) s.

(** [fmt.Sprintf("%q", s)] for a string without characters to escape. *)
Definition quote (s : string) : string := dquote +:+ s +:+ dquote.

(** [strings.Join] *)
Fixpoint Join (l : list string) (sep : string) : string :=
  match l with
  | [] => ""
  | [x] => x
  | x :: rest => x +:+ sep +:+ Join rest sep
  end.

(** *** Runes

    A Go string is a sequence of bytes; [strings.TrimSpace] reads it as
    UTF-8, rune by rune, from both ends.  A byte is its value, a rune its
    code point. *)
Definition byte (a : ascii) : Z := Z.of_N (N_of_ascii a).

(** [s[i]], for an index within the string. *)
Definition byteAt (s : string) (i : nat) : Z :=
  match String.get i s with
  | Some c => byte c
  | None => 0
  end.

(** [utf8.RuneError], [utf8.RuneSelf] and [utf8.UTFMax]. *)
Definition RuneError : Z := 0xFFFD.
Definition RuneSelf : Z := 0x80.
Definition UTFMax : nat := 4.

(** A continuation byte, [10xxxxxx]. *)
Definition isCont (c : Z) : bool := (0x80 <=? c) && (c <? 0xC0).

(** [utf8.RuneStart] *)
Definition RuneStart (b : Z) : bool := negb (Z.land b 0xC0 =? 0x80).

(** [utf8.DecodeRuneInString]: the first rune of [s] and its width in
    bytes; bytes that encode no rune (a stray or missing continuation byte,
    an encoding longer than needed, a surrogate, a value above U+10FFFF)
    give [RuneError] with width 1, the empty string gives it with width 0. *)
Definition DecodeRuneInString (s : string) : Z * nat :=
  match s with
  | EmptyString => (RuneError, 0%nat)
  | String a0 s1 =>
      let c0 := byte a0 in
      if c0 <? 0x80 then (c0, 1%nat)
      else if c0 <? 0xC0 then (RuneError, 1%nat)
      else
        match s1 with
        | EmptyString => (RuneError, 1%nat)
        | String a1 s2 =>
            let c1 := byte a1 in
            if negb (isCont c1) then (RuneError, 1%nat)
            else if c0 <? 0xE0 then
              let r := Z.lor (Z.shiftl (Z.land c0 0x1F) 6) (Z.land c1 0x3F) in
              if r <=? 0x7F then (RuneError, 1%nat) else (r, 2%nat)
            else
              match s2 with
              | EmptyString => (RuneError, 1%nat)
              | String a2 s3 =>
                  let c2 := byte a2 in
                  if negb (isCont c2) then (RuneError, 1%nat)
                  else if c0 <? 0xF0 then
                    let r := Z.lor (Z.lor (Z.shiftl (Z.land c0 0x0F) 12)
                                          (Z.shiftl (Z.land c1 0x3F) 6))
                                   (Z.land c2 0x3F) in
                    if r <=? 0x7FF then (RuneError, 1%nat)
                    else if (0xD800 <=? r) && (r <=? 0xDFFF) then (RuneError, 1%nat)
                    else (r, 3%nat)
                  else
                    match s3 with
                    | EmptyString => (RuneError, 1%nat)
                    | String a3 _ =>
                        let c3 := byte a3 in
                        if negb (isCont c3) then (RuneError, 1%nat)
                        else if c0 <? 0xF8 then
                          let r := Z.lor (Z.lor (Z.lor (Z.shiftl (Z.land c0 0x07) 18)
                                                       (Z.shiftl (Z.land c1 0x3F) 12))
                                                (Z.shiftl (Z.land c2 0x3F) 6))
                                         (Z.land c3 0x3F) in
                          if (r <=? 0xFFFF) || (0x10FFFF <? r) then (RuneError, 1%nat)
                          else (r, 4%nat)
                        else (RuneError, 1%nat)
                    end
              end
        end
  end.

(** The loop [for start--; start >= lim; start--] of
    [utf8.DecodeLastRuneInString], which stops at a byte that can start a
    rune: [before] holds the bytes before [start], the nearest first, [sub]
    is [s[start:end]], and [n] turns are left before [start] falls below
    [lim].  The result is [s[start:end]] for the [start] the loop ends with:
    0 when the bytes run out, [lim - 1] when the turns do. *)
Fixpoint scanStart (n : nat) (before : list ascii) (sub : string) : string :=
  match before with
  | [] => sub
  | c :: before' =>
      match n with
      | O => String c sub
      | S n' =>
          if RuneStart (byte c) then String c sub
          else scanStart n' before' (String c sub)
      end
  end.

(** [utf8.DecodeLastRuneInString]: the last rune of [s] and its width.
    The bytes are read from the end; when the bytes from [start] on are not
    exactly one rune, the last byte alone is [RuneError] with width 1. *)
Definition DecodeLastRuneInString (s : string) : Z * nat :=
  match rev (list_ascii_of_string s) with
  | [] => (RuneError, 0%nat)
  | c :: before =>
      if byte c <? RuneSelf then (byte c, 1%nat)
      else
        let sub := scanStart (UTFMax - 1) before (String c EmptyString) in
        let '(r, size) := DecodeRuneInString sub in
        if (size =? String.length sub)%nat then (r, size) else (RuneError, 1%nat)
  end.

(** [unicode.IsSpace]: the white space of Latin-1, and above it the code
    points with the Unicode property White_Space. *)
Definition IsSpace (r : Z) : bool :=
  if r <=? 0xFF then
    (r =? 0x09) || (r =? 0x0A) || (r =? 0x0B) || (r =? 0x0C) || (r =? 0x0D)
    || (r =? 0x20) || (r =? 0x85) || (r =? 0xA0)
  else
    (r =? 0x1680) || ((0x2000 <=? r) && (r <=? 0x200A))
    || (r =? 0x2028) || (r =? 0x2029) || (r =? 0x202F) || (r =? 0x205F)
    || (r =? 0x3000).

(** [strings.indexFunc]: the index of the first rune [r] with
    [f(r) == truth], or [-1].  Every turn moves [start] on by a width of at
    least 1, so the loop makes at most [len(s)] turns. *)
Fixpoint indexFuncLoop (fuel : nat) (s : string) (f : Z -> bool) (truth : bool)
    (start : nat) : Z :=
  match fuel with
  | O => -1
  | S fuel' =>
      if (start <? String.length s)%nat then
        let '(r, wid) :=
          if byteAt s start <? RuneSelf then (byteAt s start, 1%nat)
          else DecodeRuneInString (slice s start (String.length s)) in
        if Bool.eqb (f r) truth then Z.of_nat start
        else indexFuncLoop fuel' s f truth (start + wid)
      else -1
  end.

Definition indexFunc (s : string) (f : Z -> bool) (truth : bool) : Z :=
  indexFuncLoop (String.length s) s f truth 0.

(** [strings.lastIndexFunc]: the same from the end of the string; [i]
    goes down by a width of at least 1 in every turn. *)
Fixpoint lastIndexFuncLoop (fuel : nat) (s : string) (f : Z -> bool)
    (truth : bool) (i : nat) : Z :=
  match fuel with
  | O => -1
  | S fuel' =>
      if (0 <? i)%nat then
        let '(r, size) := DecodeLastRuneInString (slice s 0 i) in
        let i := (i - size)%nat in
        if Bool.eqb (f r) truth then Z.of_nat i
        else lastIndexFuncLoop fuel' s f truth i
      else -1
  end.

Definition lastIndexFunc (s : string) (f : Z -> bool) (truth : bool) : Z :=
  lastIndexFuncLoop (String.length s) s f truth (String.length s).

(** [strings.TrimLeftFunc] *)
Definition TrimLeftFunc (s : string) (f : Z -> bool) : string :=
  let i := indexFunc s f false in
  if i =? -1 then EmptyString else slice s (Z.to_nat i) (String.length s).

(** [strings.TrimRightFunc] *)
Definition TrimRightFunc (s : string) (f : Z -> bool) : string :=
  let i := lastIndexFunc s f false in
  let i :=
    if (0 <=? i) && (RuneSelf <=? byteAt s (Z.to_nat i)) then
      i + Z.of_nat (DecodeRuneInString (slice s (Z.to_nat i) (String.length s))).2
    else i + 1 in
  slice s 0 (Z.to_nat i).

(** [strings.TrimFunc] and [strings.TrimSpace] *)
Definition TrimFunc (s : string) (f : Z -> bool) : string :=
  TrimRightFunc (TrimLeftFunc s f) f.

Definition TrimSpace (s : string) : string := TrimFunc s IsSpace.

End Strings.

(** ** The hook package *)

Module Hook.
Import Strings.

(** [jujuc.Request] and [jujuc.Response]. *)
Record Request := mkRequest {
  ContextId : string;
  ReqDir : string;
  CommandName : string;
  Args : list string
}.

Record Response := mkResponse {
  Code : Z;
  Stdout : string;
  Stderr : string
}.

(** The fields of [Context] the methods below read.  [jujucClient] answers
    the call [Call("Jujuc.Main", req, &resp)]: an rpc error, or a response. *)
Record Context := mkContext {
  RelationName : string;
  RelationId : string;
  RemoteUnit : string;
  jujucContextId : string;
  jujucClient : Request -> option string * Response
}.

(** What a run of a method leaves behind: the requests it logged with
    [log.Printf] and the commands it sent to the agent. *)
Inductive Event :=
| Logged (req : Request)
| Called (req : Request).

Definition Trace := list Event.

Definition commands (t : Trace) : list Request :=
  omap (fun e => match e with Called r => Some r | Logged _ => None end) t.

(** The outcome of a method that returns only an [error]. *)
Inductive Result :=
| Nil
| Error (msg : string)
| Panic.

Definition IsRelationHook (ctxt : Context) : bool :=
  negb (String.eqb (RelationName ctxt) "").

(** [ctxt.run]: [inl stdout] or [inr err]. *)
Definition run (ctxt : Context) (cmd : string) (args : list string) (t : Trace)
  : (string + string) * Trace :=
  let req := {| ContextId := jujucContextId ctxt; ReqDir := "/";
                CommandName := cmd; Args := args |} in
  let t := t ++ [Logged req; Called req] in
  match jujucClient ctxt req with
  | (Some err, _) => (inr ("cannot call jujuc.Main: " +:+ err), t)
  | (None, resp) =>
      if Code resp =? 0 then (inl (Stdout resp), t)
      else
        let errText := TrimSpace (Stderr resp) in
        let errText :=
          if HasPrefix errText "error: "
          then slice errText (String.length "error: ") (String.length errText)
          else errText in
        (inr errText, t)
  end.

(** The loop [for i := 0; i < len(keyvals); i += 2] of [SetRelationWithId]:
    each turn reads [keyvals[i]] and [keyvals[i+1]] and appends
    [Sprintf("%s=%s", ...)]; reading past the end of the slice panics. *)
Fixpoint keyvalArgs (keyvals : list string) : option (list string) :=
  match keyvals with
  | [] => Some []
  | [_] => None
  | k :: v :: rest =>
      match keyvalArgs rest with
      | Some args => Some ((k +:+ "=" +:+ v) :: args)
      | None => None
      end
  end.

Definition SetRelationWithId (ctxt : Context) (relationId : string)
    (keyvals : list string) (t : Trace) : Result * Trace :=
  if negb (Z.rem (Z.of_nat (length keyvals)) 2 =? 0) then
    (Error "invalid key/value count", t)
  else if Z.of_nat (length keyvals) =? 0 then (Nil, t)
  else
    match keyvalArgs keyvals with
    | None => (Panic, t)
    | Some pairs =>
        let args := ["-r"; relationId; "--"] ++ pairs in
        match run ctxt "relation-set" args t with
        | (inl _, t') => (Nil, t')
        | (inr err, t') => (Error err, t')
        end
    end.

Definition SetRelation (ctxt : Context) (keyvals : list string) (t : Trace)
  : Result * Trace :=
  SetRelationWithId ctxt (RelationId ctxt) keyvals t.

(** *** Ports and addresses *)

(** [fmt.Sprintf("%d/%s", port, proto)] *)
Definition portArg (proto : string) (port : Z) : string :=
  pretty port +:+ "/" +:+ proto.

Definition OpenPort (ctxt : Context) (proto : string) (port : Z) (t : Trace)
  : Result * Trace :=
  match run ctxt "open-port" [portArg proto port] t with
  | (inl _, t') => (Nil, t')
  | (inr err, t') => (Error err, t')
  end.

Definition ClosePort (ctxt : Context) (proto : string) (port : Z) (t : Trace)
  : Result * Trace :=
  match run ctxt "close-port" [portArg proto port] t with
  | (inl _, t') => (Nil, t')
  | (inr err, t') => (Error err, t')
  end.

(** [PublicAddress] and [PrivateAddress]: [inl address] or [inr err]. *)
Definition PublicAddress (ctxt : Context) (t : Trace) : (string + string) * Trace :=
  match run ctxt "unit-get" ["public-address"] t with
  | (inr err, t') => (inr err, t')
  | (inl out, t') => (inl (TrimSpace out), t')
  end.

Definition PrivateAddress (ctxt : Context) (t : Trace) : (string + string) * Trace :=
  match run ctxt "unit-get" ["private-address"] t with
  | (inr err, t') => (inr err, t')
  | (inl out, t') => (inl (TrimSpace out), t')
  end.

(** *** Commands with a JSON answer

    [json.Unmarshal] is the standard library's; the methods below are
    written over the decoder of the destination type, which answers
    [inl value] or [inr err]. *)
Section Json.

Context {A : Type}.
(** The decoder for the type of [dst], and the type as [%T] prints it. *)
Variable unmarshal : string -> A + string.
Variable typeName : string.

(** [ctxt.runJson]: [inl] the decoded value, or [inr err]. *)
Definition runJson (ctxt : Context) (cmd : string) (args : list string)
    (t : Trace) : (A + string) * Trace :=
  match run ctxt cmd args t with
  | (inr err, t') => (inr err, t')
  | (inl out, t') =>
      match unmarshal out with
      | inr err =>
          (inr ("cannot parse command output " +:+ quote out +:+ " into "
                +:+ typeName +:+ ": " +:+ err), t')
      | inl v => (inl v, t')
      end
  end.

End Json.

Section Relations.

(** The decoders of [*string] and [*[]string]. *)
Variable unmarshalString : string -> string + string.
Variable unmarshalStrings : string -> list string + string.

Definition GetRelationUnit (ctxt : Context) (key relationId unit : string)
    (t : Trace) : (string + string) * Trace :=
  runJson unmarshalString "*string" ctxt "relation-get"
    ["--format"; "json"; "-r"; relationId; "--"; key; unit] t.

Definition GetRelation (ctxt : Context) (key : string) (t : Trace)
  : (string + string) * Trace :=
  GetRelationUnit ctxt key (RelationId ctxt) (RemoteUnit ctxt) t.

Definition RelationIds (ctxt : Context) (relationName : string) (t : Trace)
  : (list string + string) * Trace :=
  runJson unmarshalStrings "*[]string" ctxt "relation-ids"
    ["--format"; "json"; "--"; relationName] t.

Definition RelationUnits (ctxt : Context) (relationId : string) (t : Trace)
  : (list string + string) * Trace :=
  runJson unmarshalStrings "*[]string" ctxt "relation-list"
    ["--format"; "json"; "--"; relationId] t.

(** The loop of [AllRelationUnits] over the ids, filling [allUnits]. *)
Fixpoint allUnitsLoop (ctxt : Context) (ids : list string)
    (allUnits : gmap string (list string)) (t : Trace)
  : (gmap string (list string) + string) * Trace :=
  match ids with
  | [] => (inl allUnits, t)
  | id :: rest =>
      match RelationUnits ctxt id t with
      | (inr err, t') =>
          (inr ("cannot get relation units for id " +:+ quote id +:+ ": "
                +:+ err), t')
      | (inl units, t') => allUnitsLoop ctxt rest (<[id := units]> allUnits) t'
      end
  end.

Definition AllRelationUnits (ctxt : Context) (relationName : string) (t : Trace)
  : (gmap string (list string) + string) * Trace :=
  match RelationIds ctxt relationName t with
  | (inr err, t') => (inr ("cannot get relation ids: " +:+ err), t')
  | (inl ids, t') => allUnitsLoop ctxt ids ∅ t'
  end.

End Relations.

(** The request [run] sends for a command. *)
Definition request (ctxt : Context) (cmd : string) (args : list string)
  : Request :=
  {| ContextId := jujucContextId ctxt; ReqDir := "/"; CommandName := cmd;
     Args := args |}.

(** *** Vocabulary of the properties *)

(** The request [SetRelationWithId] sends for the formatted pairs. *)
Definition relationSet (ctxt : Context) (relationId : string)
    (pairs : list string) : Request :=
  {| ContextId := jujucContextId ctxt; ReqDir := "/";
     CommandName := "relation-set";
     Args := ["-r"; relationId; "--"] ++ pairs |}.

(** A call with two pairs, answered by an agent that accepts everything. *)
Definition sampleContext : Context :=
  {| RelationName := "db"; RelationId := "db:1"; RemoteUnit := "mysql/0";
     jujucContextId := "ctx-1";
     jujucClient := fun _ => (None, mkResponse 0 "" "") |}.

(** *** Vocabulary of the further properties *)

(** A string whose runes, read in turn as a [range] loop reads them, are
    all white space. *)
Fixpoint allSpaceLoop (fuel : nat) (s : string) : bool :=
  match s with
  | EmptyString => true
  | _ =>
      match fuel with
      | O => false
      | S fuel' =>
          let '(r, wid) := DecodeRuneInString s in
          IsSpace r && allSpaceLoop fuel' (slice s wid (String.length s))
      end
  end.

Definition allSpace (s : string) : bool := allSpaceLoop (String.length s) s.

(** The first rune, and the last rune, of a string is white space. *)
Definition startsWithSpace (s : string) : bool :=
  IsSpace (DecodeRuneInString s).1.

Definition endsWithSpace (s : string) : bool :=
  IsSpace (DecodeLastRuneInString s).1.

(** A string of bytes below [utf8.RuneSelf]. *)
Fixpoint asciiOnly (s : string) : bool :=
  match s with
  | EmptyString => true
  | String a s' => (byte a <? RuneSelf) && asciiOnly s'
  end.

(** A rune that was decoded from its bytes: [RuneError] with a width below
    2 is the answer to bytes that encode no rune. *)
Definition decoded (r : Z) (n : nat) : Prop := r <> RuneError \/ (2 <= n)%nat.

(** The bytes [e] are the encoding of the rune [r], and nothing more. *)
Definition encodes (e : string) (r : Z) : Prop :=
  DecodeRuneInString e = (r, String.length e) /\ decoded r (String.length e).

(** A string made of white-space runes, one encoding after the other. *)
Inductive Spaces : string -> Prop :=
| Spaces_nil : Spaces ""
| Spaces_cons (e : string) (r : Z) (t : string) :
    encodes e r -> IsSpace r = true -> Spaces t -> Spaces (e +:+ t).

(** The no-break space U+00A0, in UTF-8. *)
Definition nbsp : string := String "194"%char (String "160"%char EmptyString).

(** A string without [/]. *)
Fixpoint noSlash (s : string) : bool :=
  match s with
  | EmptyString => true
  | String a s' => negb (Ascii.eqb a "/") && noSlash s'
  end.

(** What the agent answers to [relation-list] for an id, decoded. *)
Definition unitsAnswer (unmarshalStrings : string -> list string + string)
    (ctxt : Context) (relationId : string) : list string + string :=
  (RelationUnits unmarshalStrings ctxt relationId []).1.

(** The requests of [RelationIds] and [RelationUnits]. *)
Definition relationIdsRequest (ctxt : Context) (relationName : string) : Request :=
  request ctxt "relation-ids" ["--format"; "json"; "--"; relationName].

Definition relationListRequest (ctxt : Context) (relationId : string) : Request :=
  request ctxt "relation-list" ["--format"; "json"; "--"; relationId].

(** An agent that rejects every command. *)
Definition failingContext : Context :=
  {| RelationName := "db"; RelationId := "db:1"; RemoteUnit := "mysql/0";
     jujucContextId := "ctx-1";
     jujucClient := fun _ =>
       (None, mkResponse 1 "" (" error: no such relation" +:+ nbsp +:+ newline)) |}.

End Hook.

(** ** The gocharm command *)

Module Gocharm.
Import Strings.

(** *** Paths, integers, errors *)

(** A file path is the list of its components; [filepath.Join] appends
    components, [filepath.Dir] drops the last one and [filepath.Split] splits
    it off.  [render] is the path as the string Go prints. *)
Abbreviation path := (list string).

Definition Join (p : path) (elems : list string) : path := p ++ elems.
Definition filepath_Dir (p : path) : path := removelast p.
Definition Split (p : path) : path * string := (removelast p, List.last p "").
Definition render (p : path) : string := Strings.Join p "/".

(** Go's [int]: 64 bits, two's complement, addition wraps around. *)
Definition int_min : Z := - 2 ^ 63.
Definition int_max : Z := 2 ^ 63 - 1.
Definition wrap (z : Z) : Z := (z + 2 ^ 63) mod 2 ^ 64 - 2 ^ 63.
Definition int_add (a b : Z) : Z := wrap (a + b).

(** [errors.New], [errors.Wrap] and [errors.Wrapf] of errgo, on messages;
    [Wrap] and [Wrapf] of [nil] are [nil]. *)
Abbreviation error := (option string).

Definition New (msg : string) : error := Some msg.
Definition Wrap (e : error) : error := e.
Definition Wrapf (e : error) (msg : string) : error :=
  match e with
  | None => None
  | Some u => Some (msg +:+ ": " +:+ u)
  end.

(** *** The state the program acts on *)

(** A line on the standard output: printed by [main], or by a child
    process, which is given the stream ([c.Stdout = os.Stdout]). *)
Inductive Out :=
| Printed (line : string)
| ChildOut (line : string).

(** A line on the diagnostic stream: written by [warningf], by [errorf], or
    by the [log] package (which adds its own time stamp); [LogErrorInfo] is
    the line [log.Printf("error info: %s", errors.Info(err))]; [ChildErr] is
    a line of a child process, which is given the stream as well
    ([c.Stderr = os.Stderr]). *)
Inductive Diag :=
| Warning (msg : string)
| Failure (msg : string)
| Log (msg : string)
| LogErrorInfo (err : string)
| ChildErr (line : string).

(** The operating-system calls that leave no file content behind. *)
Inductive Call :=
| Exec (env : list string) (argv : list string)
| MkdirAll (p : path)
| RemoveAll (p : path).

Record State := mkState {
  exitCode : Z;
  stdout : list Out;
  stderr : list Diag;
  revisions : gmap (list string) Z;
  files : gmap (list string) string;
  calls : list Call
}.

Definition initial (revs : gmap (list string) Z) (fs : gmap (list string) string)
  : State :=
  {| exitCode := 0; stdout := []; stderr := []; revisions := revs;
     files := fs; calls := [] |}.

Definition set_exitCode (c : Z) (s : State) : State :=
  mkState c (stdout s) (stderr s) (revisions s) (files s) (calls s).
Definition print (line : string) (s : State) : State :=
  mkState (exitCode s) (stdout s ++ [Printed line]) (stderr s) (revisions s)
          (files s) (calls s).
Definition diag (d : Diag) (s : State) : State :=
  mkState (exitCode s) (stdout s) (stderr s ++ [d]) (revisions s) (files s)
          (calls s).
Definition set_revision (p : path) (n : Z) (s : State) : State :=
  mkState (exitCode s) (stdout s) (stderr s) (<[p := n]> (revisions s))
          (files s) (calls s).
Definition put_file (p : path) (content : string) (s : State) : State :=
  mkState (exitCode s) (stdout s) (stderr s) (revisions s)
          (<[p := content]> (files s)) (calls s).
Definition call (c : Call) (s : State) : State :=
  mkState (exitCode s) (stdout s) (stderr s) (revisions s) (files s)
          (calls s ++ [c]).
(** What a child process writes on the two streams while it runs. *)
Definition child (out err : list string) (s : State) : State :=
  mkState (exitCode s) (stdout s ++ (ChildOut <$> out))
          (stderr s ++ (ChildErr <$> err)) (revisions s) (files s) (calls s).

(** The revision a charm directory has on disk; a charm without a revision
    file has revision 0. *)
Definition diskRevision (s : State) (p : path) : Z :=
  default 0 (revisions s !! p).

(** *** The world outside the program *)

Inductive StatResult :=
| StatNotExist
| StatError (msg : string)
| StatInfo (isDir : bool).

(** The outcome of every call whose result the source inspects.  A
    command started with an environment and a command line ends with the
    error [exec] (or none), having printed the lines [execOut] on its
    standard output and [execErr] on its standard error. *)
Record World := mkWorld {
  environ : list string;
  listing : list (list string);
  readMeta : list string -> string + string;
  stat : list string -> StatResult;
  mkdirAll : list string -> option string;
  writeFile : list string -> option string;
  exec : list string -> list string -> option string;
  execOut : list string -> list string -> list string;
  execErr : list string -> list string -> list string;
  walk : list string -> string + list string;
  registered : list string -> string + gmap string bool;
  writeRevision : list string -> option string
}.

Record Flags := mkFlags {
  repo : string;
  test : bool;
  verbose : bool
}.

(** [charm.Dir]: the path, [Meta().Name] and the revision held in memory. *)
Record Dir := mkDir {
  Path : list string;
  Name : string;
  Revision : Z
}.

(** [os.Getenv]: the first entry for the key wins, an unset key reads as
    the empty string. *)
Fixpoint Getenv (env : list string) (key : string) : string :=
  match env with
  | [] => ""
  | e :: rest =>
      if HasPrefix e (key +:+ "=")
      then slice e (String.length key + 1) (String.length e)
      else Getenv rest key
  end.

(** [filepath.Glob(filepath.Join(repo, "*", "*", "metadata.yaml"))] over the
    files of the world: those exactly two directories below the root.
    [Glob] reads each directory with its names sorted, so the matches come
    ordered component by component, each component as [sort.Strings] orders
    it. *)
Fixpoint stripPrefix (root p : path) : option path :=
  match root, p with
  | [], _ => Some p
  | r :: root', x :: p' => if decide (r = x) then stripPrefix root' p' else None
  | _ :: _, [] => None
  end.

Definition globMatch (root p : path) : bool :=
  match stripPrefix root p with
  | Some [_; _; f] => String.eqb f "metadata.yaml"
  | _ => false
  end.

Fixpoint pathLeb (p q : path) : bool :=
  match p, q with
  | [], _ => true
  | _ :: _, [] => false
  | x :: p', y :: q' => if String.eqb x y then pathLeb p' q' else String.leb x y
  end.

Definition pathLe (p q : path) : Prop := pathLeb p q.

#[export] Instance pathLe_dec (p q : path) : Decision (pathLe p q).
Proof. unfold pathLe. apply _. Defined.

Definition Glob (w : World) (root : path) : list path :=
  merge_sort pathLe (List.filter (globMatch root) (listing w)).

(** [charm.ReadDir] of juju-core: the metadata, and the revision file. *)
Definition ReadDir (w : World) (s : State) (p : path) : string + Dir :=
  match readMeta w p with
  | inl e => inl e
  | inr name => inr {| Path := p; Name := name; Revision := diskRevision s p |}
  end.

(** [dir.SetDiskRevision] of juju-core: [SetRevision] on the value in
    memory, then the write of the revision file. *)
Definition SetDiskRevision (w : World) (dir : Dir) (revision : Z) (s : State)
  : error * Dir * State :=
  let dir' := {| Path := Path dir; Name := Name dir; Revision := revision |} in
  match writeRevision w (Path dir) with
  | Some e => (Some e, dir', s)
  | None => (None, dir', set_revision (Path dir) revision s)
  end.

(** *** Diagnostics *)

Definition warningf (msg : string) (s : State) : State := diag (Warning msg) s.
Definition errorf (msg : string) (s : State) : State :=
  diag (Failure msg) (set_exitCode 1 s).
(** [fatalf] ends the process: the status of [os.Exit(2)] and the state. *)
Definition fatalf (msg : string) (s : State) : Z * State := (2, errorf msg s).
Definition logPrintf (msg : string) (s : State) : State := diag (Log msg) s.

(** *** The build *)

Definition hookMainCode : string :=
  Strings.Join
    [ ""; "// This file is automatically generated. Do not edit."; "";
      "package main"; "import (";
      String "009" ("" +:+ dquote +:+ "fmt" +:+ dquote);
      String "009" ("runhook " +:+ dquote +:+ "runhook" +:+ dquote);
      String "009" ("" +:+ dquote +:+ "launchpad.net/juju-utils/hook" +:+ dquote);
      String "009" ("" +:+ dquote +:+ "os" +:+ dquote);
      ")"; ""; "func main() {";
      String "009" "r := hook.NewRegistry()";
      String "009" "runhook.RegisterHooks(r)";
      String "009" "if err := hook.Main(r); err != nil {";
      String "009" (String "009" ("fmt.Fprintf(os.Stderr, " +:+ dquote
          +:+ "runhook: %v\n" +:+ dquote +:+ ", err)"));
      String "009" (String "009" "os.Exit(1)");
      String "009" "}"; "}"; "" ] newline.

(** [setenv]: [None] is the panic on an entry without [=]. *)
Fixpoint replaceFirst (prefix entry : string) (env : list string)
  : option (list string) :=
  match env with
  | [] => None
  | e :: rest =>
      if HasPrefix e prefix then Some (entry :: rest)
      else match replaceFirst prefix entry rest with
           | Some rest' => Some (e :: rest')
           | None => None
           end
  end.

Definition setenv (env : list string) (entry : string) : option (list string) :=
  match Index entry "=" with
  | None => None
  | Some i =>
      let prefix := slice entry 0 (i + 1) in
      match replaceFirst prefix entry env with
      | Some env' => Some env'
      | None => Some (env ++ [entry])
      end
  end.

(** [c.Stdout = os.Stdout], [c.Stderr = os.Stderr], [c.Env = env] and
    [c.Run()], as [compile] and [run] do them: the command is started with
    the environment, what it prints comes out on the two streams of the
    process, and its failure is the error of [Run]. *)
Definition runCommand (w : World) (env argv : list string) (s : State)
  : error * State :=
  (exec w env argv,
   child (execOut w env argv) (execErr w env argv) (call (Exec env argv) s)).

(** The environment [compile] hands to the compiler. *)
Definition buildEnv (w : World) (dir : Dir) (crossCompile : bool)
  : option (list string) :=
  env ← setenv (environ w)
        ("GOPATH=" +:+ render (Path dir) +:+ ":" +:+ Getenv (environ w) "GOPATH");
  if crossCompile then
    env ← setenv env "CGOENABLED=false";
    env ← setenv env "GOARCH=amd64";
    setenv env "GOOS=linux"
  else Some env.

(** [compile]; the outer [None] is a panic. *)
Definition compile (w : World) (dir : Dir) (binaryName mainCode : string)
    (crossCompile : bool) (s : State) : option (error * State) :=
  env ← buildEnv w dir crossCompile;
  let mainDir := Join (Path dir) ["src"; "_main"; binaryName] in
  let s := call (MkdirAll mainDir) s in
  match mkdirAll w mainDir with
  | Some e => Some (Wrap (Some e), s)
  | None =>
      match writeFile w (Join mainDir ["main.go"]) with
      | Some e => Some (Wrap (Some e), s)
      | None =>
          let s := put_file (Join mainDir ["main.go"]) mainCode s in
          let argv := ["go"; "build"; "-o";
                       render (Join (Path dir) ["bin"; binaryName]);
                       "_main/" +:+ binaryName] in
          match runCommand w env argv s with
          | (Some e, s) => Some (Wrapf (Some e) "failed to build", s)
          | (None, s) => Some (None, s)
          end
      end
  end.

(** *** The tests *)

(** [strings.HasSuffix], [strings.TrimPrefix] and [filepath.Split] on the
    rendered names [fs.Walk] reports. *)
Definition HasSuffix (s suffix : string) : bool :=
  Nat.leb (String.length suffix) (String.length s)
  && String.eqb (slice s (String.length s - String.length suffix) (String.length s))
                suffix.

Definition TrimPrefix (s prefix : string) : string :=
  if HasPrefix s prefix then slice s (String.length prefix) (String.length s)
  else s.

Fixpoint splitName (s : string) : string * string :=
  match s with
  | EmptyString => (EmptyString, EmptyString)
  | String a s' =>
      match splitName s' with
      | (EmptyString, f) =>
          if Ascii.eqb a "/" then (String a EmptyString, f)
          else (EmptyString, String a f)
      | (d, f) => (String a d, f)
      end
  end.

(** [packagesInDir]: the walk may fail; the packages are the parents of the
    Go files below [src], each once, sorted. *)
Definition packagesInDir (w : World) (dir : path) : string + list string :=
  match walk w dir with
  | inl e => inl e
  | inr visited =>
      let srcPrefix := render (Join dir ["src"]) in
      let gofiles :=
        List.filter (fun p => HasSuffix p ".go" && HasPrefix p srcPrefix) visited in
      let pkgs := (fun p => TrimPrefix (fst (splitName p)) srcPrefix) <$> gofiles in
      inr (merge_sort String.le (remove_dups pkgs))
  end.

(** [run] starts [go test ./...] whatever command and arguments it is given. *)
Definition run (w : World) (env : list string) (cmd : string)
    (args : list string) (s : State) : error * State :=
  let '(e, s) := runCommand w env ["go"; "test"; "./..."] s in
  (Wrap e, s).

(** [testCharm]: the format has three verbs and two operands, so [Sprintf]
    prints the missing one as [%!s(MISSING)]. *)
Definition testCharm (w : World) (dir : Dir) (s : State) : error * State :=
  match packagesInDir w (Path dir) with
  | inl e => (Wrap (Some e), s)
  | inr pkgs =>
      let env := environ w ++
        ["GOPATH=" +:+ render (Path dir) +:+ ":" +:+ Getenv (environ w) "GOPATH"
           +:+ ":%!s(MISSING)"] in
      let args := ["test"] ++ pkgs in
      match run w env "go" args s with
      | (Some e, s') => (Wrap (Some e), s')
      | (None, s') => (None, s')
      end
  end.

(** *** Hooks *)

(** Modelled from the spec: [registeredHooks] is defined in a file of the
    command that is not among the sources.  Section 4.5 makes it run the
    charm's registration logic without side effect on the charm and return
    the set of registered hook names, or fail; the call in [processGoCharm]
    shows the set is a [map[string]bool]. *)
Definition registeredHooks (w : World) (dir : Dir) (s : State)
  : (string + gmap string bool) * State :=
  (registered w (Path dir), s).

(** Modelled from the spec: the canonical content of a stub, a small script
    that starts the compiled binary with the hook name (section 4.6); its
    only parameter is the hook name. *)
Definition hookStub (hookName : string) : string :=
  "#!/bin/sh" +:+ newline +:+ "exec $CHARM_DIR/bin/runhook " +:+ hookName
  +:+ newline.

(** The names of a hook set, sorted (section 3). *)
Definition hookNames (hooks : gmap string bool) : list string :=
  merge_sort String.le (map_to_list hooks).*1.

(** Modelled from the spec: the StubSynchronizer of section 4.6, for the
    hook names in turn.  A missing stub is written, a stub with the canonical
    content is left, a stub with other content is not overwritten and a
    warning names it; a write that fails is the fatal error of the stage. *)
Fixpoint syncStubs (w : World) (hookDir : path) (names : list string)
    (s : State) : error * State :=
  match names with
  | [] => (None, s)
  | hookName :: rest =>
      let hookPath := Join hookDir [hookName] in
      match files s !! hookPath with
      | None =>
          match writeFile w hookPath with
          | Some e => (Wrap (Some e), s)
          | None => syncStubs w hookDir rest (put_file hookPath (hookStub hookName) s)
          end
      | Some content =>
          if decide (content = hookStub hookName) then syncStubs w hookDir rest s
          else syncStubs w hookDir rest
                 (warningf ("not overwriting modified hook " +:+ quote (render hookPath)) s)
      end
  end.

(** Modelled from the spec: [writeHooks], which is defined in a file of the
    command that is not among the sources. *)
Definition writeHooks (w : World) (dir : Dir) (hooks : gmap string bool)
    (s : State) : error * State :=
  syncStubs w (Join (Path dir) ["hooks"]) (hookNames hooks) s.

(** *** One charm *)

Definition isGoCharm (w : World) (dir : Dir) : bool * error :=
  match stat w (Join (Path dir) ["src"; "runhook"]) with
  | StatNotExist => (false, None)
  | StatError e => (false, Wrap (Some e))
  | StatInfo isDir => if negb isDir then (false, None) else (true, None)
  end.

(** The body of [processGoCharm], up to its [return]. *)
Definition processGoCharmBody (fl : Flags) (w : World) (dir : Dir) (s : State)
  : option (bool * error * State) :=
  if test fl then
    let '(e, s) := testCharm w dir s in Some (false, Wrap e, s)
  else
    '(e, s) ← compile w dir "runhook" hookMainCode true s;
    match e with
    | Some _ => Some (false, Wrapf e "cannot build hooks main package", s)
    | None =>
        match stat w (Join (Path dir) ["bin"; "runhook"]) with
        | StatNotExist | StatError _ =>
            Some (false, New "runhook command not built", s)
        | StatInfo _ =>
            match registeredHooks w dir s with
            | (inl e, s) => Some (false, Wrap (Some e), s)
            | (inr hooks, s) =>
                (* We always want to generate a stop hook. *)
                let hooks := <["stop" := true]> hooks in
                match writeHooks w dir hooks s with
                | (Some e, s) =>
                    Some (false, Wrapf (Some e) "cannot write hooks to charm", s)
                | (None, s) => Some (true, None, s)
                end
            end
        end
    end.

(** [processGoCharm]: the deferred [os.RemoveAll] runs after the body,
    whatever it returns. *)
Definition processGoCharm (fl : Flags) (w : World) (dir : Dir) (s : State)
  : option (bool * error * State) :=
  '(doneSomething, err, s) ← processGoCharmBody fl w dir s;
  Some (doneSomething, err, call (RemoveAll (Join (Path dir) ["pkg"])) s).

(** *** The command *)

(** The first loop of [main]: the charms that can be read. *)
Fixpoint readDirs (w : World) (paths : list path) (dirs : list Dir) (s : State)
  : list Dir * State :=
  match paths with
  | [] => (dirs, s)
  | p :: rest =>
      let p := filepath_Dir p in
      match ReadDir w s p with
      | inl e =>
          readDirs w rest dirs
            (errorf ("cannot read " +:+ quote (render p) +:+ ": " +:+ e) s)
      | inr dir => readDirs w rest (dirs ++ [dir]) s
      end
  end.

(** The line [main] prints for a charm it has built. *)
Definition successLine (dir : Dir) : string :=
  let series := snd (Split (filepath_Dir (Path dir))) in
  "local:" +:+ series +:+ "/" +:+ Name dir +:+ "-" +:+ pretty (Revision dir).

(** One turn of the second loop of [main]. *)
Definition processCharm (fl : Flags) (w : World) (dir : Dir) (s : State)
  : option State :=
  match isGoCharm w dir with
  | (_, Some e) =>
      Some (warningf ("cannot determine if " +:+ quote (render (Path dir))
                      +:+ " is a Go charm: " +:+ e) s)
  | (false, None) =>
      Some (if verbose fl
            then logPrintf ("ignoring non-Go charm " +:+ render (Path dir)) s
            else s)
  | (true, None) =>
      let s := if verbose fl
               then logPrintf ("processing " +:+ render (Path dir)) s else s in
      '(doneSomething, err, s) ← processGoCharm fl w dir s;
      match err with
      | Some e =>
          Some (errorf ("failed compile or test charm "
                        +:+ quote (render (Path dir)) +:+ ": " +:+ e)
                  (diag (LogErrorInfo e) s))
      | None =>
          if (doneSomething : bool) then
            let '(e, dir, s) :=
              SetDiskRevision w dir (int_add (Revision dir) 1) s in
            let s := match e with
                     | Some e => errorf ("cannot bump revision on "
                                   +:+ quote (render (Path dir)) +:+ ": " +:+ e) s
                     | None => s
                     end in
            Some (print (successLine dir) s)
          else Some s
      end
  end.

Fixpoint processAll (fl : Flags) (w : World) (dirs : list Dir) (s : State)
  : option State :=
  match dirs with
  | [] => Some s
  | dir :: rest => s ← processCharm fl w dir s; processAll fl w rest s
  end.

(** [main]: the exit status of the process and the state it leaves; [None]
    is a panic. *)
Definition main (fl : Flags) (w : World) (s : State) : option (Z * State) :=
  let repo :=
    if String.eqb (repo fl) "" then Getenv (environ w) "JUJU_REPOSITORY"
    else repo fl in
  if String.eqb repo "" then Some (fatalf "no charm repo directory specified" s)
  else
    let paths := Glob w [repo] in
    if (Z.of_nat (length paths) =? 0) then Some (fatalf "no charms found" s)
    else
      let '(dirs, s) := readDirs w paths [] s in
      s ← processAll fl w dirs s;
      Some (exitCode s, s).

(** *** Vocabulary of the properties *)

(** A variable name: a string without [=]. *)
Fixpoint isName (s : string) : bool :=
  match s with
  | EmptyString => true
  | String a s' => negb (Ascii.eqb a "=") && isName s'
  end.

(** The entries of an environment that set a given variable. *)
Definition isFor (name e : string) : bool := HasPrefix e (name +:+ "=").

Definition entriesFor (name : string) (env : list string) : list string :=
  List.filter (isFor name) env.

(** Two names neither of which extends the other: their entries are
    disjoint. *)
Definition apart (n1 n2 : string) : bool :=
  negb (String.prefix (n1 +:+ "=") (n2 +:+ "="))
  && negb (String.prefix (n2 +:+ "=") (n1 +:+ "=")).

(** The variables [compile] writes. *)
Definition written (crossCompile : bool) : list string :=
  "GOPATH" :: (if crossCompile then ["CGOENABLED"; "GOARCH"; "GOOS"] else []).

(** The command line of the build of [binaryName]. *)
Definition buildArgv (dir : Dir) (binaryName : string) : list string :=
  ["go"; "build"; "-o"; render (Join (Path dir) ["bin"; binaryName]);
   "_main/" +:+ binaryName].


(** The lines [main] itself has printed on a standard output. *)
Definition printed (o : list Out) : list string :=
  omap (fun x => match x with Printed line => Some line | ChildOut _ => None end) o.

(** Kinds of calls. *)
Definition isRemoveAll (c : Call) : bool :=
  match c with RemoveAll _ => true | _ => false end.

Definition isExec (c : Call) : bool :=
  match c with Exec _ _ => true | _ => false end.

(** The files [processGoCharm] reads or writes below a charm directory. *)
Definition mainGo (dir : Dir) : path :=
  Join (Join (Path dir) ["src"; "_main"; "runhook"]) ["main.go"].
Definition binary (dir : Dir) : path := Join (Path dir) ["bin"; "runhook"].
Definition stubPath (dir : Dir) (hookName : string) : path :=
  Join (Join (Path dir) ["hooks"]) [hookName].
Definition pkgDir (dir : Dir) : path := Join (Path dir) ["pkg"].

(** The warning of the stub synchronizer about a stub it does not overwrite. *)
Definition conflictWarning (dir : Dir) (hookName : string) : Diag :=
  Warning ("not overwriting modified hook "
           +:+ quote (render (stubPath dir hookName))).

(** The state in which [main] calls [processGoCharm]: in verbose mode the
    charm has been announced on the log. *)
Definition started (fl : Flags) (dir : Dir) (s : State) : State :=
  if verbose fl then logPrintf ("processing " +:+ render (Path dir)) s else s.

(** The classifier accepts the charm. *)
Definition accepted (w : World) (dir : Dir) : Prop :=
  isGoCharm w dir = (true, None).

(** The three stages of the pipeline run from state [s] without fatal
    error: the build leaves the binary, the introspection returns a hook
    set, and the stubs are synchronized. *)
Definition pipelineCompleted (fl : Flags) (w : World) (dir : Dir) (s : State)
  : Prop :=
  test fl = false /\
  exists sc isDir hooks sw,
    compile w dir "runhook" hookMainCode true s = Some (None, sc)
    /\ stat w (binary dir) = StatInfo isDir
    /\ registered w (Path dir) = inr hooks
    /\ writeHooks w dir (<["stop" := true]> hooks) sc = (None, sw).

(** The charm is accepted and its pipeline completes from the state in
    which [main] reaches it: [main] goes on to advance its revision. *)
Definition advancing (fl : Flags) (w : World) (dir : Dir) (s : State) : Prop :=
  accepted w dir /\ pipelineCompleted fl w dir (started fl dir s).

(** The same, computed: the classifier accepts the charm, [processGoCharm]
    reports that it has done something, and the revision file can be
    written. *)
Definition advances (fl : Flags) (w : World) (dir : Dir) (s : State) : bool :=
  match isGoCharm w dir, processGoCharm fl w dir (started fl dir s),
        writeRevision w (Path dir) with
  | (true, None), Some (true, _, _), None => true
  | _, _, _ => false
  end.

(** The charm directory after [SetDiskRevision]. *)
Definition bumped (dir : Dir) : Dir :=
  {| Path := Path dir; Name := Name dir;
     Revision := int_add (Revision dir) 1 |}.


(** The repository root [main] works on: the [-repo] flag, or else the
    environment variable. *)
Definition resolvedRepo (fl : Flags) (w : World) : string :=
  if String.eqb (repo fl) "" then Getenv (environ w) "JUJU_REPOSITORY"
  else repo fl.

(** *** A sample repository

    Three charms below [/srv/charms].  In [sampleWorld] every operation
    succeeds and the commands print nothing, [mysql] has no [src/runhook]
    and the classification of [haproxy] fails; in [readOnlyWorld] all three
    are Go charms and the revision file of [wordpress] cannot be written. *)
Definition wordpress : path := ["/srv/charms"; "lucid"; "wordpress"].
Definition mysql : path := ["/srv/charms"; "precise"; "mysql"].
Definition haproxy : path := ["/srv/charms"; "trusty"; "haproxy"].

Definition sampleListing : list path :=
  [ ["/srv/charms"; "README"];
    Join wordpress ["metadata.yaml"];
    Join wordpress ["src"; "runhook"; "hooks.go"];
    Join mysql ["metadata.yaml"];
    ["/srv/charms"; "precise"; "metadata.yaml"];
    Join haproxy ["metadata.yaml"];
    Join haproxy ["hooks"; "metadata.yaml"] ].

Definition sampleWorld : World :=
  {| environ := ["HOME=/root"; "GOOS=darwin"; "GOPATH=/usr/share/go"];
     listing := sampleListing;
     readMeta := fun p => inr (List.last p "");
     stat := fun p =>
       if decide (p = Join mysql ["src"; "runhook"]) then StatNotExist
       else if decide (p = Join haproxy ["src"; "runhook"])
            then StatError "permission denied"
            else StatInfo true;
     mkdirAll := fun _ => None;
     writeFile := fun _ => None;
     exec := fun _ _ => None;
     execOut := fun _ _ => [];
     execErr := fun _ _ => [];
     walk := fun _ => inr [];
     registered := fun _ => inr {["config-changed" := true]};
     writeRevision := fun _ => None |}.

Definition readOnlyWorld : World :=
  {| environ := environ sampleWorld;
     listing := sampleListing;
     readMeta := readMeta sampleWorld;
     stat := fun _ => StatInfo true;
     mkdirAll := fun _ => None;
     writeFile := fun _ => None;
     exec := fun _ _ => None;
     execOut := fun _ _ => [];
     execErr := fun _ _ => [];
     walk := fun _ => inr [];
     registered := fun _ => inr {["config-changed" := true]};
     writeRevision := fun p =>
       if decide (p = wordpress) then Some "read-only file system" else None |}.

Definition sampleFlags : Flags :=
  {| repo := "/srv/charms"; test := false; verbose := false |}.

Definition sampleRevisions : gmap (list string) Z :=
  {[ wordpress := 5; mysql := int_max; haproxy := 2 ]}.

(** The [stop] hook of [wordpress] has been edited by hand. *)
Definition sampleFiles : gmap (list string) string :=
  {[ Join wordpress ["hooks"; "stop"] := "#!/bin/sh" +:+ newline +:+ "exit 0" ]}.

Definition sampleState : State := initial sampleRevisions sampleFiles.

Definition sampleDir (p : path) : Dir :=
  {| Path := p; Name := List.last p ""; Revision := diskRevision sampleState p |}.

(** *** Vocabulary of the further properties *)

(** A diagnostic written by [errorf]. *)
Definition isFailure (d : Diag) : bool :=
  match d with Failure _ => true | _ => false end.

(** The first loop of [main], path by path: the charm read from the
    directory of a metadata file, or the message [main] reports for it. *)
Definition readOk (w : World) (s : State) (p : path) : option Dir :=
  match ReadDir w s (filepath_Dir p) with
  | inr dir => Some dir
  | inl _ => None
  end.

Definition readError (w : World) (p : path) : option string :=
  match readMeta w (filepath_Dir p) with
  | inl e => Some ("cannot read " +:+ quote (render (filepath_Dir p))
                   +:+ ": " +:+ e)
  | inr _ => None
  end.

(** [sampleWorld] with an unreadable [mysql], and the flags of a test run. *)
Definition brokenWorld : World :=
  {| environ := environ sampleWorld;
     listing := listing sampleWorld;
     readMeta := fun p =>
       if decide (p = mysql) then inl "metadata.yaml: no such file"
       else readMeta sampleWorld p;
     stat := stat sampleWorld;
     mkdirAll := mkdirAll sampleWorld;
     writeFile := writeFile sampleWorld;
     exec := exec sampleWorld;
     execOut := execOut sampleWorld;
     execErr := execErr sampleWorld;
     walk := walk sampleWorld;
     registered := registered sampleWorld;
     writeRevision := writeRevision sampleWorld |}.

Definition testFlags : Flags :=
  {| repo := "/srv/charms"; test := true; verbose := false |}.

(** [sampleWorld] with tests that fail: [go test] prints its verdict on its
    standard output, the failed assertion on its standard error, and exits
    with status 1. *)
Definition goTest : list string := ["go"; "test"; "./..."].

Definition failingTests : World :=
  {| environ := environ sampleWorld;
     listing := listing sampleWorld;
     readMeta := readMeta sampleWorld;
     stat := stat sampleWorld;
     mkdirAll := mkdirAll sampleWorld;
     writeFile := writeFile sampleWorld;
     exec := fun _ argv =>
       if decide (argv = goTest) then Some "exit status 1" else None;
     execOut := fun _ argv =>
       if decide (argv = goTest)
       then ["--- FAIL: TestInstall (0.00s)"; "FAIL"] else [];
     execErr := fun _ argv =>
       if decide (argv = goTest) then ["hooks_test.go:12: no config"] else [];
     walk := walk sampleWorld;
     registered := registered sampleWorld;
     writeRevision := writeRevision sampleWorld |}.

(** [sampleWorld] on a machine whose environment enables cgo. *)
Definition cgoWorld : World :=
  {| environ := ["HOME=/root"; "CGO_ENABLED=1"; "GOPATH=/usr/share/go"];
     listing := listing sampleWorld;
     readMeta := readMeta sampleWorld;
     stat := stat sampleWorld;
     mkdirAll := mkdirAll sampleWorld;
     writeFile := writeFile sampleWorld;
     exec := exec sampleWorld;
     execOut := execOut sampleWorld;
     execErr := execErr sampleWorld;
     walk := walk sampleWorld;
     registered := registered sampleWorld;
     writeRevision := writeRevision sampleWorld |}.

End Gocharm.

(** * Properties of the hook package *)

Module HookFacts.
Import Strings Hook.

Lemma commands_app (t1 t2 : Trace) :
  commands (t1 ++ t2) = commands t1 ++ commands t2.
Proof. unfold commands. apply omap_app. Qed.

(** [run] logs the request and sends it, once, whatever the agent answers. *)
Lemma run_trace ctxt cmd args t :
  (run ctxt cmd args t).2 =
  t ++ [Logged (mkRequest (jujucContextId ctxt) "/" cmd args);
        Called (mkRequest (jujucContextId ctxt) "/" cmd args)].
Proof.
  unfold run.
  destruct (jujucClient ctxt _) as [[err|] resp]; [reflexivity|].
  destruct (Code resp =? 0); reflexivity.
Qed.

(** On a slice of [2 * n] strings the loop ends without a panic, with [n]
    arguments, the [i]-th made of the strings at [2 * i] and [2 * i + 1]. *)
Lemma keyvalArgs_even (n : nat) : forall keyvals : list string,
  length keyvals = (2 * n)%nat ->
  exists pairs,
    keyvalArgs keyvals = Some pairs /\
    length pairs = n /\
    forall (i : nat) k v,
      keyvals !! (2 * i)%nat = Some k ->
      keyvals !! (2 * i + 1)%nat = Some v ->
      pairs !! i = Some (k +:+ "=" +:+ v).
Proof.
  induction n as [|n IH]; intros keyvals Hlen.
  - destruct keyvals; [|discriminate]. exists []. repeat split; [].
    intros i k v Hk. rewrite lookup_nil in Hk. discriminate.
  - destruct keyvals as [|k0 [|v0 rest]]; simpl in Hlen; try lia.
    destruct (IH rest ltac:(lia)) as (pairs & Hargs & Hn & Hidx).
    exists ((k0 +:+ "=" +:+ v0) :: pairs). cbn [keyvalArgs]. rewrite Hargs.
    repeat split; [simpl; lia|].
    intros [|i] k v Hk Hv.
    + cbn in Hk, Hv. injection Hk as <-. injection Hv as <-. reflexivity.
    + replace (2 * S i)%nat with (S (S (2 * i))) in Hk by lia.
      replace (2 * S i + 1)%nat with (S (S (2 * i + 1))) in Hv by lia.
      change (rest !! (2 * i)%nat = Some k) in Hk.
      change (rest !! (2 * i + 1)%nat = Some v) in Hv.
      exact (Hidx i k v Hk Hv).
Qed.

Lemma odd_length_rem (keyvals : list string) :
  Nat.Odd (length keyvals) ->
  negb (Z.rem (Z.of_nat (length keyvals)) 2 =? 0) = true.
Proof.
  intros [m Hm]. rewrite Hm. rewrite Z.rem_mod_nonneg by lia.
  replace (Z.of_nat (2 * m + 1)) with (1 + Z.of_nat m * 2) by lia.
  rewrite Z.mod_add by lia. reflexivity.
Qed.

Lemma even_length_rem (keyvals : list string) :
  Nat.Even (length keyvals) ->
  negb (Z.rem (Z.of_nat (length keyvals)) 2 =? 0) = false.
Proof.
  intros [m Hm]. rewrite Hm. rewrite Z.rem_mod_nonneg by lia.
  replace (Z.of_nat (2 * m)) with (0 + Z.of_nat m * 2) by lia.
  rewrite Z.mod_add by lia. reflexivity.
Qed.

(** C10. [SetRelationWithId] with an odd number of key/value arguments
    returns an error and sends no command; with no argument it returns
    [nil] and sends no command; with an even, non-empty list it does not
    panic and sends exactly one command, [relation-set], whose arguments are
    [-r], the relation id, [--] and then one [key=value] per pair, in the
    order of the arguments. *)
Theorem SetRelationWithId_cases (ctxt : Context) (relationId : string)
    (keyvals : list string) (t : Trace) :
  (Nat.Odd (length keyvals) ->
     exists msg, SetRelationWithId ctxt relationId keyvals t = (Error msg, t))
  /\ (keyvals = [] -> SetRelationWithId ctxt relationId keyvals t = (Nil, t))
  /\ (Nat.Even (length keyvals) -> keyvals <> [] ->
      exists pairs,
        let req := relationSet ctxt relationId pairs in
        (SetRelationWithId ctxt relationId keyvals t).1 <> Panic
        /\ (SetRelationWithId ctxt relationId keyvals t).2
           = t ++ [Logged req; Called req]
        /\ commands (SetRelationWithId ctxt relationId keyvals t).2
           = commands t ++ [req]
        /\ (2 * length pairs = length keyvals)%nat
        /\ forall (i : nat) k v,
             keyvals !! (2 * i)%nat = Some k ->
             keyvals !! (2 * i + 1)%nat = Some v ->
             pairs !! i = Some (k +:+ "=" +:+ v)).
Proof.
  split; [|split].
  - intros Hodd. exists "invalid key/value count".
    unfold SetRelationWithId. rewrite odd_length_rem by assumption. reflexivity.
  - intros ->. reflexivity.
  - intros Heven Hne.
    destruct Heven as [n Hn].
    destruct (keyvalArgs_even n keyvals Hn) as (pairs & Hargs & Hlen & Hidx).
    exists pairs. cbv zeta.
    assert (Hstep : SetRelationWithId ctxt relationId keyvals t =
              match run ctxt "relation-set" (["-r"; relationId; "--"] ++ pairs) t with
              | (inl _, t') => (Nil, t')
              | (inr err, t') => (Error err, t')
              end).
    { unfold SetRelationWithId.
      rewrite even_length_rem by (exists n; assumption).
      destruct keyvals; [congruence|].
      replace (Z.of_nat (length (s :: keyvals)) =? 0) with false
        by (symmetry; apply Z.eqb_neq; simpl length; lia).
      rewrite Hargs. reflexivity. }
    pose proof (run_trace ctxt "relation-set" (["-r"; relationId; "--"] ++ pairs) t)
      as Htrace.
    rewrite Hstep.
    destruct (run ctxt "relation-set" (["-r"; relationId; "--"] ++ pairs) t)
      as [[out|err] t'] eqn:Hrun; simpl in Htrace; subst t'; simpl;
      (split; [discriminate|]); (split; [reflexivity|]);
      (split; [rewrite commands_app; reflexivity|]); (split; [lia|exact Hidx]).
Qed.

Lemma SetRelationWithId_cases_witness :
  Nat.Even (length ["host"; "10.0.0.1"; "port"; "5432"])
  /\ ["host"; "10.0.0.1"; "port"; "5432"] <> ([] : list string)
  /\ exists pairs,
       commands (SetRelationWithId sampleContext "db:1"
                   ["host"; "10.0.0.1"; "port"; "5432"] []).2
       = [relationSet sampleContext "db:1" pairs]
       /\ pairs !! 1%nat = Some "port=5432".
Proof.
  assert (He : Nat.Even (length ["host"; "10.0.0.1"; "port"; "5432"]))
    by (exists 2%nat; reflexivity).
  assert (Hn : ["host"; "10.0.0.1"; "port"; "5432"] <> ([] : list string))
    by discriminate.
  split; [exact He|]. split; [exact Hn|].
  destruct (SetRelationWithId_cases sampleContext "db:1"
              ["host"; "10.0.0.1"; "port"; "5432"] []) as (_ & _ & H).
  destruct (H He Hn) as (pairs & _ & _ & Hc & _ & Hidx).
  exists pairs. split; [exact Hc|].
  apply (Hidx 1%nat "port" "5432"); reflexivity.
Defined.

End HookFacts.

(** * Properties of the gocharm command *)

Module GocharmFacts.
Import Strings Gocharm.

(** ** Strings and environment entries *)

Lemma prefix_empty (s : string) : String.prefix "" s = true.
Proof. destruct s; reflexivity. Qed.

Lemma app_cons (a : ascii) (p s : string) : String a p +:+ s = String a (p +:+ s).
Proof. reflexivity. Qed.

Lemma app_empty (s : string) : "" +:+ s = s.
Proof. reflexivity. Qed.

Lemma prefix_cons (a b : ascii) (p s : string) :
  String.prefix (String a p) (String b s)
  = if ascii_dec a b then String.prefix p s else false.
Proof. reflexivity. Qed.

Lemma index_cons (sep : string) (b : ascii) (s : string) :
  String.index 0 sep (String b s)
  = if String.prefix sep (String b s) then Some 0%nat
    else match String.index 0 sep s with
         | Some n => Some (S n)
         | None => None
         end.
Proof. reflexivity. Qed.

Lemma prefix_app (p s : string) : String.prefix p (p +:+ s) = true.
Proof.
  induction p as [|a p IH]; [apply prefix_empty|].
  rewrite app_cons, prefix_cons. destruct (ascii_dec a a); [exact IH|congruence].
Qed.

Lemma substring_all (s : string) : String.substring 0 (String.length s) s = s.
Proof. induction s as [|a s IH]; [reflexivity|]. cbn. rewrite IH. reflexivity. Qed.

Lemma substring_app_l (p s : string) :
  String.substring 0 (String.length p) (p +:+ s) = p.
Proof.
  induction p as [|a p IH]; [destruct s; reflexivity|].
  rewrite app_cons. cbn. rewrite IH. reflexivity.
Qed.

Lemma substring_app_r (p s : string) :
  String.substring (String.length p) (String.length s) (p +:+ s) = s.
Proof.
  induction p as [|a p IH]; [apply substring_all|].
  rewrite app_cons. exact IH.
Qed.

Lemma length_app (p s : string) :
  String.length (p +:+ s) = (String.length p + String.length s)%nat.
Proof.
  induction p as [|a p IH]; [reflexivity|].
  rewrite app_cons. cbn. rewrite IH. reflexivity.
Qed.

Lemma app_assoc_string (a b c : string) : (a +:+ b) +:+ c = a +:+ b +:+ c.
Proof.
  induction a as [|x a IH]; [reflexivity|].
  rewrite !app_cons, IH. reflexivity.
Qed.

(** Two prefixes of one string are prefixes of one another. *)
Lemma prefix_comparable (e : string) : forall p q : string,
  String.prefix p e = true -> String.prefix q e = true ->
  String.prefix p q = true \/ String.prefix q p = true.
Proof.
  induction e as [|c e IH]; intros p q Hp Hq.
  - destruct p; [|discriminate]. left. apply prefix_empty.
  - destruct p as [|a p]; [left; apply prefix_empty|].
    destruct q as [|b q]; [right; apply prefix_empty|].
    rewrite prefix_cons in Hp, Hq |- *. rewrite prefix_cons.
    destruct (ascii_dec a c) as [->|]; [|discriminate].
    destruct (ascii_dec b c) as [->|]; [|discriminate].
    destruct (ascii_dec c c); [|congruence].
    apply IH; assumption.
Qed.

Lemma Index_entry (name value : string) :
  isName name = true ->
  Index (name +:+ "=" +:+ value) "=" = Some (String.length name).
Proof.
  unfold Index. induction name as [|a name IH]; intros Hname.
  - rewrite app_empty, app_cons, index_cons, prefix_cons.
    destruct (ascii_dec "=" "="); [|congruence].
    rewrite prefix_empty. reflexivity.
  - cbn in Hname. apply andb_prop in Hname as [Ha Hname].
    apply negb_true_iff, Ascii.eqb_neq in Ha.
    rewrite app_cons, index_cons, prefix_cons.
    destruct (ascii_dec "=" a) as [<-|_]; [congruence|].
    rewrite (IH Hname). reflexivity.
Qed.

Lemma isFor_entry (name value : string) : isFor name (name +:+ "=" +:+ value) = true.
Proof.
  unfold isFor, HasPrefix. rewrite <- app_assoc_string. apply prefix_app.
Qed.

Lemma apart_isFor (n1 n2 e : string) :
  apart n1 n2 = true -> isFor n1 e = true -> isFor n2 e = false.
Proof.
  unfold apart, isFor, HasPrefix. intros Hap H1.
  apply andb_prop in Hap as [Ha Hb].
  apply negb_true_iff in Ha. apply negb_true_iff in Hb.
  destruct (String.prefix (n2 +:+ "=") e) eqn:H2; [|reflexivity].
  destruct (prefix_comparable e _ _ H1 H2); congruence.
Qed.

Lemma Getenv_find (env : list string) (key : string) :
  Getenv env key =
  match List.find (isFor key) env with
  | Some e => slice e (String.length key + 1) (String.length e)
  | None => ""
  end.
Proof.
  induction env as [|e env IH]; [reflexivity|].
  cbn. unfold isFor at 1. destruct (HasPrefix e (key +:+ "=")); [reflexivity|exact IH].
Qed.

Lemma slice_value (name value : string) :
  slice (name +:+ "=" +:+ value) (String.length name + 1)
        (String.length (name +:+ "=" +:+ value)) = value.
Proof.
  unfold slice. rewrite <- app_assoc_string.
  rewrite (length_app (name +:+ "=") value).
  replace (String.length name + 1)%nat with (String.length (name +:+ "="))
    by (rewrite length_app; reflexivity).
  replace (String.length (name +:+ "=") + String.length value
           - String.length (name +:+ "="))%nat
    with (String.length value) by lia.
  apply substring_app_r.
Qed.

(** ** [setenv] *)

Lemma Getenv_entries (env : list string) (key : string) :
  Getenv env key =
  match entriesFor key env with
  | e :: _ => slice e (String.length key + 1) (String.length e)
  | [] => ""
  end.
Proof.
  induction env as [|e env IH]; [reflexivity|].
  cbn. fold (isFor key e). destruct (isFor key e); [reflexivity|exact IH].
Qed.

(** What [replaceFirst] does: the first entry with the prefix is replaced in
    place, and nothing is found when no entry has it. *)
Lemma replaceFirst_cases (prefix entry : string) (env : list string) :
  match replaceFirst prefix entry env with
  | Some env' =>
      exists l1 e l2,
        env = l1 ++ e :: l2 /\ HasPrefix e prefix = true /\
        List.filter (fun x => HasPrefix x prefix) l1 = [] /\
        env' = l1 ++ entry :: l2
  | None => List.filter (fun x => HasPrefix x prefix) env = []
  end.
Proof.
  induction env as [|e env IH]; [reflexivity|].
  cbn. destruct (HasPrefix e prefix) eqn:He.
  - exists [], e, env. repeat split; assumption.
  - destruct (replaceFirst prefix entry env) as [env'|].
    + destruct IH as (l1 & e0 & l2 & -> & He0 & Hl1 & ->).
      exists (e :: l1), e0, l2. repeat split; [assumption|].
      cbn. rewrite He. exact Hl1.
    + exact IH.
Qed.

Lemma setenv_entry (env : list string) (name value : string) :
  isName name = true ->
  setenv env (name +:+ "=" +:+ value) =
  Some (match replaceFirst (name +:+ "=") (name +:+ "=" +:+ value) env with
        | Some env' => env'
        | None => env ++ [name +:+ "=" +:+ value]
        end).
Proof.
  intros Hname. unfold setenv. rewrite (Index_entry _ _ Hname).
  unfold slice. rewrite Nat.sub_0_r.
  replace (String.length name + 1)%nat with (String.length (name +:+ "="))
    by (rewrite length_app; reflexivity).
  rewrite <- (app_assoc_string name "=" value) at 1.
  rewrite substring_app_l.
  destruct (replaceFirst _ _ env); reflexivity.
Qed.

Lemma filter_nil_app {A} (f : A -> bool) (l1 l2 : list A) :
  List.filter f l1 = [] -> List.filter f (l1 ++ l2) = List.filter f l2.
Proof. intros H. rewrite List.filter_app, H. reflexivity. Qed.

(** [setenv] of a well-formed entry never panics; afterwards the variable
    reads as the new value, it has as many entries as before (one if it had
    none), and the entries of every other variable are as they were. *)
Lemma setenv_spec (env : list string) (name value : string) :
  isName name = true ->
  exists env',
    setenv env (name +:+ "=" +:+ value) = Some env' /\
    Getenv env' name = value /\
    length (entriesFor name env') = Nat.max 1 (length (entriesFor name env)) /\
    forall key, apart name key = true -> entriesFor key env' = entriesFor key env.
Proof.
  intros Hname. rewrite (setenv_entry _ _ _ Hname).
  pose proof (replaceFirst_cases (name +:+ "=") (name +:+ "=" +:+ value) env) as Hc.
  pose proof (isFor_entry name value) as Hentry.
  destruct (replaceFirst _ _ env) as [env'|].
  - destruct Hc as (l1 & e & l2 & -> & He & Hl1 & ->).
    exists (l1 ++ (name +:+ "=" +:+ value) :: l2). split; [reflexivity|].
    split; [|split].
    + rewrite Getenv_entries. unfold entriesFor, isFor.
      rewrite (filter_nil_app _ _ _ Hl1). cbn.
      fold (isFor name (name +:+ "=" +:+ value)). rewrite Hentry.
      apply slice_value.
    + unfold entriesFor, isFor.
      rewrite !(filter_nil_app _ _ _ Hl1). cbn.
      fold (isFor name (name +:+ "=" +:+ value)). rewrite Hentry, He.
      cbn. reflexivity.
    + intros key Hap. unfold entriesFor.
      rewrite !List.filter_app. cbn.
      rewrite (apart_isFor _ _ _ Hap Hentry), (apart_isFor name key e Hap He).
      reflexivity.
  - exists (env ++ [name +:+ "=" +:+ value]). split; [reflexivity|].
    split; [|split].
    + rewrite Getenv_entries. unfold entriesFor, isFor.
      rewrite (filter_nil_app _ _ _ Hc). cbn.
      fold (isFor name (name +:+ "=" +:+ value)). rewrite Hentry.
      apply slice_value.
    + unfold entriesFor, isFor.
      rewrite (filter_nil_app _ _ _ Hc), Hc. cbn.
      fold (isFor name (name +:+ "=" +:+ value)). rewrite Hentry. reflexivity.
    + intros key Hap. unfold entriesFor.
      rewrite List.filter_app. cbn.
      rewrite (apart_isFor _ _ _ Hap Hentry). apply app_nil_r.
Qed.

Lemma Getenv_ext (env1 env2 : list string) (key : string) :
  entriesFor key env1 = entriesFor key env2 -> Getenv env1 key = Getenv env2 key.
Proof. intros H. rewrite !Getenv_entries, H. reflexivity. Qed.

(** ** The build environment *)

Lemma compile_unfold w dir binaryName mainCode crossCompile s env :
  buildEnv w dir crossCompile = Some env ->
  compile w dir binaryName mainCode crossCompile s =
  let mainDir := Join (Path dir) ["src"; "_main"; binaryName] in
  let s1 := call (MkdirAll mainDir) s in
  match mkdirAll w mainDir with
  | Some e => Some (Some e, s1)
  | None =>
      match writeFile w (Join mainDir ["main.go"]) with
      | Some e => Some (Some e, s1)
      | None =>
          let s2 := child (execOut w env (buildArgv dir binaryName))
                      (execErr w env (buildArgv dir binaryName))
                      (call (Exec env (buildArgv dir binaryName))
                         (put_file (Join mainDir ["main.go"]) mainCode s1)) in
          match exec w env (buildArgv dir binaryName) with
          | Some e => Some (Some ("failed to build" +:+ ": " +:+ e), s2)
          | None => Some (None, s2)
          end
      end
  end.
Proof.
  intros Henv. unfold compile, runCommand. rewrite Henv. cbn [mbind option_bind].
  destruct (mkdirAll w _); [reflexivity|].
  destruct (writeFile w _); [reflexivity|].
  unfold buildArgv. destruct (exec w env _); reflexivity.
Qed.

Lemma buildEnv_spec (w : World) (dir : Dir) (crossCompile : bool) :
  exists env,
    buildEnv w dir crossCompile = Some env
    /\ Getenv env "GOPATH"
       = render (Path dir) +:+ ":" +:+ Getenv (environ w) "GOPATH"
    /\ (crossCompile = true ->
          Getenv env "CGOENABLED" = "false"
          /\ Getenv env "GOARCH" = "amd64"
          /\ Getenv env "GOOS" = "linux")
    /\ Forall (fun name =>
         length (entriesFor name env)
         = Nat.max 1 (length (entriesFor name (environ w)))) (written crossCompile)
    /\ (forall key,
          forallb (fun name => apart name key) (written crossCompile) = true ->
          entriesFor key env = entriesFor key (environ w)).
Proof.
  unfold buildEnv.
  set (gopath := render (Path dir) +:+ ":" +:+ Getenv (environ w) "GOPATH").
  destruct (setenv_spec (environ w) "GOPATH" gopath eq_refl)
    as (e1 & H1 & G1 & C1 & O1).
  change ("GOPATH" +:+ "=" +:+ gopath) with ("GOPATH=" +:+ gopath) in H1.
  rewrite H1. cbn [mbind option_bind].
  destruct crossCompile.
  - destruct (setenv_spec e1 "CGOENABLED" "false" eq_refl)
      as (e2 & H2 & G2 & C2 & O2).
    destruct (setenv_spec e2 "GOARCH" "amd64" eq_refl)
      as (e3 & H3 & G3 & C3 & O3).
    destruct (setenv_spec e3 "GOOS" "linux" eq_refl)
      as (e4 & H4 & G4 & C4 & O4).
    change ("CGOENABLED" +:+ "=" +:+ "false") with "CGOENABLED=false" in H2.
    change ("GOARCH" +:+ "=" +:+ "amd64") with "GOARCH=amd64" in H3.
    change ("GOOS" +:+ "=" +:+ "linux") with "GOOS=linux" in H4.
    rewrite H2. cbn [mbind option_bind]. rewrite H3. cbn [mbind option_bind].
    exists e4. split; [exact H4|].
    assert (P4 : entriesFor "GOPATH" e4 = entriesFor "GOPATH" e1).
    { rewrite (O4 "GOPATH" eq_refl), (O3 "GOPATH" eq_refl), (O2 "GOPATH" eq_refl).
      reflexivity. }
    assert (E4 : entriesFor "CGOENABLED" e4 = entriesFor "CGOENABLED" e2).
    { rewrite (O4 "CGOENABLED" eq_refl), (O3 "CGOENABLED" eq_refl). reflexivity. }
    assert (A4 : entriesFor "GOARCH" e4 = entriesFor "GOARCH" e3).
    { rewrite (O4 "GOARCH" eq_refl). reflexivity. }
    split; [rewrite (Getenv_ext _ _ _ P4); exact G1|].
    split.
    { intros _. rewrite (Getenv_ext _ _ _ E4), (Getenv_ext _ _ _ A4). auto. }
    split.
    { unfold written.
      apply List.Forall_cons; [|apply List.Forall_cons; [|apply List.Forall_cons;
        [|apply List.Forall_cons; [|apply List.Forall_nil]]]].
      - rewrite P4. exact C1.
      - rewrite E4, C2, (O1 "CGOENABLED" eq_refl). reflexivity.
      - rewrite A4, C3, (O2 "GOARCH" eq_refl), (O1 "GOARCH" eq_refl). reflexivity.
      - rewrite C4, (O3 "GOOS" eq_refl), (O2 "GOOS" eq_refl), (O1 "GOOS" eq_refl).
        reflexivity. }
    intros key Hkey. cbn in Hkey.
    apply andb_prop in Hkey as [K1 Hkey]. apply andb_prop in Hkey as [K2 Hkey].
    apply andb_prop in Hkey as [K3 Hkey]. apply andb_prop in Hkey as [K4 _].
    rewrite (O4 key K4), (O3 key K3), (O2 key K2), (O1 key K1). reflexivity.
  - exists e1. split; [reflexivity|]. split; [exact G1|].
    split; [discriminate|]. split.
    { unfold written. apply List.Forall_cons; [exact C1|apply List.Forall_nil]. }
    intros key Hkey. cbn in Hkey. apply andb_prop in Hkey as [K1 _].
    exact (O1 key K1).
Qed.

Lemma buildEnv_total (w : World) (dir : Dir) (crossCompile : bool) :
  exists env, buildEnv w dir crossCompile = Some env.
Proof. destruct (buildEnv_spec w dir crossCompile) as (env & H & _). eauto. Qed.

(** [testCharm] does not build: it starts the tests in an environment to
    which its [GOPATH] entry is appended, after the inherited ones. *)
Lemma testCharm_environment w dir s pkgs :
  packagesInDir w (Path dir) = inr pkgs ->
  calls (testCharm w dir s).2 =
  calls s ++
    [Exec (environ w ++
             ["GOPATH=" +:+ render (Path dir) +:+ ":"
              +:+ Getenv (environ w) "GOPATH" +:+ ":%!s(MISSING)"])
          ["go"; "test"; "./..."]].
Proof.
  intros Hp. unfold testCharm, run, runCommand, Wrap. rewrite Hp.
  destruct (exec w _ _); reflexivity.
Qed.

(** C7. The claim describes what the code sets out to do, and the code
    misses it in two places.  On [cgoWorld], whose environment has
    [CGO_ENABLED=1], the build of [wordpress] starts the compiler once, with
    [GOPATH] overwritten in place by the charm directory followed by the
    inherited value, and with [GOARCH=amd64] and [GOOS=linux]; but the entry
    written to switch the native interop off is [CGOENABLED=false], a variable
    the Go tools do not read, and [CGO_ENABLED=1] is still in force.  And the
    tests of the same charm are started in the inherited environment with a
    second [GOPATH] entry appended after the inherited one, which is not
    overridden, and the new entry ends in the [%!s(MISSING)] of a format with
    one verb too many. *)
Theorem build_environment_divergence :
  match compile cgoWorld (sampleDir wordpress) "runhook" hookMainCode true
          sampleState,
        testCharm cgoWorld (sampleDir wordpress) sampleState
  with
  | Some (None, sc), (None, st) =>
      calls sc =
        [MkdirAll (Join wordpress ["src"; "_main"; "runhook"]);
         Exec ["HOME=/root"; "CGO_ENABLED=1";
               "GOPATH=/srv/charms/lucid/wordpress:/usr/share/go";
               "CGOENABLED=false"; "GOARCH=amd64"; "GOOS=linux"]
              ["go"; "build"; "-o"; "/srv/charms/lucid/wordpress/bin/runhook";
               "_main/runhook"]]
      /\ buildEnv cgoWorld (sampleDir wordpress) true
         = Some ["HOME=/root"; "CGO_ENABLED=1";
                 "GOPATH=/srv/charms/lucid/wordpress:/usr/share/go";
                 "CGOENABLED=false"; "GOARCH=amd64"; "GOOS=linux"]
      /\ (buildEnv cgoWorld (sampleDir wordpress) true
           ≫= fun env => Some (Getenv env "CGO_ENABLED")) = Some "1"
      /\ calls st =
         [Exec ["HOME=/root"; "CGO_ENABLED=1"; "GOPATH=/usr/share/go";
                "GOPATH=/srv/charms/lucid/wordpress:/usr/share/go:%!s(MISSING)"]
               ["go"; "test"; "./..."]]
      /\ entriesFor "GOPATH"
           ["HOME=/root"; "CGO_ENABLED=1"; "GOPATH=/usr/share/go";
            "GOPATH=/srv/charms/lucid/wordpress:/usr/share/go:%!s(MISSING)"]
         = ["GOPATH=/usr/share/go";
            "GOPATH=/srv/charms/lucid/wordpress:/usr/share/go:%!s(MISSING)"]
  | _, _ => False
  end.
Proof. vm_compute. repeat split. Qed.

(** ** What each stage does to the state *)

Lemma testCharm_effect w dir s :
  exists cs,
    calls (testCharm w dir s).2 = calls s ++ cs
    /\ forallb (fun c => negb (isRemoveAll c)) cs = true
    /\ (forall c, c ∈ cs -> exists env, c = Exec env ["go"; "test"; "./..."])
    /\ exitCode (testCharm w dir s).2 = exitCode s
    /\ (exists out, stdout (testCharm w dir s).2 = stdout s ++ (ChildOut <$> out))
    /\ (exists err, stderr (testCharm w dir s).2 = stderr s ++ (ChildErr <$> err))
    /\ revisions (testCharm w dir s).2 = revisions s
    /\ files (testCharm w dir s).2 = files s.
Proof.
  unfold testCharm. destruct (packagesInDir w (Path dir)) as [e|pkgs].
  - exists []. cbn. rewrite app_nil_r.
    split; [reflexivity|]. split; [reflexivity|].
    split; [intros c Hc; apply elem_of_nil in Hc; contradiction|].
    split; [reflexivity|].
    split; [exists []; cbn; rewrite app_nil_r; reflexivity|].
    split; [exists []; cbn; rewrite app_nil_r; reflexivity|].
    split; reflexivity.
  - unfold run, runCommand, Wrap. eexists [_].
    destruct (exec w _ _); cbn; (split; [reflexivity|]);
      (split; [reflexivity|]);
      (split; [intros c Hc; apply list_elem_of_singleton in Hc; eauto|]);
      (split; [reflexivity|]);
      (split; [eexists; reflexivity|]);
      (split; [eexists; reflexivity|]);
      split; reflexivity.
Qed.

(** [syncStubs] prints nothing, writes no revision and runs no command; it
    only adds warnings, and never changes a file that exists. *)
Lemma syncStubs_effect w hookDir names : forall s,
  let r := syncStubs w hookDir names s in
  exitCode r.2 = exitCode s
  /\ stdout r.2 = stdout s
  /\ revisions r.2 = revisions s
  /\ calls r.2 = calls s
  /\ (exists ws, stderr r.2 = stderr s ++ (Warning <$> ws))
  /\ (forall p c, files s !! p = Some c -> files r.2 !! p = Some c).
Proof.
  induction names as [|n names IH]; intros s; cbn zeta.
  - cbn. repeat split; trivial. exists []. cbn. rewrite app_nil_r. reflexivity.
  - cbn [syncStubs].
    destruct (files s !! Join hookDir [n]) as [content|] eqn:Hf.
    + destruct (decide (content = hookStub n)); [apply IH|].
      specialize (IH (warningf ("not overwriting modified hook "
                                +:+ quote (render (Join hookDir [n]))) s)).
      cbn zeta in IH. destruct IH as (H1 & H2 & H3 & H4 & (ws & H5) & H6).
      repeat split; trivial.
      exists (("not overwriting modified hook "
               +:+ quote (render (Join hookDir [n]))) :: ws).
      rewrite H5. cbn. rewrite <- app_assoc. reflexivity.
    + destruct (writeFile w (Join hookDir [n])) as [e|].
      * cbn. repeat split; trivial. exists []. cbn. rewrite app_nil_r. reflexivity.
      * specialize (IH (put_file (Join hookDir [n]) (hookStub n) s)).
        cbn zeta in IH. destruct IH as (H1 & H2 & H3 & H4 & H5 & H6).
        repeat split; trivial.
        intros p c Hp. apply H6. cbn.
        rewrite lookup_insert_ne; [exact Hp|]. intros <-. congruence.
Qed.

Lemma child_nil (s : State) : child [] [] s = s.
Proof. destruct s. unfold child. cbn. rewrite !app_nil_r. reflexivity. Qed.

Lemma compile_effect w dir binaryName mainCode crossCompile s :
  exists e s',
    compile w dir binaryName mainCode crossCompile s = Some (e, s')
    /\ exitCode s' = exitCode s
    /\ (exists out, stdout s' = stdout s ++ (ChildOut <$> out))
    /\ (exists err, stderr s' = stderr s ++ (ChildErr <$> err))
    /\ revisions s' = revisions s
    /\ (exists cs, calls s' = calls s ++ cs
                   /\ forallb (fun c => negb (isRemoveAll c)) cs = true)
    /\ (forall p c, files s !! p = Some c ->
          p <> Join (Join (Path dir) ["src"; "_main"; binaryName]) ["main.go"] ->
          files s' !! p = Some c).
Proof.
  destruct (buildEnv_total w dir crossCompile) as (env & Henv).
  rewrite (compile_unfold _ _ _ _ _ _ _ Henv). cbv zeta.
  assert (Hnil : forall (A B : Type) (f : A -> B) (l : list B),
            exists x : list A, l = l ++ (f <$> x))
    by (intros A B f l; exists []; cbn; rewrite app_nil_r; reflexivity).
  destruct (mkdirAll w _) as [e|];
    [|destruct (writeFile w _) as [e|];
      [|destruct (exec w env _) as [e|]]];
    eexists _, _; (split; [reflexivity|]); cbn;
    (split; [reflexivity|]);
    (split; [first [apply Hnil|eexists; reflexivity]|]);
    (split; [first [apply Hnil|eexists; reflexivity]|]);
    (split; [reflexivity|]);
    (split; [eexists; split;
               [try rewrite <- app_assoc; reflexivity|reflexivity]|]);
    intros p c Hp Hne; try exact Hp;
    rewrite lookup_insert_ne; auto.
Qed.

Lemma existsb_childErr (err : list string) :
  existsb isFailure (ChildErr <$> err) = false.
Proof. induction err as [|m err IH]; [reflexivity|exact IH]. Qed.

Lemma existsb_warnings (ws : list string) :
  existsb isFailure (Warning <$> ws) = false.
Proof. induction ws as [|m ws IH]; [reflexivity|exact IH]. Qed.

(** [processGoCharm] always returns.  It prints no line of its own on the
    standard output, where only its child processes write; it leaves the
    exit code and the revision files alone, adds no error to the
    diagnostics, ends with the removal of the [pkg] directory, and changes
    no existing file but the generated [main.go]. *)
Lemma processGoCharm_effect fl w dir s :
  exists doneSomething err s',
    processGoCharm fl w dir s = Some (doneSomething, err, s')
    /\ exitCode s' = exitCode s
    /\ (exists out, stdout s' = stdout s ++ (ChildOut <$> out))
    /\ revisions s' = revisions s
    /\ (exists ds, stderr s' = stderr s ++ ds /\ existsb isFailure ds = false)
    /\ (exists cs, calls s' = calls s ++ cs ++ [RemoveAll (pkgDir dir)]
                   /\ forallb (fun c => negb (isRemoveAll c)) cs = true)
    /\ (forall p c, files s !! p = Some c -> p <> mainGo dir ->
          files s' !! p = Some c)
    /\ (doneSomething = true -> err = None).
Proof.
  unfold processGoCharm, processGoCharmBody.
  destruct (test fl).
  - pose proof (testCharm_effect w dir s)
      as (cs & Hc & Hcs & _ & He & (out & Ho) & (er & Hd) & Hr & Hf).
    destruct (testCharm w dir s) as [e st]. cbn in *.
    eexists _, _, _. split; [reflexivity|]. cbn.
    rewrite He, Ho, Hd, Hr, Hf, Hc.
    split; [reflexivity|]. split; [eauto|]. split; [reflexivity|].
    split; [exists (ChildErr <$> er); split; [reflexivity|apply existsb_childErr]|].
    split; [exists cs; rewrite <- app_assoc; auto|].
    split; [auto|discriminate].
  - destruct (compile_effect w dir "runhook" hookMainCode true s)
      as (e & sc & Hcomp & He & (out & Ho) & (er & Hd) & Hr & (cs & Hc & Hcs) & Hf).
    rewrite Hcomp. cbn [mbind option_bind].
    assert (Hout : exists out0, stdout sc = stdout s ++ (ChildOut <$> out0)) by eauto.
    assert (Hnil : exists ds, stderr sc = stderr s ++ ds /\ existsb isFailure ds = false)
      by (exists (ChildErr <$> er); split; [exact Hd|apply existsb_childErr]).
    assert (Hcalls : exists cs0, calls sc ++ [RemoveAll (Join (Path dir) ["pkg"])]
                       = calls s ++ cs0 ++ [RemoveAll (pkgDir dir)]
                     /\ forallb (fun c => negb (isRemoveAll c)) cs0 = true)
      by (exists cs; rewrite Hc, <- app_assoc; auto).
    destruct e as [e|].
    { eexists _, _, _. split; [reflexivity|]. cbn.
      repeat (split; [assumption|]). first [discriminate|split; [exact Hf|discriminate]]. }
    destruct (stat w (Join (Path dir) ["bin"; "runhook"])) as [|e|isDir];
      try (eexists _, _, _; (split; [reflexivity|]); cbn;
           repeat (split; [assumption|]);
           first [discriminate|split; [exact Hf|discriminate]]).
    unfold registeredHooks.
    destruct (registered w (Path dir)) as [e|hooks].
    { eexists _, _, _. split; [reflexivity|]. cbn.
      repeat (split; [assumption|]).
      first [discriminate|split; [exact Hf|discriminate]]. }
    unfold writeHooks.
    pose proof (syncStubs_effect w (Join (Path dir) ["hooks"])
                  (hookNames (<["stop" := true]> hooks)) sc) as Hs.
    cbn zeta in Hs. destruct Hs as (S1 & S2 & S3 & S4 & (ws & S5) & S6).
    assert (Hds : forall sw, stderr sw = stderr sc ++ (Warning <$> ws) ->
              exists ds, stderr sw = stderr s ++ ds /\ existsb isFailure ds = false).
    { intros sw Hsw. exists ((ChildErr <$> er) ++ (Warning <$> ws)).
      rewrite Hsw, Hd, <- app_assoc. split; [reflexivity|].
      rewrite existsb_app, existsb_childErr, existsb_warnings. reflexivity. }
    destruct (syncStubs w _ _ sc) as [[e|] sw]; cbn in S1, S2, S3, S4, S5, S6;
      eexists _, _, _; (split; [reflexivity|]); cbn;
      rewrite S1, S2, S3, S4, He, Hr;
      (split; [reflexivity|]);
      (split; [exact Hout|]);
      (split; [reflexivity|]);
      (split; [apply Hds; exact S5|]);
      (split; [exact Hcalls|]);
      (split; [intros p c Hp Hne; apply S6, Hf; assumption|]);
      first [discriminate|reflexivity].
Qed.

(** C8. On every path through [processGoCharm] (the tests, a failed
    build, a missing binary, a failed introspection, failed stubs, success)
    the function returns, and the last thing it does is remove the [pkg]
    directory below the charm directory; it removes nothing else. *)
Theorem pkg_removed_on_every_exit (fl : Flags) (w : World) (dir : Dir) (s : State) :
  exists doneSomething err s' cs,
    processGoCharm fl w dir s = Some (doneSomething, err, s')
    /\ calls s' = calls s ++ cs ++ [RemoveAll (Join (Path dir) ["pkg"])]
    /\ forallb (fun c => negb (isRemoveAll c)) cs = true.
Proof.
  destruct (processGoCharm_effect fl w dir s)
    as (d & e & s' & H & _ & _ & _ & _ & (cs & Hc & Hcs) & _).
  exists d, e, s', cs. auto.
Qed.

(** [processGoCharm] reports that it has done something exactly when the
    three stages completed. *)
Lemma processGoCharm_done fl w dir s :
  (exists err s', processGoCharm fl w dir s = Some (true, err, s'))
  <-> pipelineCompleted fl w dir s.
Proof.
  unfold pipelineCompleted, processGoCharm, processGoCharmBody, binary,
    registeredHooks.
  split.
  - intros (err & s' & H).
    destruct (test fl).
    { destruct (testCharm w dir s). discriminate. }
    split; [reflexivity|].
    destruct (compile w dir "runhook" hookMainCode true s) as [[[e|] sc]|];
      cbn in H; try discriminate.
    destruct (stat w (Join (Path dir) ["bin"; "runhook"])) as [|e|isDir];
      try discriminate.
    destruct (registered w (Path dir)) as [e|hooks]; [discriminate|].
    destruct (writeHooks w dir (<["stop" := true]> hooks) sc) as [[e|] sw] eqn:Hw;
      [discriminate|].
    exists sc, isDir, hooks, sw. auto.
  - intros (-> & sc & isDir & hooks & sw & Hc & Hs & Hr & Hw).
    rewrite Hc. cbn. rewrite Hs, Hr, Hw. eauto.
Qed.

Lemma started_fields fl dir s :
  exitCode (started fl dir s) = exitCode s
  /\ stdout (started fl dir s) = stdout s
  /\ revisions (started fl dir s) = revisions s
  /\ files (started fl dir s) = files s
  /\ calls (started fl dir s) = calls s.
Proof. unfold started. destruct (verbose fl); repeat split. Qed.

Lemma out_nil (l : list Out) : exists out, l = l ++ (ChildOut <$> out).
Proof. exists []. cbn. rewrite app_nil_r. reflexivity. Qed.

(** One turn of the loop always returns.  When the charm is accepted and
    its pipeline completes, the revision is written (or the write fails and
    is reported) and the success line is printed; otherwise [main] prints
    nothing on the standard output and no revision changes.  In both cases
    the child processes of the turn may have written on the standard
    output. *)
Lemma processCharm_cases fl w dir s :
  exists s',
    processCharm fl w dir s = Some s' /\
    ((advancing fl w dir s /\
      exists sp,
        processGoCharm fl w dir (started fl dir s) = Some (true, None, sp)
        /\ (exists out, stdout sp = stdout s ++ (ChildOut <$> out))
        /\ revisions sp = revisions s
        /\ exitCode sp = exitCode s
        /\ s' = print (successLine (bumped dir))
                  match writeRevision w (Path dir) with
                  | None => set_revision (Path dir) (int_add (Revision dir) 1) sp
                  | Some e =>
                      errorf ("cannot bump revision on "
                              +:+ quote (render (Path dir)) +:+ ": " +:+ e) sp
                  end)
     \/ (~ advancing fl w dir s
         /\ (exists out, stdout s' = stdout s ++ (ChildOut <$> out))
         /\ revisions s' = revisions s)).
Proof.
  unfold processCharm, advancing, accepted.
  destruct (isGoCharm w dir) as [[|] [e|]].
  - eexists. split; [reflexivity|]. right.
    split; [intros [H _]; discriminate|]. split; [apply out_nil|reflexivity].
  - fold (started fl dir s).
    destruct (processGoCharm_effect fl w dir (started fl dir s))
      as (d & err & sp & H & He & (out & Ho) & Hr & _ & _ & _ & Hdone).
    destruct (started_fields fl dir s) as (_ & Fo & Fr & _ & _).
    rewrite Fo in Ho.
    rewrite H. cbn [mbind option_bind].
    destruct err as [e|].
    + eexists. split; [reflexivity|]. right. split.
      * intros [_ Hp]. apply processGoCharm_done in Hp as (err' & s'' & Hp).
        rewrite H in Hp. injection Hp as Hd _ _.
        specialize (Hdone Hd). discriminate.
      * cbn. rewrite Hr. split; [exists out; exact Ho|auto].
    + destruct d.
      * exists (print (successLine (bumped dir))
                  match writeRevision w (Path dir) with
                  | None => set_revision (Path dir) (int_add (Revision dir) 1) sp
                  | Some e =>
                      errorf ("cannot bump revision on "
                              +:+ quote (render (Path dir)) +:+ ": " +:+ e) sp
                  end).
        split.
        { unfold SetDiskRevision. destruct (writeRevision w (Path dir)); reflexivity. }
        left. split.
        { split; [reflexivity|]. apply processGoCharm_done. eauto. }
        destruct (started_fields fl dir s) as (Fe & _).
        exists sp. rewrite Hr, He.
        split; [reflexivity|]. split; [exists out; exact Ho|auto].
      * eexists. split; [reflexivity|]. right. split.
        { intros [_ Hp]. apply processGoCharm_done in Hp as (err' & s'' & Hp).
          rewrite H in Hp. discriminate. }
        rewrite Hr. split; [exists out; exact Ho|auto].
  - eexists. split; [reflexivity|]. right.
    split; [intros [H _]; discriminate|]. split; [apply out_nil|reflexivity].
  - eexists. split; [reflexivity|]. right.
    split; [intros [H _]; discriminate|].
    destruct (verbose fl); (split; [apply out_nil|reflexivity]).
Qed.

(** ** The loop over the charms *)

Lemma processAll_app fl w ds1 ds2 s :
  processAll fl w (ds1 ++ ds2) s
  = processAll fl w ds1 s ≫= processAll fl w ds2.
Proof.
  revert s. induction ds1 as [|d ds1 IH]; intros s; [reflexivity|].
  cbn. destruct (processCharm fl w d s) as [s1|]; [apply IH|reflexivity].
Qed.

Lemma processAll_total fl w ds : forall s,
  exists s', processAll fl w ds s = Some s'.
Proof.
  induction ds as [|d ds IH]; intros s; [eauto|].
  destruct (processCharm_cases fl w d s) as (s1 & H1 & _).
  cbn. rewrite H1. apply IH.
Qed.

Lemma advances_iff fl w dir s :
  advances fl w dir s = true
  <-> advancing fl w dir s /\ writeRevision w (Path dir) = None.
Proof.
  unfold advances, advancing, accepted. split.
  - destruct (isGoCharm w dir) as [[|] [e|]]; try discriminate.
    destruct (processGoCharm fl w dir (started fl dir s))
      as [[[[|] err] sp]|] eqn:Hp; try discriminate.
    destruct (writeRevision w (Path dir)); [discriminate|].
    intros _. split; [split; [reflexivity|]|reflexivity].
    apply processGoCharm_done. eauto.
  - intros [[-> Hp] ->]. apply processGoCharm_done in Hp as (err & sp & ->).
    reflexivity.
Qed.

(** The revision files after one turn. *)
Lemma processCharm_revisions fl w dir s s' :
  processCharm fl w dir s = Some s' ->
  revisions s' =
  if advances fl w dir s
  then <[Path dir := int_add (Revision dir) 1]> (revisions s)
  else revisions s.
Proof.
  intros H. destruct (processCharm_cases fl w dir s) as (s1 & H1 & Hc).
  rewrite H in H1. injection H1 as <-.
  pose proof (advances_iff fl w dir s) as Hiff.
  destruct Hc as [(Ha & sp & _ & _ & Hr & _ & ->)|(Hn & _ & Hr)].
  - destruct (writeRevision w (Path dir)) as [e|] eqn:Hw.
    + destruct (advances fl w dir s);
        [destruct (proj1 Hiff eq_refl); discriminate|exact Hr].
    + rewrite (proj2 Hiff) by auto. cbn. rewrite Hr. reflexivity.
  - destruct (advances fl w dir s); [|exact Hr].
    destruct (proj1 Hiff eq_refl). contradiction.
Qed.

Lemma processCharm_revision_other fl w dir s s' p :
  processCharm fl w dir s = Some s' -> p <> Path dir ->
  revisions s' !! p = revisions s !! p.
Proof.
  intros H Hne. rewrite (processCharm_revisions _ _ _ _ _ H).
  destruct (advances fl w dir s); [|reflexivity].
  apply lookup_insert_ne. congruence.
Qed.

Lemma processAll_revision_other fl w ds p : forall s s',
  processAll fl w ds s = Some s' -> p ∉ Path <$> ds ->
  revisions s' !! p = revisions s !! p.
Proof.
  induction ds as [|d ds IH]; intros s s' H Hp.
  - injection H as <-. reflexivity.
  - cbn in H. destruct (processCharm fl w d s) as [s1|] eqn:H1; [|discriminate].
    cbn in H. rewrite fmap_cons in Hp. apply not_elem_of_cons in Hp as [Hne Hp].
    rewrite (IH _ _ H Hp). eapply processCharm_revision_other; eassumption.
Qed.

Lemma int_add_1 (n : Z) : int_min <= n < int_max -> int_add n 1 = n + 1.
Proof.
  unfold int_add, wrap, int_min, int_max. intros Hn.
  rewrite Z.mod_small by lia. lia.
Qed.

Lemma int_add_max : int_add int_max 1 = int_min.
Proof. reflexivity. Qed.

(** The revision of a charm after the whole loop, when no other charm has
    its path. *)
Lemma processAll_revision fl w ds1 dir ds2 s0 :
  NoDup (Path <$> ds1 ++ dir :: ds2) ->
  exists s1 sf,
    processAll fl w ds1 s0 = Some s1
    /\ processAll fl w (ds1 ++ dir :: ds2) s0 = Some sf
    /\ revisions sf !! Path dir =
       if advances fl w dir s1
       then Some (int_add (Revision dir) 1)
       else revisions s0 !! Path dir.
Proof.
  intros Hnd. rewrite fmap_app, fmap_cons in Hnd.
  apply NoDup_app in Hnd as (_ & Hdisj & Hnd2).
  apply NoDup_cons in Hnd2 as [Hnotin2 _].
  assert (Hnotin1 : Path dir ∉ Path <$> ds1).
  { intros Hin. apply (Hdisj _ Hin). left. }
  destruct (processAll_total fl w ds1 s0) as (s1 & H1).
  destruct (processCharm_cases fl w dir s1) as (s2 & H2 & _).
  destruct (processAll_total fl w ds2 s2) as (sf & Hf).
  exists s1, sf. split; [exact H1|]. split.
  { rewrite processAll_app, H1. cbn. rewrite H2. exact Hf. }
  rewrite (processAll_revision_other _ _ _ _ _ _ Hf Hnotin2).
  rewrite (processCharm_revisions _ _ _ _ _ H2).
  destruct (advances fl w dir s1).
  - apply lookup_insert_eq.
  - apply (processAll_revision_other _ _ _ _ _ _ H1 Hnotin1).
Qed.

(** ** The revision *)

(** The revision of a charm after the loop: take a charm whose path no other
    charm of the loop has, whose revision in memory is the one on disk and
    is below the largest [int]. *)
Lemma processAll_revision_iff (fl : Flags) (w : World) (ds1 : list Dir)
    (dir : Dir) (ds2 : list Dir) (s0 : State) :
  NoDup (Path <$> ds1 ++ dir :: ds2) ->
  diskRevision s0 (Path dir) = Revision dir ->
  int_min <= Revision dir < int_max ->
  exists s1 sf,
    processAll fl w ds1 s0 = Some s1
    /\ processAll fl w (ds1 ++ dir :: ds2) s0 = Some sf
    /\ (diskRevision sf (Path dir) = Revision dir + 1
        <-> advancing fl w dir s1 /\ writeRevision w (Path dir) = None)
    /\ (~ (advancing fl w dir s1 /\ writeRevision w (Path dir) = None)
        -> diskRevision sf (Path dir) = Revision dir).
Proof.
  intros Hnd Hdisk Hrange.
  destruct (processAll_revision fl w ds1 dir ds2 s0 Hnd) as (s1 & sf & H1 & Hf & Hr).
  exists s1, sf. split; [exact H1|]. split; [exact Hf|].
  pose proof (advances_iff fl w dir s1) as Hiff.
  unfold diskRevision in *.
  destruct (advances fl w dir s1).
  - rewrite Hr. cbn. rewrite int_add_1 by exact Hrange.
    split; [tauto|]. intros Hn. destruct Hn. apply Hiff. reflexivity.
  - rewrite Hr, Hdisk. split; [|auto].
    split; [lia|]. intros Ha. apply Hiff in Ha. discriminate.
Qed.

(** C1 as stated fails on [readOnlyWorld].  The pipeline of [wordpress]
    completes, but its revision file cannot be written and the revision on
    disk stays 5; the pipeline of [mysql] completes from the state in which
    the loop reaches it, but its revision is the largest [int] and the
    revision on disk becomes the smallest one. *)
Lemma revision_not_advanced_by_one :
  match processGoCharm sampleFlags readOnlyWorld (sampleDir wordpress) sampleState,
        processAll sampleFlags readOnlyWorld [sampleDir wordpress] sampleState
          ≫= processGoCharm sampleFlags readOnlyWorld (sampleDir mysql),
        main sampleFlags readOnlyWorld sampleState
  with
  | Some (true, None, _), Some (true, None, _), Some (code, sf) =>
      code = 1
      /\ writeRevision readOnlyWorld wordpress = Some "read-only file system"
      /\ diskRevision sampleState wordpress = 5
      /\ diskRevision sf wordpress = 5
      /\ diskRevision sampleState mysql = int_max
      /\ diskRevision sf mysql = int_min
  | _, _, _ => False
  end.
Proof. vm_compute. repeat split. Qed.

(** ** Classification *)

Lemma isGoCharm_cases w dir :
  isGoCharm w dir =
  match stat w (Join (Path dir) ["src"; "runhook"]) with
  | StatNotExist => (false, None)
  | StatError e => (false, Some e)
  | StatInfo isDir => (isDir, None)
  end.
Proof.
  unfold isGoCharm. destruct (stat w _) as [|e|[|]]; reflexivity.
Qed.

(** C4. A charm whose [src/runhook] does not exist, or is not a
    directory, is skipped: the turn of the loop returns, runs no command
    (so it builds nothing), writes no file (so no stub), leaves the revision
    files, the standard output and the exit code as they were, and writes
    nothing on the diagnostic stream unless [-v] is given, when the only line
    is the log line that the charm is ignored. *)
Theorem non_go_charm_skipped (fl : Flags) (w : World) (dir : Dir) (s : State) :
  stat w (Join (Path dir) ["src"; "runhook"]) = StatNotExist
  \/ stat w (Join (Path dir) ["src"; "runhook"]) = StatInfo false ->
  exists s',
    processCharm fl w dir s = Some s'
    /\ calls s' = calls s
    /\ files s' = files s
    /\ revisions s' = revisions s
    /\ stdout s' = stdout s
    /\ exitCode s' = exitCode s
    /\ stderr s' = stderr s ++
         (if verbose fl
          then [Log ("ignoring non-Go charm " +:+ render (Path dir))] else []).
Proof.
  intros Hstat. unfold processCharm. rewrite isGoCharm_cases.
  destruct Hstat as [-> | ->]; destruct (verbose fl); eexists;
    (split; [reflexivity|]); cbn; rewrite ?app_nil_r; repeat split.
Qed.

Lemma non_go_charm_skipped_witness :
  (stat sampleWorld (Join (Path (sampleDir mysql)) ["src"; "runhook"]) = StatNotExist
   \/ stat sampleWorld (Join (Path (sampleDir mysql)) ["src"; "runhook"])
      = StatInfo false)
  /\ exists s',
       processCharm sampleFlags sampleWorld (sampleDir mysql) sampleState = Some s'
       /\ calls s' = calls sampleState
       /\ files s' = files sampleState
       /\ revisions s' = revisions sampleState
       /\ stdout s' = stdout sampleState
       /\ exitCode s' = exitCode sampleState
       /\ stderr s' = stderr sampleState ++
            (if verbose sampleFlags
             then [Log ("ignoring non-Go charm "
                        +:+ render (Path (sampleDir mysql)))] else []).
Proof.
  assert (H : stat sampleWorld (Join (Path (sampleDir mysql)) ["src"; "runhook"])
              = StatNotExist
              \/ stat sampleWorld (Join (Path (sampleDir mysql)) ["src"; "runhook"])
                 = StatInfo false)
    by (left; vm_compute; reflexivity).
  split; [exact H|].
  exact (non_go_charm_skipped sampleFlags sampleWorld (sampleDir mysql)
           sampleState H).
Defined.

(** C6 (amended).  A charm whose classification fails with an error other
    than "does not exist" is skipped: the turn of the loop returns, runs no
    command, writes no file and no revision, prints nothing on the standard
    output, and writes one warning on the diagnostic stream; the loop goes on
    with the next charm; and the exit code is left as it was. *)
Theorem classification_error_skipped (fl : Flags) (w : World) (dir : Dir)
    (rest : list Dir) (s : State) (e : string) :
  stat w (Join (Path dir) ["src"; "runhook"]) = StatError e ->
  exists s',
    processCharm fl w dir s = Some s'
    /\ calls s' = calls s
    /\ files s' = files s
    /\ revisions s' = revisions s
    /\ stdout s' = stdout s
    /\ stderr s' = stderr s ++
         [Warning ("cannot determine if " +:+ quote (render (Path dir))
                   +:+ " is a Go charm: " +:+ e)]
    /\ exitCode s' = exitCode s
    /\ processAll fl w (dir :: rest) s = processAll fl w rest s'.
Proof.
  intros Hstat. unfold processAll at 1. unfold processCharm.
  rewrite isGoCharm_cases, Hstat.
  eexists. split; [reflexivity|]. cbn. repeat split.
Qed.

Lemma classification_error_skipped_witness :
  stat sampleWorld (Join (Path (sampleDir haproxy)) ["src"; "runhook"])
  = StatError "permission denied"
  /\ exists s',
       processCharm sampleFlags sampleWorld (sampleDir haproxy) sampleState
       = Some s'
       /\ stdout s' = stdout sampleState
       /\ exitCode s' = exitCode sampleState.
Proof.
  assert (H : stat sampleWorld (Join (Path (sampleDir haproxy)) ["src"; "runhook"])
              = StatError "permission denied") by (vm_compute; reflexivity).
  split; [exact H|].
  destruct (classification_error_skipped sampleFlags sampleWorld
              (sampleDir haproxy) [] sampleState _ H)
    as (s' & Hp & _ & _ & _ & Ho & _ & He & _).
  exists s'. auto.
Defined.

(** C6 as stated fails on [sampleWorld]: the classification of [haproxy]
    fails with "permission denied", and the process exits with status 0, the
    status of a run in which no charm failed. *)
Lemma classification_error_exit_zero :
  match stat sampleWorld (Join haproxy ["src"; "runhook"]),
        main sampleFlags sampleWorld sampleState
  with
  | StatError e, Some (code, sf) =>
      e = "permission denied"
      /\ code = 0
      /\ stderr sf =
         [conflictWarning (sampleDir wordpress) "stop";
          Warning ("cannot determine if " +:+ quote (render haproxy)
                   +:+ " is a Go charm: permission denied")]
  | _, _ => False
  end.
Proof. vm_compute. repeat split. Qed.

(** ** Fatal configuration errors *)

(** [Glob] finds the metadata files exactly two directories below the root. *)
Lemma globMatch_iff (root : string) (p : path) :
  globMatch [root] p = true
  <-> exists series name, p = [root; series; name; "metadata.yaml"].
Proof.
  unfold globMatch. split.
  - destruct p as [|x [|a [|b [|f [|g p]]]]]; cbn; try discriminate;
      case_decide; try discriminate.
    subst x. intros H. apply String.eqb_eq in H as ->. eauto.
  - intros (a & b & ->). cbn.
    destruct (decide (root = root)); [|congruence]. reflexivity.
Qed.

Lemma elem_of_Glob (w : World) (root : path) (p : path) :
  p ∈ Glob w root <-> p ∈ listing w /\ globMatch root p = true.
Proof.
  unfold Glob. rewrite merge_sort_Permutation, list_elem_of_In, List.filter_In,
    <- list_elem_of_In. reflexivity.
Qed.

Lemma Glob_nil_iff (w : World) (root : string) :
  Glob w [root] = []
  <-> forall series name, [root; series; name; "metadata.yaml"] ∉ listing w.
Proof.
  split.
  - intros Hnil a b Hin.
    assert (Hg : [root; a; b; "metadata.yaml"] ∈ Glob w [root]).
    { apply elem_of_Glob. split; [exact Hin|]. apply globMatch_iff. eauto. }
    rewrite Hnil in Hg. apply elem_of_nil in Hg. exact Hg.
  - intros Hnone.
    destruct (Glob w [root]) as [|p l] eqn:Hf; [reflexivity|].
    assert (Hin : p ∈ Glob w [root]) by (rewrite Hf; left).
    apply elem_of_Glob in Hin as [Hin Hm].
    apply globMatch_iff in Hm as (a & b & ->).
    destruct (Hnone a b Hin).
Qed.

Lemma readDirs_exitCode w paths : forall dirs s,
  exitCode (readDirs w paths dirs s).2 = exitCode s
  \/ exitCode (readDirs w paths dirs s).2 = 1.
Proof.
  induction paths as [|p paths IH]; intros dirs s; [left; reflexivity|].
  cbn. destruct (ReadDir w s (filepath_Dir p)) as [e|dir]; [|apply IH].
  destruct (IH dirs (errorf ("cannot read " +:+ quote (render (filepath_Dir p))
                             +:+ ": " +:+ e) s)) as [H|H]; right; [|exact H].
  rewrite H. reflexivity.
Qed.

Lemma processCharm_exitCode fl w dir s s' :
  processCharm fl w dir s = Some s' ->
  exitCode s' = exitCode s \/ exitCode s' = 1.
Proof.
  intros H. destruct (processCharm_cases fl w dir s) as (s1 & H1 & _).
  revert H. unfold processCharm.
  destruct (isGoCharm w dir) as [[|] [e|]].
  - intros [= <-]. left. reflexivity.
  - fold (started fl dir s).
    destruct (processGoCharm_effect fl w dir (started fl dir s))
      as (d & err & sp & Hp & He & _).
    destruct (started_fields fl dir s) as (Fe & _).
    rewrite Hp. cbn [mbind option_bind].
    destruct err as [e|]; [intros [= <-]; right; reflexivity|].
    destruct d; [|intros [= <-]; left; congruence].
    unfold SetDiskRevision. destruct (writeRevision w (Path dir));
      intros [= <-]; [right; reflexivity|left; cbn; congruence].
  - intros [= <-]. left. reflexivity.
  - intros [= <-]. left. destruct (verbose fl); reflexivity.
Qed.

Lemma processAll_exitCode fl w ds : forall s s',
  processAll fl w ds s = Some s' ->
  exitCode s' = exitCode s \/ exitCode s' = 1.
Proof.
  induction ds as [|d ds IH]; intros s s' H.
  - injection H as <-. left. reflexivity.
  - cbn in H. destruct (processCharm fl w d s) as [s1|] eqn:H1; [|discriminate].
    cbn in H. destruct (IH _ _ H) as [E|E]; [|right; exact E].
    rewrite E. eapply processCharm_exitCode. exact H1.
Qed.

(** [main] when the configuration is sound: the two loops, then the exit
    with the exit code. *)
Lemma main_run fl w s :
  resolvedRepo fl w <> "" -> Glob w [resolvedRepo fl w] <> [] ->
  main fl w s =
  (let '(dirs, s1) := readDirs w (Glob w [resolvedRepo fl w]) [] s in
   s2 ← processAll fl w dirs s1; Some (exitCode s2, s2)).
Proof.
  intros Hrepo Hglob. unfold main. fold (resolvedRepo fl w).
  destruct (String.eqb_spec (resolvedRepo fl w) ""); [contradiction|].
  destruct (Glob w [resolvedRepo fl w]); [contradiction|]. reflexivity.
Qed.

(** C5. When no repository root can be resolved, or no [metadata.yaml]
    lies exactly two directories below the root, [main] exits at once with
    status 2: nothing is on the standard output, the only diagnostic is the
    fatal error, no command has run and no file or revision has changed.
    Every other run exits with status 0 or 1, so status 2 is used for nothing
    else. *)
Theorem fatal_configuration (fl : Flags) (w : World)
    (revs : gmap (list string) Z) (fs : gmap (list string) string) :
  (resolvedRepo fl w = ""
   \/ (forall series name,
         [resolvedRepo fl w; series; name; "metadata.yaml"] ∉ listing w) ->
   exists msg sf,
     main fl w (initial revs fs) = Some (2, sf)
     /\ stdout sf = [] /\ stderr sf = [Failure msg] /\ calls sf = []
     /\ files sf = fs /\ revisions sf = revs)
  /\ (resolvedRepo fl w <> "" ->
      (exists series name,
         [resolvedRepo fl w; series; name; "metadata.yaml"] ∈ listing w) ->
      exists code sf,
        main fl w (initial revs fs) = Some (code, sf)
        /\ code = exitCode sf /\ (code = 0 \/ code = 1)).
Proof.
  split.
  - intros Hfatal. unfold main. fold (resolvedRepo fl w).
    destruct (String.eqb_spec (resolvedRepo fl w) "") as [Hr|Hr].
    { eexists _, _. split; [reflexivity|]. repeat split. }
    destruct Hfatal as [?|Hnone]; [contradiction|].
    apply Glob_nil_iff in Hnone. rewrite Hnone.
    eexists _, _. split; [reflexivity|]. repeat split.
  - intros Hrepo (a & b & Hin).
    assert (Hglob : Glob w [resolvedRepo fl w] <> []).
    { intros Hnil. eapply Glob_nil_iff in Hnil. exact (Hnil Hin). }
    rewrite (main_run _ _ _ Hrepo Hglob).
    pose proof (readDirs_exitCode w (Glob w [resolvedRepo fl w]) [] (initial revs fs))
      as Hread.
    destruct (readDirs w _ [] (initial revs fs)) as [dirs s1]. cbn in Hread.
    destruct (processAll_total fl w dirs s1) as (s2 & H2).
    rewrite H2. exists (exitCode s2), s2. split; [reflexivity|].
    split; [reflexivity|].
    destruct (processAll_exitCode _ _ _ _ _ H2) as [E|E]; [|auto].
    rewrite E. exact Hread.
Qed.

Lemma fatal_configuration_witness :
  (resolvedRepo (mkFlags "" false false) sampleWorld = ""
   \/ (forall series name,
         [resolvedRepo (mkFlags "" false false) sampleWorld; series; name;
          "metadata.yaml"] ∉ listing sampleWorld))
  /\ exists msg sf,
       main (mkFlags "" false false) sampleWorld
         (initial sampleRevisions sampleFiles) = Some (2, sf)
       /\ stdout sf = [] /\ stderr sf = [Failure msg] /\ calls sf = []
       /\ files sf = sampleFiles /\ revisions sf = sampleRevisions.
Proof.
  assert (H : resolvedRepo (mkFlags "" false false) sampleWorld = ""
              \/ (forall series name,
                    [resolvedRepo (mkFlags "" false false) sampleWorld; series;
                     name; "metadata.yaml"] ∉ listing sampleWorld))
    by (left; reflexivity).
  split; [exact H|].
  exact (proj1 (fatal_configuration (mkFlags "" false false) sampleWorld
                  sampleRevisions sampleFiles) H).
Defined.

(** ** The stubs *)

Lemma stubPath_inj dir n1 n2 : stubPath dir n1 = stubPath dir n2 -> n1 = n2.
Proof.
  unfold stubPath, Join. intros H. apply app_inv_head in H. congruence.
Qed.

Lemma stubPath_not_mainGo dir n : stubPath dir n <> mainGo dir.
Proof.
  unfold stubPath, mainGo, Join. rewrite <- !app_assoc. intros H.
  apply app_inv_head in H. discriminate.
Qed.

(** The names of a hook set are its keys. *)
Lemma elem_of_hookNames (hooks : gmap string bool) (name : string) :
  name ∈ hookNames hooks <-> is_Some (hooks !! name).
Proof.
  unfold hookNames. rewrite merge_sort_Permutation.
  rewrite list_elem_of_fmap. split.
  - intros ([k v] & -> & Hin). apply elem_of_map_to_list in Hin. eauto.
  - intros [v Hv]. exists (name, v). split; [reflexivity|].
    apply elem_of_map_to_list. exact Hv.
Qed.

(** [syncStubs] fails only when a write fails. *)
Lemma syncStubs_ok w hookDir names : forall s,
  (forall n, n ∈ names -> writeFile w (Join hookDir [n]) = None) ->
  (syncStubs w hookDir names s).1 = None.
Proof.
  induction names as [|n names IH]; intros s Hw; [reflexivity|].
  cbn [syncStubs].
  assert (Hrest : forall n', n' ∈ names -> writeFile w (Join hookDir [n']) = None)
    by (intros n' Hn'; apply Hw; right; exact Hn').
  destruct (files s !! Join hookDir [n]) as [content|].
  - destruct (decide (content = hookStub n)); apply IH; exact Hrest.
  - rewrite (Hw n) by left. apply IH. exact Hrest.
Qed.

(** When [syncStubs] succeeds, a stub that exists with other content than
    the canonical one has been reported. *)
Lemma syncStubs_warns w hookDir names n content : forall s,
  (syncStubs w hookDir names s).1 = None ->
  n ∈ names ->
  files s !! Join hookDir [n] = Some content ->
  content <> hookStub n ->
  Warning ("not overwriting modified hook " +:+ quote (render (Join hookDir [n])))
    ∈ stderr (syncStubs w hookDir names s).2.
Proof.
  induction names as [|n0 names IH]; intros s Hok Hin Hfile Hne.
  - apply elem_of_nil in Hin. contradiction.
  - cbn [syncStubs] in Hok |- *.
    destruct (decide (n0 = n)) as [->|Hn0].
    + rewrite Hfile in Hok |- *.
      destruct (decide (content = hookStub n)); [contradiction|].
      pose proof (syncStubs_effect w hookDir names
        (warningf ("not overwriting modified hook "
                   +:+ quote (render (Join hookDir [n]))) s)) as He.
      cbn zeta in He. destruct He as (_ & _ & _ & _ & (ws & Hs) & _).
      rewrite Hs. cbn. apply elem_of_app. left. apply elem_of_app. right. left.
    + apply elem_of_cons in Hin as [->|Hin]; [contradiction|].
      destruct (files s !! Join hookDir [n0]) as [c0|] eqn:Hf0.
      * destruct (decide (c0 = hookStub n0)); apply IH; auto.
      * destruct (writeFile w (Join hookDir [n0])); [discriminate|].
        apply IH; auto. cbn. rewrite lookup_insert_ne; [exact Hfile|].
        unfold Join. intros H. apply app_inv_head in H. congruence.
Qed.

(** When [syncStubs] succeeds, every name has a stub. *)
Lemma syncStubs_present w hookDir names n : forall s,
  (syncStubs w hookDir names s).1 = None ->
  n ∈ names ->
  is_Some (files (syncStubs w hookDir names s).2 !! Join hookDir [n]).
Proof.
  induction names as [|n0 names IH]; intros s Hok Hin.
  - apply elem_of_nil in Hin. contradiction.
  - cbn [syncStubs] in Hok |- *.
    assert (Hkeep : forall s1 c, files s1 !! Join hookDir [n] = Some c ->
              is_Some (files (syncStubs w hookDir names s1).2 !! Join hookDir [n])).
    { intros s1 c Hc.
      pose proof (syncStubs_effect w hookDir names s1) as He. cbn zeta in He.
      destruct He as (_ & _ & _ & _ & _ & Hf). eauto. }
    apply elem_of_cons in Hin as [->|Hin].
    + destruct (files s !! Join hookDir [n0]) as [c0|] eqn:Hf0.
      * destruct (decide (c0 = hookStub n0)); [eauto|].
        eapply Hkeep. cbn. exact Hf0.
      * destruct (writeFile w (Join hookDir [n0])); [discriminate|].
        eapply Hkeep. cbn. apply lookup_insert_eq.
    + destruct (files s !! Join hookDir [n0]) as [c0|] eqn:Hf0.
      * destruct (decide (c0 = hookStub n0)); apply IH; auto.
      * destruct (writeFile w (Join hookDir [n0])); [discriminate|].
        apply IH; auto.
Qed.

(** [processGoCharm] once the binary is built and the hooks are known: the
    stubs are written for the discovered set with [stop] added, and the
    outcome is the outcome of [writeHooks]. *)
Lemma processGoCharm_writeHooks fl w dir s sc isDir hooks :
  test fl = false ->
  compile w dir "runhook" hookMainCode true s = Some (None, sc) ->
  stat w (binary dir) = StatInfo isDir ->
  registered w (Path dir) = inr hooks ->
  processGoCharm fl w dir s =
    Some (match writeHooks w dir (<["stop" := true]> hooks) sc with
          | (Some e, s') =>
              (false, Some ("cannot write hooks to charm" +:+ ": " +:+ e),
               call (RemoveAll (pkgDir dir)) s')
          | (None, s') => (true, None, call (RemoveAll (pkgDir dir)) s')
          end).
Proof.
  intros Htest Hcomp Hstat Hreg.
  unfold processGoCharm, processGoCharmBody, registeredHooks.
  rewrite Htest, Hcomp. cbn [mbind option_bind].
  unfold binary in Hstat. rewrite Hstat, Hreg.
  destruct (writeHooks w dir (<["stop" := true]> hooks) sc) as [[e|] sw];
    reflexivity.
Qed.

(** C2. Whenever [processGoCharm] gets as far as writing stubs (no test
    run, the build succeeded, the binary is there and the introspection
    returned a hook set), the set it hands to [writeHooks] is the discovered
    set with [stop] added: [stop] is in it, every other name is in it exactly
    when it was discovered, with the value it had; and when [processGoCharm]
    succeeds, [stop] and every discovered hook have a stub on disk. *)
Theorem stop_hook_always (fl : Flags) (w : World) (dir : Dir) (s sc : State)
    (isDir : bool) (hooks : gmap string bool) :
  test fl = false ->
  compile w dir "runhook" hookMainCode true s = Some (None, sc) ->
  stat w (binary dir) = StatInfo isDir ->
  registered w (Path dir) = inr hooks ->
  let stubs := <["stop" := true]> hooks in
  processGoCharm fl w dir s =
    Some (match writeHooks w dir stubs sc with
          | (Some e, s') =>
              (false, Some ("cannot write hooks to charm" +:+ ": " +:+ e),
               call (RemoveAll (pkgDir dir)) s')
          | (None, s') => (true, None, call (RemoveAll (pkgDir dir)) s')
          end)
  /\ stubs !! "stop" = Some true
  /\ (forall name, name <> "stop" -> stubs !! name = hooks !! name)
  /\ (forall name,
        name ∈ hookNames stubs <-> name = "stop" \/ name ∈ hookNames hooks)
  /\ (forall s', processGoCharm fl w dir s = Some (true, None, s') ->
        forall name, name = "stop" \/ name ∈ hookNames hooks ->
        is_Some (files s' !! stubPath dir name)).
Proof.
  intros Htest Hcomp Hstat Hreg stubs.
  pose proof (processGoCharm_writeHooks fl w dir s sc isDir hooks
                Htest Hcomp Hstat Hreg) as Hrun.
  fold stubs in Hrun.
  assert (Hnames : forall name,
            name ∈ hookNames stubs <-> name = "stop" \/ name ∈ hookNames hooks).
  { intros name. rewrite !elem_of_hookNames. unfold stubs.
    destruct (decide (name = "stop")) as [->|Hne].
    - rewrite lookup_insert_eq. split; eauto.
    - rewrite lookup_insert_ne by congruence. split; [auto|].
      intros [?|?]; [contradiction|assumption]. }
  split; [exact Hrun|].
  split; [apply lookup_insert_eq|].
  split; [intros name Hne; apply lookup_insert_ne; congruence|].
  split; [exact Hnames|].
  intros s' Hdone name Hname. rewrite Hrun in Hdone.
  unfold writeHooks in Hdone.
  pose proof (syncStubs_present w (Join (Path dir) ["hooks"]) (hookNames stubs)
                name sc) as Hp.
  destruct (syncStubs w (Join (Path dir) ["hooks"]) (hookNames stubs) sc)
    as [[e|] sw]; [discriminate|].
  injection Hdone as <-. cbn in Hp |- *.
  apply Hp; [reflexivity|]. apply Hnames. exact Hname.
Qed.

Lemma stop_hook_always_witness :
  test sampleFlags = false
  /\ stat sampleWorld (binary (sampleDir haproxy)) = StatInfo true
  /\ registered sampleWorld (Path (sampleDir haproxy))
     = inr {["config-changed" := true]}
  /\ exists sc s',
       compile sampleWorld (sampleDir haproxy) "runhook" hookMainCode true
         sampleState = Some (None, sc)
       /\ processGoCharm sampleFlags sampleWorld (sampleDir haproxy) sampleState
          = Some (true, None, s')
       /\ is_Some (files s' !! stubPath (sampleDir haproxy) "stop")
       /\ files sampleState !! stubPath (sampleDir haproxy) "stop" = None.
Proof.
  assert (Ht : test sampleFlags = false) by reflexivity.
  assert (Hs : stat sampleWorld (binary (sampleDir haproxy)) = StatInfo true)
    by (vm_compute; reflexivity).
  assert (Hr : registered sampleWorld (Path (sampleDir haproxy))
               = inr {["config-changed" := true]}) by reflexivity.
  split; [exact Ht|]. split; [exact Hs|]. split; [exact Hr|].
  destruct (compile sampleWorld (sampleDir haproxy) "runhook" hookMainCode true
              sampleState) as [[[e|] sc]|] eqn:Hc;
    [vm_compute in Hc; discriminate| |vm_compute in Hc; discriminate].
  destruct (stop_hook_always sampleFlags sampleWorld (sampleDir haproxy)
              sampleState sc true _ Ht Hc Hs Hr) as (Hrun & _ & _ & _ & Hstub).
  assert (Hok : (writeHooks sampleWorld (sampleDir haproxy)
                   (<["stop" := true]> {["config-changed" := true]}) sc).1 = None).
  { apply syncStubs_ok. reflexivity. }
  destruct (writeHooks sampleWorld (sampleDir haproxy)
              (<["stop" := true]> {["config-changed" := true]}) sc)
    as [[e|] sw]; [discriminate|].
  exists sc, (call (RemoveAll (pkgDir (sampleDir haproxy))) sw).
  split; [reflexivity|]. split; [exact Hrun|].
  split; [apply (Hstub _ Hrun); left; reflexivity|].
  vm_compute. reflexivity.
Defined.

(** One turn of the loop changes no existing file but the generated
    [main.go] of the charm. *)
Lemma processCharm_files fl w dir s s' p c :
  processCharm fl w dir s = Some s' ->
  files s !! p = Some c -> p <> mainGo dir ->
  files s' !! p = Some c.
Proof.
  unfold processCharm. intros H Hp Hne. revert H.
  destruct (isGoCharm w dir) as [[|] [e|]].
  - intros [= <-]. exact Hp.
  - fold (started fl dir s).
    destruct (processGoCharm_effect fl w dir (started fl dir s))
      as (d & err & sp & Hg & _ & _ & _ & _ & _ & Hf & _).
    destruct (started_fields fl dir s) as (_ & _ & _ & Ff & _).
    rewrite Ff in Hf. specialize (Hf p c Hp Hne).
    rewrite Hg. cbn [mbind option_bind].
    destruct err as [e|]; [intros [= <-]; exact Hf|].
    destruct d; [|intros [= <-]; exact Hf].
    unfold SetDiskRevision. destruct (writeRevision w (Path dir));
      intros [= <-]; exact Hf.
  - intros [= <-]. exact Hp.
  - intros [= <-]. destruct (verbose fl); exact Hp.
Qed.

(** The turn of the loop for a charm whose pipeline completes. *)
Lemma advancing_run fl w dir s :
  advancing fl w dir s ->
  exists sc hooks sw,
    compile w dir "runhook" hookMainCode true (started fl dir s) = Some (None, sc)
    /\ registered w (Path dir) = inr hooks
    /\ writeHooks w dir (<["stop" := true]> hooks) sc = (None, sw)
    /\ processCharm fl w dir s =
       Some (print (successLine (bumped dir))
               match writeRevision w (Path dir) with
               | None => set_revision (Path dir) (int_add (Revision dir) 1)
                           (call (RemoveAll (pkgDir dir)) sw)
               | Some e =>
                   errorf ("cannot bump revision on "
                           +:+ quote (render (Path dir)) +:+ ": " +:+ e)
                     (call (RemoveAll (pkgDir dir)) sw)
               end).
Proof.
  intros [Hacc (Htest & sc & isDir & hooks & sw & Hc & Hs & Hr & Hw)].
  exists sc, hooks, sw. repeat (split; [assumption|]).
  pose proof (processGoCharm_writeHooks _ _ _ _ _ _ _ Htest Hc Hs Hr) as Hrun.
  rewrite Hw in Hrun.
  unfold processCharm. rewrite Hacc. fold (started fl dir s). rewrite Hrun.
  cbn [mbind option_bind]. unfold SetDiskRevision.
  destruct (writeRevision w (Path dir)); reflexivity.
Qed.

(** C3. A stub that exists with other content than the canonical one
    is byte for byte the same after the turn of the loop, whatever happens
    in it.  When the pipeline of the charm completes and the stub is for a
    hook of the hook set, a warning naming the file is on the diagnostic
    stream.  And the conflict blocks nothing: when the charm is accepted,
    the build and the introspection succeed and every stub that has to be
    written can be written, the pipeline completes, and if the revision file
    can be written the revision is advanced and the exit code is left as it
    was. *)
Theorem conflicting_stub_kept (fl : Flags) (w : World) (dir : Dir) (s : State)
    (hookName content : string) :
  files s !! stubPath dir hookName = Some content ->
  content <> hookStub hookName ->
  exists s',
    processCharm fl w dir s = Some s'
    /\ files s' !! stubPath dir hookName = Some content
    /\ (advancing fl w dir s ->
        forall hooks, registered w (Path dir) = inr hooks ->
        hookName = "stop" \/ hookName ∈ hookNames hooks ->
        conflictWarning dir hookName ∈ stderr s')
    /\ (accepted w dir -> test fl = false ->
        forall sc isDir hooks,
          compile w dir "runhook" hookMainCode true (started fl dir s)
            = Some (None, sc) ->
          stat w (binary dir) = StatInfo isDir ->
          registered w (Path dir) = inr hooks ->
          (forall n, writeFile w (stubPath dir n) = None) ->
          advancing fl w dir s
          /\ (writeRevision w (Path dir) = None ->
              revisions s' !! Path dir = Some (int_add (Revision dir) 1)
              /\ exitCode s' = exitCode s)).
Proof.
  intros Hfile Hne.
  destruct (processCharm_cases fl w dir s) as (s' & Hp & _).
  exists s'. split; [exact Hp|].
  split; [exact (processCharm_files _ _ _ _ _ _ _ Hp Hfile
                   (stubPath_not_mainGo dir hookName))|].
  split.
  - intros Hadv hooks Hreg Hname.
    destruct (advancing_run _ _ _ _ Hadv) as (sc & hooks' & sw & Hc & Hr & Hw & Hrun).
    rewrite Hreg in Hr. injection Hr as <-.
    rewrite Hp in Hrun. injection Hrun as ->.
    assert (Hin : conflictWarning dir hookName ∈ stderr sw).
    { destruct (compile_effect w dir "runhook" hookMainCode true (started fl dir s))
        as (e0 & sc0 & Hc0 & _ & _ & _ & _ & _ & Hf0).
      rewrite Hc in Hc0. injection Hc0 as <- <-.
      destruct (started_fields fl dir s) as (_ & _ & _ & Ff & _).
      rewrite Ff in Hf0.
      specialize (Hf0 _ _ Hfile (stubPath_not_mainGo dir hookName)).
      pose proof (syncStubs_warns w (Join (Path dir) ["hooks"])
                    (hookNames (<["stop" := true]> hooks)) hookName content sc) as Hwarn.
      unfold writeHooks in Hw. rewrite Hw in Hwarn. apply Hwarn; auto.
      apply elem_of_hookNames.
      destruct (decide (hookName = "stop")) as [->|Hns].
      - rewrite lookup_insert_eq. eauto.
      - rewrite lookup_insert_ne by congruence. apply elem_of_hookNames.
        destruct Hname; [contradiction|assumption]. }
    destruct (writeRevision w (Path dir)); cbn;
      repeat (apply elem_of_app; left); exact Hin.
  - intros Hacc Htest sc isDir hooks Hc Hs Hr Hwrite.
    assert (Hok : (writeHooks w dir (<["stop" := true]> hooks) sc).1 = None)
      by (apply syncStubs_ok; intros n _; apply Hwrite).
    destruct (writeHooks w dir (<["stop" := true]> hooks) sc) as [e sw] eqn:Hw.
    cbn in Hok. subst e.
    assert (Hadv : advancing fl w dir s).
    { split; [exact Hacc|]. split; [exact Htest|]. exists sc, isDir, hooks, sw. auto. }
    split; [exact Hadv|]. intros Hrev.
    rewrite (processCharm_revisions _ _ _ _ _ Hp).
    rewrite (proj2 (advances_iff fl w dir s)) by auto.
    split; [apply lookup_insert_eq|].
    destruct (advancing_run _ _ _ _ Hadv) as (sc' & hooks' & sw' & Hc' & Hr' & Hw' & Hrun).
    rewrite Hp, Hrev in Hrun. injection Hrun as ->. cbn.
    rewrite Hc in Hc'. injection Hc' as <-.
    assert (hooks' = hooks) as -> by congruence.
    rewrite Hw in Hw'. injection Hw' as <-.
    pose proof (syncStubs_effect w (Join (Path dir) ["hooks"])
                  (hookNames (<["stop" := true]> hooks)) sc) as He.
    cbn zeta in He. unfold writeHooks in Hw. rewrite Hw in He.
    destruct He as (He & _). cbn in He. rewrite He.
    destruct (compile_effect w dir "runhook" hookMainCode true (started fl dir s))
      as (e0 & sc0 & Hc0 & Hec & _).
    rewrite Hc in Hc0. injection Hc0 as <- <-.
    rewrite Hec. apply started_fields.
Qed.

Lemma conflicting_stub_kept_witness :
  files sampleState !! stubPath (sampleDir wordpress) "stop"
  = Some ("#!/bin/sh" +:+ newline +:+ "exit 0")
  /\ "#!/bin/sh" +:+ newline +:+ "exit 0" <> hookStub "stop"
  /\ exists s',
       processCharm sampleFlags sampleWorld (sampleDir wordpress) sampleState
       = Some s'
       /\ files s' !! stubPath (sampleDir wordpress) "stop"
          = Some ("#!/bin/sh" +:+ newline +:+ "exit 0").
Proof.
  assert (Hf : files sampleState !! stubPath (sampleDir wordpress) "stop"
               = Some ("#!/bin/sh" +:+ newline +:+ "exit 0"))
    by (vm_compute; reflexivity).
  assert (Hne : "#!/bin/sh" +:+ newline +:+ "exit 0" <> hookStub "stop")
    by (vm_compute; discriminate).
  split; [exact Hf|]. split; [exact Hne|].
  destruct (conflicting_stub_kept sampleFlags sampleWorld (sampleDir wordpress)
              sampleState "stop" _ Hf Hne) as (s' & Hp & Hkept & _).
  exists s'. split; [exact Hp|exact Hkept].
Defined.

(** ** The success line *)

Lemma successLine_form dir root series name :
  Path dir = root ++ [series; name] ->
  successLine dir
  = "local:" +:+ series +:+ "/" +:+ Name dir +:+ "-" +:+ pretty (Revision dir).
Proof.
  intros Hp. unfold successLine, Split, filepath_Dir. rewrite Hp. cbn [snd].
  replace (root ++ [series; name]) with ((root ++ [series]) ++ [name])
    by (rewrite <- app_assoc; reflexivity).
  rewrite List.removelast_last, List.last_last. reflexivity.
Qed.

Lemma printed_app (a b : list Out) : printed (a ++ b) = printed a ++ printed b.
Proof. unfold printed. apply omap_app. Qed.

Lemma printed_child (out : list string) : printed (ChildOut <$> out) = [].
Proof. induction out as [|l out IH]; [reflexivity|exact IH]. Qed.

(** A build that succeeds has written on the standard output what the
    compiler printed there, and nothing else. *)
Lemma compile_stdout w dir binaryName mainCode crossCompile s sc :
  compile w dir binaryName mainCode crossCompile s = Some (None, sc) ->
  exists env,
    buildEnv w dir crossCompile = Some env
    /\ stdout sc = stdout s ++ (ChildOut <$> execOut w env (buildArgv dir binaryName)).
Proof.
  destruct (buildEnv_total w dir crossCompile) as (env & Henv).
  rewrite (compile_unfold _ _ _ _ _ _ _ Henv). cbv zeta. intros H.
  exists env. split; [exact Henv|].
  destruct (mkdirAll w _) as [e|]; [discriminate|].
  destruct (writeFile w _) as [e|]; [discriminate|].
  destruct (exec w env _) as [e|]; [discriminate|].
  injection H as <-. reflexivity.
Qed.

Lemma processCharm_stdout fl w dir s s' :
  processCharm fl w dir s = Some s' ->
  exists out,
    stdout s' = stdout s ++ (ChildOut <$> out)
    \/ stdout s' = stdout s ++ (ChildOut <$> out)
                   ++ [Printed (successLine (bumped dir))].
Proof.
  intros H. destruct (processCharm_cases fl w dir s) as (s1 & H1 & Hc).
  rewrite H in H1. injection H1 as <-.
  destruct Hc as [(_ & sp & _ & (out & Ho) & _ & _ & ->)|(_ & (out & Ho) & _)];
    exists out; [right|left; exact Ho].
  destruct (writeRevision w (Path dir)); cbn; rewrite Ho, <- app_assoc; reflexivity.
Qed.

(** The standard output after the loop: what was there, then what the turns
    added; the lines [main] printed are success lines of its charms. *)
Lemma processAll_stdout fl w ds : forall s s',
  processAll fl w ds s = Some s' ->
  exists added lines,
    stdout s' = stdout s ++ added
    /\ printed added = lines
    /\ Forall (fun l => exists d, d ∈ ds /\ l = successLine (bumped d)) lines.
Proof.
  induction ds as [|d ds IH]; intros s s' H.
  - injection H as <-. exists [], []. rewrite app_nil_r. auto.
  - cbn in H. destruct (processCharm fl w d s) as [s1|] eqn:H1; [|discriminate].
    cbn in H. destruct (IH _ _ H) as (added & lines & Hl & <- & Hall).
    assert (Hall' : Forall (fun l => exists d0, d0 ∈ d :: ds
                                     /\ l = successLine (bumped d0)) (printed added)).
    { eapply Forall_impl; [exact Hall|]. intros l (d0 & Hd0 & ->).
      exists d0. split; [right; exact Hd0|reflexivity]. }
    destruct (processCharm_stdout _ _ _ _ _ H1) as (out & [Ho|Ho]); rewrite Hl, Ho.
    + exists ((ChildOut <$> out) ++ added), (printed added).
      rewrite <- app_assoc, printed_app, printed_child. auto.
    + exists ((ChildOut <$> out) ++ [Printed (successLine (bumped d))] ++ added),
             (successLine (bumped d) :: printed added).
      rewrite <- !app_assoc, !printed_app, printed_child.
      split; [reflexivity|]. split; [reflexivity|].
      apply Forall_cons. split; [|exact Hall'].
      exists d. split; [left|reflexivity].
Qed.

(** The standard output of the loop, for a charm at [root/series/name]
    with a revision below the largest [int]. *)
Lemma processAll_success_line (fl : Flags) (w : World)
    (ds1 : list Dir) (dir : Dir) (ds2 : list Dir) (s0 : State)
    (root : list string) (series name : string) :
  Path dir = root ++ [series; name] ->
  int_min <= Revision dir < int_max ->
  exists s1 s2 sf lines rest,
    processAll fl w ds1 s0 = Some s1
    /\ processCharm fl w dir s1 = Some s2
    /\ processAll fl w (ds1 ++ dir :: ds2) s0 = Some sf
    /\ stdout sf = stdout s2 ++ rest
    /\ printed (stdout sf) = printed (stdout s0) ++ lines
    /\ Forall (fun l => exists d, d ∈ ds1 ++ dir :: ds2
                        /\ l = successLine (bumped d)) lines
    /\ (advancing fl w dir s1 -> writeRevision w (Path dir) = None ->
        (exists env,
           buildEnv w dir true = Some env
           /\ stdout s2 = stdout s1
                ++ (ChildOut <$> execOut w env (buildArgv dir "runhook"))
                ++ [Printed ("local:" +:+ series +:+ "/" +:+ Name dir +:+ "-"
                             +:+ pretty (Revision dir + 1))])
        /\ printed (stdout s2) = printed (stdout s1) ++
             ["local:" +:+ series +:+ "/" +:+ Name dir +:+ "-"
              +:+ pretty (Revision dir + 1)]
        /\ revisions s2 !! Path dir = Some (Revision dir + 1))
    /\ (~ advancing fl w dir s1 ->
        (exists out, stdout s2 = stdout s1 ++ (ChildOut <$> out))
        /\ printed (stdout s2) = printed (stdout s1)
        /\ revisions s2 = revisions s1)
    /\ (~ accepted w dir -> stdout s2 = stdout s1)
    /\ (forall e sp, accepted w dir ->
          processGoCharm fl w dir (started fl dir s1) = Some (false, Some e, sp) ->
          stderr s2 = stderr sp ++
            [LogErrorInfo e;
             Failure ("failed compile or test charm "
                      +:+ quote (render (Path dir)) +:+ ": " +:+ e)]
          /\ exitCode s2 = 1).
Proof.
  intros Hpath Hrange.
  destruct (processAll_total fl w ds1 s0) as (s1 & H1).
  destruct (processCharm_cases fl w dir s1) as (s2 & H2 & Hc).
  destruct (processAll_total fl w ds2 s2) as (sf & Hf).
  assert (Hall : processAll fl w (ds1 ++ dir :: ds2) s0 = Some sf).
  { rewrite processAll_app, H1. cbn. rewrite H2. exact Hf. }
  destruct (processAll_stdout _ _ _ _ _ Hf) as (rest & _ & Hrest & _).
  destruct (processAll_stdout _ _ _ _ _ Hall) as (added & lines & Hadded & Hlines & Hforall).
  exists s1, s2, sf, lines, rest.
  split; [exact H1|]. split; [exact H2|]. split; [exact Hall|].
  split; [exact Hrest|].
  split; [rewrite Hadded, printed_app, Hlines; reflexivity|].
  split; [exact Hforall|].
  split; [|split; [|split]].
  - intros Hadv Hw.
    assert (Hrev : revisions s2 !! Path dir = Some (Revision dir + 1)).
    { rewrite (processCharm_revisions _ _ _ _ _ H2).
      rewrite (proj2 (advances_iff fl w dir s1)) by auto.
      rewrite lookup_insert_eq, (int_add_1 _ Hrange). reflexivity. }
    destruct (advancing_run _ _ _ _ Hadv) as (sc & hooks & sw & Hcomp & _ & Hwh & Hrun).
    rewrite H2, Hw in Hrun. injection Hrun as ->.
    destruct (compile_stdout _ _ _ _ _ _ _ Hcomp) as (env & Henv & Hsc).
    pose proof (syncStubs_effect w (Join (Path dir) ["hooks"])
                  (hookNames (<["stop" := true]> hooks)) sc) as Hs.
    cbn zeta in Hs. unfold writeHooks in Hwh. rewrite Hwh in Hs.
    destruct Hs as (_ & Hso & _). cbn [snd] in Hso.
    destruct (started_fields fl dir s1) as (_ & Fo & _).
    assert (Hline : successLine (bumped dir)
                    = "local:" +:+ series +:+ "/" +:+ Name dir +:+ "-"
                      +:+ pretty (Revision dir + 1)).
    { rewrite (successLine_form (bumped dir) root series name Hpath). cbn.
      rewrite (int_add_1 _ Hrange). reflexivity. }
    assert (Hout : stdout (print (successLine (bumped dir))
                     (set_revision (Path dir) (int_add (Revision dir) 1)
                        (call (RemoveAll (pkgDir dir)) sw)))
                   = stdout s1
                     ++ (ChildOut <$> execOut w env (buildArgv dir "runhook"))
                     ++ [Printed ("local:" +:+ series +:+ "/" +:+ Name dir +:+ "-"
                                  +:+ pretty (Revision dir + 1))]).
    { cbn. rewrite Hso, Hsc, Fo, Hline, <- app_assoc. reflexivity. }
    split; [exists env; split; [exact Henv|exact Hout]|].
    split; [|exact Hrev].
    rewrite Hout, !printed_app, printed_child. reflexivity.
  - intros Hn. destruct Hc as [(Ha & _)|(_ & (out & Ho) & Hr)]; [contradiction|].
    split; [exists out; exact Ho|]. split; [|exact Hr].
    rewrite Ho, printed_app, printed_child, app_nil_r. reflexivity.
  - intros Hnacc. revert H2. unfold processCharm, accepted in *.
    destruct (isGoCharm w dir) as [[|] [e|]]; try (intros [= <-]; reflexivity).
    + contradiction.
    + intros [= <-]. destruct (verbose fl); reflexivity.
  - intros e sp Hacc Hg. revert H2. unfold processCharm.
    rewrite Hacc. fold (started fl dir s1). rewrite Hg. cbn.
    intros [= <-]. cbn. rewrite <- app_assoc. split; reflexivity.
Qed.

(** C9 as stated fails.  On [sampleWorld] the line [main] prints for
    [wordpress], whose revision goes from 5 to 6, starts with [local:], so it
    is not of the form [series/name-revision].  And on [failingTests], in a
    run with [-test], the tests of [wordpress] fail: the run exits with
    status 1, the revision of [wordpress] is not advanced and [main] prints
    no line, yet the charm has produced two lines on the standard output,
    because [go test] is given the stream and prints its verdict there. *)
Lemma success_line_without_advance :
  match main sampleFlags sampleWorld sampleState,
        main testFlags failingTests sampleState
  with
  | Some (code, sf), Some (code', sf') =>
      stdout sf = [Printed "local:lucid/wordpress-6"]
      /\ diskRevision sampleState wordpress = 5
      /\ diskRevision sf wordpress = 6
      /\ "local:lucid/wordpress-6" <> "lucid/wordpress-6"
      /\ code' = 1
      /\ stdout sf' = [ChildOut "--- FAIL: TestInstall (0.00s)"; ChildOut "FAIL"]
      /\ printed (stdout sf') = []
      /\ diskRevision sf' wordpress = 5
  | _, _ => False
  end.
Proof. vm_compute. repeat split. discriminate. Qed.

(** ** The charms [main] works on *)

Lemma readDirs_spec w paths : forall dirs s,
  exists new,
    (readDirs w paths dirs s).1 = dirs ++ new
    /\ Path <$> new `sublist_of` filepath_Dir <$> paths
    /\ Forall (fun d => Revision d = diskRevision s (Path d)) new
    /\ revisions (readDirs w paths dirs s).2 = revisions s
    /\ files (readDirs w paths dirs s).2 = files s
    /\ stdout (readDirs w paths dirs s).2 = stdout s
    /\ calls (readDirs w paths dirs s).2 = calls s.
Proof.
  induction paths as [|p paths IH]; intros dirs s.
  - exists []. cbn. rewrite app_nil_r. repeat split; constructor.
  - cbn [readDirs]. unfold ReadDir.
    destruct (readMeta w (filepath_Dir p)) as [e|name].
    + destruct (IH dirs (errorf ("cannot read " +:+ quote (render (filepath_Dir p))
                                 +:+ ": " +:+ e) s))
        as (new & H1 & H2 & H3 & H4 & H5 & H6 & H7).
      exists new. rewrite H1, H4, H5, H6, H7. repeat split; trivial.
      rewrite fmap_cons. apply sublist_cons. exact H2.
    + destruct (IH (dirs ++ [{| Path := filepath_Dir p; Name := name;
                                Revision := diskRevision s (filepath_Dir p) |}]) s)
        as (new & H1 & H2 & H3 & H4 & H5 & H6 & H7).
      exists ({| Path := filepath_Dir p; Name := name;
                 Revision := diskRevision s (filepath_Dir p) |} :: new).
      rewrite H1, <- app_assoc, H4, H5, H6, H7. repeat split; trivial.
      * rewrite !fmap_cons. apply sublist_skip. exact H2.
      * apply Forall_cons. split; [reflexivity|exact H3].
Qed.

Lemma Glob_dirs_NoDup (w : World) (root : string) :
  NoDup (listing w) -> NoDup (filepath_Dir <$> Glob w [root]).
Proof.
  intros Hnd. apply NoDup_fmap_2_strong.
  - intros x y Hx Hy Heq.
    apply elem_of_Glob in Hx as [_ Hx]. apply elem_of_Glob in Hy as [_ Hy].
    apply globMatch_iff in Hx as (a & b & ->).
    apply globMatch_iff in Hy as (a' & b' & ->).
    cbn in Heq. congruence.
  - unfold Glob. rewrite merge_sort_Permutation.
    apply NoDup_ListNoDup, List.NoDup_filter, NoDup_ListNoDup. exact Hnd.
Qed.

(** The charms of a run are read from distinct directories, with the
    revision each has on disk, before the loop of C1 and C9 starts. *)
Lemma main_charms fl w s :
  NoDup (listing w) ->
  resolvedRepo fl w <> "" -> Glob w [resolvedRepo fl w] <> [] ->
  exists dirs s1,
    readDirs w (Glob w [resolvedRepo fl w]) [] s = (dirs, s1)
    /\ NoDup (Path <$> dirs)
    /\ Forall (fun d => diskRevision s1 (Path d) = Revision d) dirs
    /\ main fl w s = (s2 ← processAll fl w dirs s1; Some (exitCode s2, s2)).
Proof.
  intros Hnd Hrepo Hglob. rewrite (main_run _ _ _ Hrepo Hglob).
  destruct (readDirs_spec w (Glob w [resolvedRepo fl w]) [] s)
    as (new & H1 & H2 & H3 & H4 & _).
  destruct (readDirs w (Glob w [resolvedRepo fl w]) [] s) as [dirs s1].
  cbn in H1, H4. subst dirs. exists new, s1.
  split; [reflexivity|]. split; [|split; [|reflexivity]].
  - eapply sublist_NoDup; [apply Glob_dirs_NoDup; exact Hnd|exact H2].
  - eapply Forall_impl; [exact H3|]. intros d Hd. unfold diskRevision in *.
    rewrite H4. symmetry. exact Hd.
Qed.

Lemma readDirs_paths w root s dirs s1 d :
  readDirs w (Glob w [root]) [] s = (dirs, s1) -> d ∈ dirs ->
  exists series name, Path d = [root; series; name].
Proof.
  intros Hread Hd.
  destruct (readDirs_spec w (Glob w [root]) [] s) as (new & H1 & H2 & _).
  rewrite Hread in H1. cbn in H1. subst dirs.
  assert (Hin : Path d ∈ filepath_Dir <$> Glob w [root]).
  { eapply elem_of_sublist; [|exact H2]. apply list_elem_of_fmap. eauto. }
  apply list_elem_of_fmap in Hin as (p & Hp & Hin).
  apply elem_of_Glob in Hin as [_ Hm].
  apply globMatch_iff in Hm as (a & b & ->). rewrite Hp. eauto.
Qed.

(** C1 (amended).  In a run of [main] over a repository with charms, take
    a charm that was read, with a revision on disk below the largest [int].
    [main] returns, and afterwards the revision on disk is the old one plus 1
    exactly when the classifier accepted the charm, its build, introspection
    and stub synchronization completed without fatal error from the state in
    which the loop reached it, and the write of the revision file succeeded;
    in every other case the revision on disk is the old one. *)
Theorem revision_advanced_iff (fl : Flags) (w : World) (s : State)
    (ds1 : list Dir) (dir : Dir) (ds2 : list Dir) (s1 : State) :
  NoDup (listing w) ->
  resolvedRepo fl w <> "" ->
  readDirs w (Glob w [resolvedRepo fl w]) [] s = (ds1 ++ dir :: ds2, s1) ->
  int_min <= diskRevision s (Path dir) < int_max ->
  exists sa code sf,
    processAll fl w ds1 s1 = Some sa
    /\ main fl w s = Some (code, sf)
    /\ (diskRevision sf (Path dir) = diskRevision s (Path dir) + 1
        <-> advancing fl w dir sa /\ writeRevision w (Path dir) = None)
    /\ (~ (advancing fl w dir sa /\ writeRevision w (Path dir) = None)
        -> diskRevision sf (Path dir) = diskRevision s (Path dir)).
Proof.
  intros Hnd Hrepo Hread Hrange.
  assert (Hglob : Glob w [resolvedRepo fl w] <> []).
  { intros Hnil. rewrite Hnil in Hread. cbn in Hread.
    injection Hread as Hd _. destruct ds1; discriminate. }
  destruct (main_charms fl w s Hnd Hrepo Hglob) as (dirs & s1' & Hr & Hnp & Hrev & Hmain).
  rewrite Hread in Hr. injection Hr as <- <-.
  destruct (readDirs_spec w (Glob w [resolvedRepo fl w]) [] s)
    as (new & _ & _ & _ & Hrs & _).
  rewrite Hread in Hrs. cbn in Hrs.
  assert (Hdisk : diskRevision s1 (Path dir) = Revision dir).
  { rewrite Forall_forall in Hrev. apply Hrev.
    apply elem_of_app. right. left. }
  assert (Hsame : diskRevision s (Path dir) = diskRevision s1 (Path dir))
    by (unfold diskRevision; rewrite Hrs; reflexivity).
  rewrite Hsame in Hrange |- *. rewrite Hdisk in Hrange |- *.
  destruct (processAll_revision_iff fl w ds1 dir ds2 s1 Hnp Hdisk Hrange)
    as (sa & sf & Ha & Hf & Hiff & Helse).
  exists sa, (exitCode sf), sf. split; [exact Ha|].
  split; [rewrite Hmain, Hf; reflexivity|]. split; assumption.
Qed.

Lemma revision_advanced_iff_witness :
  NoDup (listing sampleWorld)
  /\ resolvedRepo sampleFlags sampleWorld <> ""
  /\ readDirs sampleWorld (Glob sampleWorld [resolvedRepo sampleFlags sampleWorld])
       [] sampleState
     = ([] ++ sampleDir wordpress :: [sampleDir mysql; sampleDir haproxy],
        sampleState)
  /\ int_min <= diskRevision sampleState (Path (sampleDir wordpress)) < int_max
  /\ advancing sampleFlags sampleWorld (sampleDir wordpress) sampleState
  /\ writeRevision sampleWorld (Path (sampleDir wordpress)) = None
  /\ exists code sf,
       main sampleFlags sampleWorld sampleState = Some (code, sf)
       /\ diskRevision sf wordpress = diskRevision sampleState wordpress + 1.
Proof.
  assert (Hnd : NoDup (listing sampleWorld))
    by (apply (bool_decide_unpack _); vm_compute; exact I).
  assert (Hrepo : resolvedRepo sampleFlags sampleWorld <> "")
    by (vm_compute; discriminate).
  assert (Hread : readDirs sampleWorld
                    (Glob sampleWorld [resolvedRepo sampleFlags sampleWorld])
                    [] sampleState
                  = ([] ++ sampleDir wordpress
                        :: [sampleDir mysql; sampleDir haproxy], sampleState))
    by (vm_compute; reflexivity).
  assert (Hrange : int_min <= diskRevision sampleState (Path (sampleDir wordpress))
                   < int_max)
    by (vm_compute; split; [discriminate|reflexivity]).
  assert (Hadv : advancing sampleFlags sampleWorld (sampleDir wordpress) sampleState
                 /\ writeRevision sampleWorld (Path (sampleDir wordpress)) = None)
    by (apply advances_iff; vm_compute; reflexivity).
  split; [exact Hnd|]. split; [exact Hrepo|]. split; [exact Hread|].
  split; [exact Hrange|]. split; [exact (proj1 Hadv)|]. split; [exact (proj2 Hadv)|].
  destruct (revision_advanced_iff sampleFlags sampleWorld sampleState []
              (sampleDir wordpress) [sampleDir mysql; sampleDir haproxy]
              sampleState Hnd Hrepo Hread Hrange)
    as (sa & code & sf & Ha & Hmain & Hiff & _).
  injection Ha as <-. exists code, sf. split; [exact Hmain|].
  apply Hiff. exact Hadv.
Defined.

(** C9 (amended).  In a run of [main] over a repository with charms, take
    a charm that was read, with a revision below the largest [int]; it lies
    at [root/series/name].  [main] returns.  When the pipeline of the charm
    completes and the revision file is written, its turn of the loop prints
    exactly one line, [local:series/name-revision] with the name of the
    metadata and the new revision, which is then the one on disk; the line
    comes after what the compiler printed on the standard output it is
    given.  When the charm is skipped or a stage fails, [main] prints no
    line in its turn and no revision changes: a charm the classifier does
    not accept adds nothing to the standard output, and all that the turn
    of a failing charm adds to it is what its child process ([go build] or
    [go test]) printed there; and a failed stage is reported by [main] on
    the diagnostic stream and sets the exit code.  The later turns only add
    after it, and every line [main] prints in the run is the success line of
    one of its charms. *)
Theorem success_line_per_advanced_charm (fl : Flags) (w : World) (s : State)
    (ds1 : list Dir) (dir : Dir) (ds2 : list Dir) (s1 : State) :
  resolvedRepo fl w <> "" ->
  readDirs w (Glob w [resolvedRepo fl w]) [] s = (ds1 ++ dir :: ds2, s1) ->
  int_min <= Revision dir < int_max ->
  exists series name sa s2 code sf lines rest,
    Path dir = [resolvedRepo fl w; series; name]
    /\ processAll fl w ds1 s1 = Some sa
    /\ processCharm fl w dir sa = Some s2
    /\ main fl w s = Some (code, sf)
    /\ stdout sf = stdout s2 ++ rest
    /\ printed (stdout sf) = printed (stdout s) ++ lines
    /\ Forall (fun l => exists d, d ∈ ds1 ++ dir :: ds2
                        /\ l = successLine (bumped d)) lines
    /\ (advancing fl w dir sa -> writeRevision w (Path dir) = None ->
        (exists env,
           buildEnv w dir true = Some env
           /\ stdout s2 = stdout sa
                ++ (ChildOut <$> execOut w env (buildArgv dir "runhook"))
                ++ [Printed ("local:" +:+ series +:+ "/" +:+ Name dir +:+ "-"
                             +:+ pretty (Revision dir + 1))])
        /\ printed (stdout s2) = printed (stdout sa) ++
             ["local:" +:+ series +:+ "/" +:+ Name dir +:+ "-"
              +:+ pretty (Revision dir + 1)]
        /\ revisions s2 !! Path dir = Some (Revision dir + 1))
    /\ (~ advancing fl w dir sa ->
        (exists out, stdout s2 = stdout sa ++ (ChildOut <$> out))
        /\ printed (stdout s2) = printed (stdout sa)
        /\ revisions s2 = revisions sa)
    /\ (~ accepted w dir -> stdout s2 = stdout sa)
    /\ (forall e sp, accepted w dir ->
          processGoCharm fl w dir (started fl dir sa) = Some (false, Some e, sp) ->
          stderr s2 = stderr sp ++
            [LogErrorInfo e;
             Failure ("failed compile or test charm "
                      +:+ quote (render (Path dir)) +:+ ": " +:+ e)]
          /\ exitCode s2 = 1).
Proof.
  intros Hrepo Hread Hrange.
  assert (Hglob : Glob w [resolvedRepo fl w] <> []).
  { intros Hnil. rewrite Hnil in Hread. cbn in Hread.
    injection Hread as Hd _. destruct ds1; discriminate. }
  destruct (readDirs_paths w _ s _ s1 dir Hread) as (series & name & Hpath).
  { apply elem_of_app. right. left. }
  destruct (readDirs_spec w (Glob w [resolvedRepo fl w]) [] s)
    as (new & _ & _ & _ & _ & _ & Hout & _).
  rewrite Hread in Hout. cbn in Hout.
  destruct (processAll_success_line fl w ds1 dir ds2 s1 [resolvedRepo fl w]
              series name Hpath Hrange)
    as (sa & s2 & sf & lines & rest & Ha & H2 & Hf & Hrest & Hlines & Hall & Hconj).
  exists series, name, sa, s2, (exitCode sf), sf, lines, rest.
  split; [exact Hpath|]. split; [exact Ha|]. split; [exact H2|].
  split; [rewrite (main_run _ _ _ Hrepo Hglob), Hread, Hf; reflexivity|].
  split; [exact Hrest|]. split; [rewrite <- Hout; exact Hlines|].
  split; [exact Hall|exact Hconj].
Qed.

Lemma success_line_per_advanced_charm_witness :
  resolvedRepo sampleFlags sampleWorld <> ""
  /\ readDirs sampleWorld (Glob sampleWorld [resolvedRepo sampleFlags sampleWorld])
       [] sampleState
     = ([] ++ sampleDir wordpress :: [sampleDir mysql; sampleDir haproxy],
        sampleState)
  /\ int_min <= Revision (sampleDir wordpress) < int_max
  /\ advancing sampleFlags sampleWorld (sampleDir wordpress) sampleState
  /\ writeRevision sampleWorld (Path (sampleDir wordpress)) = None
  /\ exists s2 code sf,
       processCharm sampleFlags sampleWorld (sampleDir wordpress) sampleState
       = Some s2
       /\ main sampleFlags sampleWorld sampleState = Some (code, sf)
       /\ printed (stdout s2) = ["local:lucid/wordpress-6"]
       /\ revisions s2 !! wordpress = Some 6.
Proof.
  assert (Hrepo : resolvedRepo sampleFlags sampleWorld <> "")
    by (vm_compute; discriminate).
  assert (Hread : readDirs sampleWorld
                    (Glob sampleWorld [resolvedRepo sampleFlags sampleWorld])
                    [] sampleState
                  = ([] ++ sampleDir wordpress
                        :: [sampleDir mysql; sampleDir haproxy], sampleState))
    by (vm_compute; reflexivity).
  assert (Hrange : int_min <= Revision (sampleDir wordpress) < int_max)
    by (vm_compute; split; [discriminate|reflexivity]).
  assert (Hadv : advancing sampleFlags sampleWorld (sampleDir wordpress) sampleState
                 /\ writeRevision sampleWorld (Path (sampleDir wordpress)) = None)
    by (apply advances_iff; vm_compute; reflexivity).
  split; [exact Hrepo|]. split; [exact Hread|]. split; [exact Hrange|].
  split; [exact (proj1 Hadv)|]. split; [exact (proj2 Hadv)|].
  destruct (success_line_per_advanced_charm sampleFlags sampleWorld sampleState
              [] (sampleDir wordpress) [sampleDir mysql; sampleDir haproxy]
              sampleState Hrepo Hread Hrange)
    as (series & name & sa & s2 & code & sf & lines & rest & Hpath & Ha & H2
        & Hmain & _ & _ & _ & Hline & _).
  injection Ha as <-. injection Hpath as <- <-.
  exists s2, code, sf. split; [exact H2|]. split; [exact Hmain|].
  destruct (Hline (proj1 Hadv) (proj2 Hadv)) as (_ & Ho & Hrev).
  split; [exact Ho|exact Hrev].
Defined.

End GocharmFacts.

(** * Properties of [strings.TrimSpace] *)

Module StringsFacts.
Import Strings Hook.

(** ** Strings as byte sequences *)

Lemma sapp_cons (a : ascii) (p q : string) : String a p +:+ q = String a (p +:+ q).
Proof. reflexivity. Qed.

Lemma sapp_nil_l (s : string) : "" +:+ s = s.
Proof. reflexivity. Qed.

Lemma sapp_nil_r (s : string) : s +:+ "" = s.
Proof. induction s as [|a s IH]; [reflexivity|]. rewrite sapp_cons, IH. reflexivity. Qed.

Lemma sapp_assoc (a b c : string) : (a +:+ b) +:+ c = a +:+ b +:+ c.
Proof. induction a as [|x a IH]; [reflexivity|]. rewrite !sapp_cons, IH. reflexivity. Qed.

Lemma slength_app (p q : string) :
  String.length (p +:+ q) = (String.length p + String.length q)%nat.
Proof. induction p as [|a p IH]; [reflexivity|]. rewrite sapp_cons. cbn. rewrite IH. reflexivity. Qed.

Lemma slength_zero (s : string) : String.length s = 0%nat -> s = "".
Proof. destruct s; [reflexivity|discriminate]. Qed.

Lemma substring_full (s : string) : String.substring 0 (String.length s) s = s.
Proof. induction s as [|a s IH]; [reflexivity|]. cbn. rewrite IH. reflexivity. Qed.

Lemma slice_prefix (p q : string) : slice (p +:+ q) 0 (String.length p) = p.
Proof.
  unfold slice. rewrite Nat.sub_0_r.
  induction p as [|a p IH]; [destruct q; reflexivity|].
  rewrite sapp_cons. cbn. rewrite IH. reflexivity.
Qed.

Lemma slice_suffix (p q : string) :
  slice (p +:+ q) (String.length p) (String.length (p +:+ q)) = q.
Proof.
  unfold slice. rewrite slength_app.
  replace (String.length p + String.length q - String.length p)%nat
    with (String.length q) by lia.
  induction p as [|a p IH]; [apply substring_full|]. rewrite sapp_cons. exact IH.
Qed.

Lemma byteAt_app (p : string) (a : ascii) (q : string) :
  byteAt (p +:+ String a q) (String.length p) = byte a.
Proof.
  unfold byteAt. induction p as [|b p IH]; [reflexivity|]. rewrite sapp_cons. exact IH.
Qed.

Lemma bytes_app (p q : string) :
  list_ascii_of_string (p +:+ q) = list_ascii_of_string p ++ list_ascii_of_string q.
Proof. induction p as [|a p IH]; [reflexivity|]. rewrite sapp_cons. cbn. rewrite IH. reflexivity. Qed.

Lemma string_of_app (l1 l2 : list ascii) :
  string_of_list_ascii (l1 ++ l2) = string_of_list_ascii l1 +:+ string_of_list_ascii l2.
Proof. induction l1 as [|a l1 IH]; [reflexivity|]. cbn. rewrite IH. reflexivity. Qed.

(** A string as what stands before its last bytes, given last byte first. *)
Lemma string_of_rev_bytes (s : string) (l : list ascii) :
  rev (list_ascii_of_string s) = l -> s = string_of_list_ascii (rev l).
Proof.
  intros <-. rewrite rev_involutive. symmetry. apply string_of_list_ascii_of_string.
Qed.

(** Two ways to cut one string. *)
Lemma sapp_eq_app (p : string) : forall q x y : string,
  p +:+ q = x +:+ y ->
  (exists k, x = p +:+ k /\ q = k +:+ y)
  \/ (exists k a, p = x +:+ String a k /\ y = String a k +:+ q).
Proof.
  induction p as [|a p IH]; intros q x y H.
  - left. exists x. auto.
  - destruct x as [|b x].
    + right. exists p, a. rewrite sapp_nil_l in H |- *. auto.
    + rewrite !sapp_cons in H. injection H as -> H.
      destruct (IH _ _ _ H) as [(k & -> & ->)|(k & c & -> & ->)].
      * left. exists k. auto.
      * right. exists k, c. auto.
Qed.

(** ** Bytes and runes *)

Lemma byte_range (a : ascii) : 0 <= byte a < 256.
Proof.
  unfold byte. pose proof (N_ascii_bounded a). lia.
Qed.

Lemma RuneStart_isCont (a : ascii) : RuneStart (byte a) = negb (isCont (byte a)).
Proof. destruct a as [[] [] [] [] [] [] [] []]; reflexivity. Qed.

Lemma IsSpace_RuneError : IsSpace RuneError = false.
Proof. reflexivity. Qed.

Lemma IsSpace_decoded (r : Z) (n : nat) : IsSpace r = true -> decoded r n.
Proof. intros H. left. intros ->. discriminate. Qed.

Ltac decode_cases :=
  repeat match goal with
    | |- context [if ?b then _ else _] => destruct b eqn:?
    | H : context [if ?b then _ else _] |- _ => destruct b eqn:?
    end.

Lemma Decode_width (s : string) :
  s <> "" ->
  (1 <= (DecodeRuneInString s).2 <= String.length s)%nat.
Proof.
  intros Hs. destruct s as [|a0 [|a1 [|a2 [|a3 s]]]]; [contradiction|..];
    cbn [DecodeRuneInString String.length]; decode_cases; cbn [snd]; lia.
Qed.

(** A decoded rune depends on its own bytes only. *)
Lemma Decode_prefix (s t : string) (r : Z) (n : nat) :
  DecodeRuneInString s = (r, n) -> decoded r n ->
  DecodeRuneInString (s +:+ t) = (r, n).
Proof.
  intros H Hd.
  assert (Hbad : (RuneError, 1%nat) = (r, n) -> False).
  { intros [= <- <-]. destruct Hd as [Hd|Hd]; [congruence|lia]. }
  assert (Hbad0 : (RuneError, 0%nat) = (r, n) -> False).
  { intros [= <- <-]. destruct Hd as [Hd|Hd]; [congruence|lia]. }
  destruct s as [|a0 [|a1 [|a2 [|a3 s]]]]; rewrite ?sapp_cons;
    cbn [DecodeRuneInString] in H |- *; decode_cases;
    first [exact H | exfalso; auto].
Qed.

(** The bytes of a decoded rune. *)
Lemma Decode_chunk (s : string) (r : Z) (n : nat) :
  DecodeRuneInString s = (r, n) -> decoded r n ->
  exists e t, s = e +:+ t /\ String.length e = n /\ DecodeRuneInString e = (r, n).
Proof.
  intros H Hd.
  assert (Hbad : (RuneError, 1%nat) = (r, n) -> False).
  { intros [= <- <-]. destruct Hd as [Hd|Hd]; [congruence|lia]. }
  assert (Hbad0 : (RuneError, 0%nat) = (r, n) -> False).
  { intros [= <- <-]. destruct Hd as [Hd|Hd]; [congruence|lia]. }
  destruct s as [|a0 s1]; [exfalso; auto|].
  cbn [DecodeRuneInString] in H.
  destruct (byte a0 <? 128) eqn:E0.
  { exists (String a0 ""), s1. injection H as <- <-.
    split; [reflexivity|]. split; [reflexivity|]. cbn. rewrite E0. reflexivity. }
  destruct (byte a0 <? 192) eqn:E1; [exfalso; auto|].
  destruct s1 as [|a1 s2]; [exfalso; auto|].
  destruct (negb (isCont (byte a1))) eqn:C1; [exfalso; auto|].
  destruct (byte a0 <? 224) eqn:E2.
  { exists (String a0 (String a1 "")), s2.
    split; [reflexivity|].
    cbn [DecodeRuneInString]. rewrite E0, E1, C1, E2.
    decode_cases; try (exfalso; auto; fail).
    injection H as <- <-. auto. }
  destruct s2 as [|a2 s3]; [exfalso; auto|].
  destruct (negb (isCont (byte a2))) eqn:C2; [exfalso; auto|].
  destruct (byte a0 <? 240) eqn:E3.
  { exists (String a0 (String a1 (String a2 ""))), s3.
    split; [reflexivity|].
    cbn [DecodeRuneInString]. rewrite E0, E1, C1, E2, C2, E3.
    decode_cases; try (exfalso; auto; fail).
    injection H as <- <-. auto. }
  destruct s3 as [|a3 s4]; [exfalso; auto|].
  destruct (negb (isCont (byte a3))) eqn:C3; [exfalso; auto|].
  exists (String a0 (String a1 (String a2 (String a3 "")))), s4.
  split; [reflexivity|].
  cbn [DecodeRuneInString]. rewrite E0, E1, C1, E2, C2, E3, C3.
  decode_cases; try (exfalso; auto; fail).
  injection H as <- <-. auto.
Qed.


Lemma encodes_nonempty (e : string) (r : Z) : encodes e r -> e <> "".
Proof.
  intros [H Hd] ->. cbn in H. injection H as <-.
  destruct Hd as [Hd|Hd]; [congruence|cbn in Hd; lia].
Qed.

Lemma isCont_ge (a : ascii) : isCont (byte a) = true -> (byte a <? RuneSelf) = false.
Proof.
  unfold isCont, RuneSelf. intros H. apply andb_prop in H as [H _].
  apply Z.leb_le in H. apply Z.ltb_ge. exact H.
Qed.

Lemma lead_not_cont (a : ascii) : (byte a <? 192) = false -> isCont (byte a) = false.
Proof.
  unfold isCont. intros H. rewrite H. apply andb_false_r.
Qed.

Ltac eqb_absurd :=
  match goal with
  | H : (_ =? _)%nat = false |- _ => cbn in H; discriminate H
  end.

Lemma DecodeLast_encodes (p e : string) (r : Z) :
  encodes e r -> DecodeLastRuneInString (p +:+ e) = (r, String.length e).
Proof.
  intros [H Hd].
  assert (Hbad : forall n, (n < 2)%nat -> (RuneError, n) = (r, String.length e) -> False).
  { intros n Hn [= <- Hl]. destruct Hd as [Hd|Hd]; [congruence|lia]. }
  unfold DecodeLastRuneInString. rewrite bytes_app, rev_app_distr.
  destruct e as [|a0 [|a1 [|a2 [|a3 [|a4 e]]]]].
  - exfalso. apply (Hbad 0%nat); [lia|exact H].
  - cbn [list_ascii_of_string rev app]. cbn [DecodeRuneInString] in H.
    destruct (byte a0 <? 128) eqn:E0.
    + unfold RuneSelf. rewrite E0. injection H as <-. reflexivity.
    + exfalso. decode_cases; apply (Hbad 1%nat); try lia; exact H.
  - cbn [list_ascii_of_string rev app]. cbn [DecodeRuneInString String.length] in H.
    destruct (byte a0 <? 128) eqn:E0; [injection H as _ H; discriminate|].
    destruct (byte a0 <? 192) eqn:E1; [injection H as _ H; discriminate|].
    destruct (negb (isCont (byte a1))) eqn:C1; [injection H as _ H; discriminate|].
    apply negb_false_iff in C1.
    rewrite (isCont_ge _ C1). cbn [UTFMax Nat.sub scanStart].
    rewrite RuneStart_isCont, (lead_not_cont _ E1). cbn [negb].
    cbn [DecodeRuneInString String.length]. rewrite E0, E1, C1. cbn [negb].
    decode_cases; try (injection H as _ H; discriminate); try eqb_absurd.
    injection H as <-. reflexivity.
  - cbn [list_ascii_of_string rev app]. cbn [DecodeRuneInString String.length] in H.
    destruct (byte a0 <? 128) eqn:E0; [injection H as _ H; discriminate|].
    destruct (byte a0 <? 192) eqn:E1; [injection H as _ H; discriminate|].
    destruct (negb (isCont (byte a1))) eqn:C1; [injection H as _ H; discriminate|].
    destruct (byte a0 <? 224) eqn:E2;
      [decode_cases; injection H as _ H; discriminate|].
    destruct (negb (isCont (byte a2))) eqn:C2; [injection H as _ H; discriminate|].
    apply negb_false_iff in C1. apply negb_false_iff in C2.
    rewrite (isCont_ge _ C2). cbn [UTFMax Nat.sub scanStart].
    rewrite !RuneStart_isCont, C1, (lead_not_cont _ E1). cbn [negb].
    cbn [DecodeRuneInString String.length]. rewrite E0, E1, C1, E2, C2. cbn [negb].
    decode_cases; try (injection H as _ H; discriminate); try eqb_absurd.
    injection H as <-. reflexivity.
  - cbn [list_ascii_of_string rev app]. cbn [DecodeRuneInString String.length] in H.
    destruct (byte a0 <? 128) eqn:E0; [injection H as _ H; discriminate|].
    destruct (byte a0 <? 192) eqn:E1; [injection H as _ H; discriminate|].
    destruct (negb (isCont (byte a1))) eqn:C1; [injection H as _ H; discriminate|].
    destruct (byte a0 <? 224) eqn:E2;
      [decode_cases; injection H as _ H; discriminate|].
    destruct (negb (isCont (byte a2))) eqn:C2; [injection H as _ H; discriminate|].
    destruct (byte a0 <? 240) eqn:E3;
      [decode_cases; injection H as _ H; discriminate|].
    destruct (negb (isCont (byte a3))) eqn:C3; [injection H as _ H; discriminate|].
    apply negb_false_iff in C1. apply negb_false_iff in C2.
    apply negb_false_iff in C3.
    rewrite (isCont_ge _ C3). cbn [UTFMax Nat.sub scanStart].
    rewrite !RuneStart_isCont, C1, C2, (lead_not_cont _ E1). cbn [negb].
    cbn [DecodeRuneInString String.length]. rewrite E0, E1, C1, E2, C2, E3, C3.
    cbn [negb].
    decode_cases; try (injection H as _ H; discriminate); try eqb_absurd.
    injection H as <-. reflexivity.
  - exfalso. pose proof (Decode_width (String a0 (String a1 (String a2 (String a3 (String a4 e)))))) as Hw.
    assert (Hw4 : ((DecodeRuneInString
               (String a0 (String a1 (String a2 (String a3 (String a4 e)))))).2 <= 4)%nat).
    { cbn [DecodeRuneInString]. decode_cases; cbn [snd]; lia. }
    rewrite H in Hw4. cbn [snd String.length] in Hw4. lia.
Qed.

(** What [scanStart] returns: the bytes it has passed, then [sub]. *)
Lemma scanStart_spec (n : nat) : forall (before : list ascii) (sub : string),
  exists taken rest,
    before = taken ++ rest
    /\ scanStart n before sub = string_of_list_ascii (rev taken) +:+ sub.
Proof.
  induction n as [|n IH]; intros before sub.
  - destruct before as [|c before]; [exists [], []; auto|].
    exists [c], before. auto.
  - destruct before as [|c before]; [exists [], []; auto|].
    cbn [scanStart]. destruct (RuneStart (byte c)).
    + exists [c], before. auto.
    + destruct (IH before (String c sub)) as (taken & rest & -> & ->).
      exists (c :: taken), rest. split; [reflexivity|].
      cbn [rev]. rewrite string_of_app, sapp_assoc. reflexivity.
Qed.

(** The last rune of a string: either it was decoded from the last bytes,
    or the last byte alone stands for no rune. *)
Lemma DecodeLast_cases (m : string) :
  m <> "" ->
  exists p e,
    m = p +:+ e
    /\ String.length e = (DecodeLastRuneInString m).2
    /\ (encodes e (DecodeLastRuneInString m).1
        \/ ((DecodeLastRuneInString m).1 = RuneError
            /\ exists c, e = String c "" /\ (byte c <? RuneSelf) = false)).
Proof.
  intros Hm. unfold DecodeLastRuneInString.
  destruct (rev (list_ascii_of_string m)) as [|c before] eqn:Hrev.
  { exfalso. apply Hm. apply string_of_rev_bytes in Hrev. exact Hrev. }
  apply string_of_rev_bytes in Hrev. cbn [rev] in Hrev.
  rewrite string_of_app in Hrev. cbn [string_of_list_ascii] in Hrev.
  destruct (byte c <? RuneSelf) eqn:Ec.
  { exists (string_of_list_ascii (rev before)), (String c "").
    split; [exact Hrev|]. split; [reflexivity|]. left.
    unfold encodes. cbn [fst DecodeRuneInString String.length].
    unfold RuneSelf in Ec. rewrite Ec. split; [reflexivity|].
    left. unfold RuneError. apply Z.ltb_lt in Ec. lia. }
  destruct (scanStart_spec (UTFMax - 1) before (String c "")) as (taken & rest & Hb & Hs).
  rewrite Hs.
  set (sub := string_of_list_ascii (rev taken) +:+ String c "").
  destruct (DecodeRuneInString sub) as [r size] eqn:Hd.
  assert (Hlast : exists p, m = p +:+ String c "").
  { eexists. exact Hrev. }
  destruct (size =? String.length sub)%nat eqn:Hsize.
  - apply Nat.eqb_eq in Hsize. cbn [fst snd].
    destruct (decide (r = RuneError /\ (size < 2)%nat)) as [[Hr Hlt]|Hok].
    + (* one byte that encodes nothing *)
      destruct Hlast as (p & Hp). exists p, (String c "").
      split; [exact Hp|].
      assert (Hsub : sub = String c "").
      { unfold sub in *. destruct (rev taken) as [|x l]; [reflexivity|].
        exfalso. cbn [string_of_list_ascii] in Hsize. rewrite sapp_cons in Hsize.
        cbn [String.length] in Hsize. rewrite slength_app in Hsize.
        cbn [String.length] in Hsize. lia. }
      rewrite Hsub in Hsize. cbn [String.length] in Hsize.
      split; [symmetry; exact Hsize|]. right. split; [exact Hr|]. eauto.
    + exists (string_of_list_ascii (rev rest)), sub.
      split.
      { rewrite Hrev, Hb, rev_app_distr, string_of_app, sapp_assoc. reflexivity. }
      split; [symmetry; exact Hsize|].
      left. split; [rewrite <- Hsize; exact Hd|].
      rewrite <- Hsize.
      destruct (decide (r = RuneError)) as [->|Hne]; [|left; exact Hne].
      right. destruct (decide (size < 2)%nat); [exfalso; auto|lia].
  - destruct Hlast as (p & Hp). exists p, (String c "").
    split; [exact Hp|]. split; [reflexivity|]. right. split; [reflexivity|]. eauto.
Qed.


(** ** Runs of white space *)

Lemma Spaces_app (a b : string) : Spaces a -> Spaces b -> Spaces (a +:+ b).
Proof.
  induction 1 as [|e r t He Hr Ht IH]; intros Hb; [exact Hb|].
  rewrite sapp_assoc. econstructor; eauto.
Qed.

Lemma Spaces_one (e : string) (r : Z) : encodes e r -> IsSpace r = true -> Spaces e.
Proof.
  intros He Hr. rewrite <- (sapp_nil_r e). econstructor; eauto. constructor.
Qed.

(** The same runs, read from the end. *)
Lemma Spaces_last (s : string) :
  Spaces s ->
  s = "" \/ exists t e r, s = t +:+ e /\ Spaces t /\ encodes e r /\ IsSpace r = true.
Proof.
  induction 1 as [|e r t He Hr Ht IH]; [left; reflexivity|]. right.
  destruct IH as [->|(t' & e' & r' & -> & Ht' & He' & Hr')].
  - exists "", e, r. rewrite sapp_nil_r.
    split; [reflexivity|]. split; [constructor|]. split; assumption.
  - exists (e +:+ t'), e', r'. rewrite sapp_assoc.
    split; [reflexivity|]. split; [econstructor; eauto|]. split; assumption.
Qed.

Lemma Spaces_rev_ind (P : string -> Prop) :
  P "" ->
  (forall t e r, Spaces t -> encodes e r -> IsSpace r = true -> P t -> P (t +:+ e)) ->
  forall s, Spaces s -> P s.
Proof.
  intros Hnil Hsnoc s.
  remember (String.length s) as n eqn:Hn. revert s Hn.
  induction (lt_wf n) as [n _ IH]. intros s Hn Hs.
  destruct (Spaces_last s Hs) as [->|(t & e & r & -> & Ht & He & Hr)]; [exact Hnil|].
  apply (Hsnoc t e r Ht He Hr). apply (IH (String.length t)); [|reflexivity|exact Ht].
  subst n. rewrite slength_app.
  pose proof (encodes_nonempty e r He). destruct e; [contradiction|cbn; lia].
Qed.

Lemma encodes_length (e : string) (r : Z) : encodes e r -> (1 <= String.length e)%nat.
Proof.
  intros He. pose proof (encodes_nonempty e r He). destruct e; [contradiction|cbn; lia].
Qed.

(** The first byte of a run of white space starts a rune. *)
Lemma encodes_first (e : string) (r : Z) :
  encodes e r -> exists a e', e = String a e' /\ isCont (byte a) = false.
Proof.
  intros [H Hd]. destruct e as [|a e'].
  { cbn in H. injection H as <-. destruct Hd as [Hd|Hd]; [congruence|cbn in Hd; lia]. }
  exists a, e'. split; [reflexivity|].
  cbn [DecodeRuneInString] in H.
  destruct (byte a <? 128) eqn:E0.
  { unfold isCont. apply Z.ltb_lt in E0.
    destruct (128 <=? byte a) eqn:E; [apply Z.leb_le in E; lia|reflexivity]. }
  destruct (byte a <? 192) eqn:E1; [|apply lead_not_cont; exact E1].
  exfalso. injection H as <- Hl. destruct Hd as [Hd|Hd]; [congruence|].
  cbn [String.length] in Hd. lia.
Qed.

(** [allSpace] computes [Spaces]. *)
Lemma allSpaceLoop_Spaces (fuel : nat) : forall s,
  (String.length s <= fuel)%nat -> allSpaceLoop fuel s = true -> Spaces s.
Proof.
  induction fuel as [|fuel IH]; intros s Hlen H.
  - destruct s; [constructor|cbn in Hlen; lia].
  - destruct s as [|a s']; [constructor|].
    set (s := String a s') in *. cbn [allSpaceLoop] in H. fold s in H.
    destruct (DecodeRuneInString s) as [r wid] eqn:Hd.
    apply andb_prop in H as [Hr Hrest].
    destruct (Decode_chunk s r wid Hd (IsSpace_decoded _ _ Hr)) as (e & t & Hs & Hl & He).
    rewrite Hs in Hrest |- *. rewrite <- Hl in Hrest. rewrite slice_suffix in Hrest.
    assert (Henc : encodes e r).
    { split; [rewrite Hl; exact He|]. apply IsSpace_decoded. exact Hr. }
    econstructor; eauto. apply IH; [|exact Hrest].
    pose proof (encodes_length e r Henc).
    rewrite Hs, slength_app in Hlen. lia.
Qed.

Lemma Spaces_allSpaceLoop (s : string) :
  Spaces s -> forall fuel, (String.length s <= fuel)%nat -> allSpaceLoop fuel s = true.
Proof.
  induction 1 as [|e r t He Hr Ht IH]; intros fuel Hlen; [destruct fuel; reflexivity|].
  pose proof (encodes_length e r He) as Hpos.
  rewrite slength_app in Hlen.
  destruct fuel as [|fuel]; [lia|].
  destruct He as [He Hd].
  destruct e as [|a e']; [cbn in Hpos; lia|].
  rewrite sapp_cons. cbn [allSpaceLoop]. rewrite <- sapp_cons.
  rewrite (Decode_prefix _ t r _ He Hd), Hr, slice_suffix. cbn [andb].
  apply IH. lia.
Qed.

Lemma allSpace_Spaces (s : string) : allSpace s = true <-> Spaces s.
Proof.
  split.
  - apply allSpaceLoop_Spaces. lia.
  - intros H. apply Spaces_allSpaceLoop; [exact H|lia].
Qed.

(** A byte that is no rune of its own stays alone before white space. *)
Lemma Decode_before_Spaces (c : ascii) (t : string) :
  (byte c <? RuneSelf) = false -> Spaces t ->
  (DecodeRuneInString (String c t)).2 = 1%nat.
Proof.
  unfold RuneSelf. intros Hc Ht. cbn [DecodeRuneInString]. rewrite Hc.
  destruct (byte c <? 192); [reflexivity|].
  destruct Ht as [|e r t He Hr Ht]; [reflexivity|].
  destruct (encodes_first e r He) as (a & e' & -> & Ha).
  rewrite sapp_cons, Ha. reflexivity.
Qed.


(** ** [TrimLeftFunc] *)

Lemma indexFuncLoop_step (fuel : nat) (p : string) (a : ascii) (q : string)
    (f : Z -> bool) (truth : bool) :
  indexFuncLoop (S fuel) (p +:+ String a q) f truth (String.length p) =
  if Bool.eqb (f (DecodeRuneInString (String a q)).1) truth
  then Z.of_nat (String.length p)
  else indexFuncLoop fuel (p +:+ String a q) f truth
         (String.length p + (DecodeRuneInString (String a q)).2).
Proof.
  cbn [indexFuncLoop].
  assert (Hlt : (String.length p <? String.length (p +:+ String a q))%nat = true).
  { apply Nat.ltb_lt. rewrite slength_app. cbn. lia. }
  rewrite Hlt, byteAt_app, slice_suffix.
  assert (Hfast : (if byte a <? RuneSelf then (byte a, 1%nat)
                   else DecodeRuneInString (String a q))
                  = DecodeRuneInString (String a q)).
  { unfold RuneSelf. cbn [DecodeRuneInString]. destruct (byte a <? 128); reflexivity. }
  rewrite Hfast. destruct (DecodeRuneInString (String a q)) as [r wid]. reflexivity.
Qed.

Lemma indexFuncLoop_end (fuel : nat) (p : string) (f : Z -> bool) (truth : bool) :
  indexFuncLoop fuel (p +:+ "") f truth (String.length p) = -1.
Proof.
  destruct fuel; [reflexivity|]. cbn [indexFuncLoop].
  rewrite sapp_nil_r, Nat.ltb_irrefl. reflexivity.
Qed.

Lemma indexFunc_Spaces (l : string) :
  Spaces l -> forall (p m : string) (fuel : nat),
  startsWithSpace m = false ->
  (String.length l + String.length m <= fuel)%nat ->
  indexFuncLoop fuel (p +:+ l +:+ m) IsSpace false (String.length p)
  = if decide (m = "") then -1
    else Z.of_nat (String.length p + String.length l).
Proof.
  induction 1 as [|e r t He Hr Ht IH]; intros p m fuel Hm Hfuel.
  - rewrite sapp_nil_l. destruct m as [|a m'].
    + rewrite decide_True by reflexivity. apply indexFuncLoop_end.
    + rewrite decide_False by discriminate.
      destruct fuel as [|fuel]; [cbn in Hfuel; lia|].
      rewrite indexFuncLoop_step. unfold startsWithSpace in Hm. rewrite Hm.
      cbn [Bool.eqb String.length]. f_equal. lia.
  - pose proof (encodes_length e r He) as Hpos.
    destruct He as [He Hd]. rewrite slength_app in Hfuel.
    destruct fuel as [|fuel]; [lia|].
    destruct e as [|a e']; [cbn in Hpos; lia|].
    replace (p +:+ (String a e' +:+ t) +:+ m)
      with (p +:+ String a (e' +:+ (t +:+ m)))
      by (rewrite (sapp_assoc (String a e') t m); reflexivity).
    rewrite indexFuncLoop_step.
    change (String a (e' +:+ (t +:+ m))) with (String a e' +:+ (t +:+ m)).
    rewrite (Decode_prefix _ (t +:+ m) r _ He Hd). cbn [fst snd]. rewrite Hr.
    cbn [Bool.eqb].
    rewrite <- slength_app.
    replace (p +:+ String a e' +:+ t +:+ m)
      with ((p +:+ String a e') +:+ t +:+ m)
      by (rewrite !sapp_assoc; reflexivity).
    rewrite IH by (assumption || lia).
    destruct (decide (m = "")); [reflexivity|].
    rewrite !slength_app. f_equal. lia.
Qed.

Lemma TrimLeftFunc_Spaces (l m : string) :
  Spaces l -> startsWithSpace m = false -> TrimLeftFunc (l +:+ m) IsSpace = m.
Proof.
  intros Hl Hm. unfold TrimLeftFunc, indexFunc.
  pose proof (indexFunc_Spaces l Hl "" m (String.length (l +:+ m)) Hm) as H.
  rewrite sapp_nil_l in H. cbn [String.length Nat.add] in H.
  rewrite H by (rewrite slength_app; lia).
  destruct (decide (m = "")) as [->|Hne]; [reflexivity|].
  destruct (Z.of_nat (String.length l) =? -1) eqn:E; [apply Z.eqb_eq in E; lia|].
  rewrite Nat2Z.id. apply slice_suffix.
Qed.

(** ** [TrimRightFunc] *)

Lemma lastIndexFuncLoop_step (fuel : nat) (u rest : string) (f : Z -> bool)
    (truth : bool) :
  u <> "" ->
  lastIndexFuncLoop (S fuel) (u +:+ rest) f truth (String.length u) =
  if Bool.eqb (f (DecodeLastRuneInString u).1) truth
  then Z.of_nat (String.length u - (DecodeLastRuneInString u).2)
  else lastIndexFuncLoop fuel (u +:+ rest) f truth
         (String.length u - (DecodeLastRuneInString u).2).
Proof.
  intros Hu. cbn [lastIndexFuncLoop].
  assert (Hpos : (0 <? String.length u)%nat = true).
  { apply Nat.ltb_lt. destruct u; [contradiction|cbn; lia]. }
  rewrite Hpos, slice_prefix.
  destruct (DecodeLastRuneInString u) as [r size]. reflexivity.
Qed.

Lemma lastIndexFuncLoop_zero (fuel : nat) (s : string) (f : Z -> bool) (truth : bool) :
  lastIndexFuncLoop fuel s f truth 0 = -1.
Proof. destruct fuel; reflexivity. Qed.

Lemma lastIndexFunc_Spaces (t : string) :
  Spaces t -> forall (m rest : string) (fuel : nat),
  endsWithSpace m = false ->
  (String.length m + String.length t <= fuel)%nat ->
  lastIndexFuncLoop fuel ((m +:+ t) +:+ rest) IsSpace false
    (String.length (m +:+ t))
  = if decide (m = "") then -1
    else Z.of_nat (String.length m - (DecodeLastRuneInString m).2).
Proof.
  intros Ht. induction Ht as [|t e r Ht He Hr IH] using Spaces_rev_ind;
    intros m rest fuel Hm Hfuel.
  - rewrite sapp_nil_r. destruct (decide (m = "")) as [->|Hne].
    + apply lastIndexFuncLoop_zero.
    + destruct fuel as [|fuel].
      { destruct m; [contradiction|cbn in Hfuel; lia]. }
      rewrite (lastIndexFuncLoop_step _ _ _ _ _ Hne).
      unfold endsWithSpace in Hm. rewrite Hm. reflexivity.
  - pose proof (encodes_length e r He) as Hpos.
    rewrite slength_app in Hfuel.
    destruct fuel as [|fuel]; [lia|].
    assert (Hne : m +:+ t +:+ e <> "").
    { intros H0. apply (f_equal String.length) in H0.
      rewrite !slength_app in H0. cbn in H0. lia. }
    rewrite (lastIndexFuncLoop_step _ _ _ _ _ Hne).
    replace (m +:+ t +:+ e) with ((m +:+ t) +:+ e) by apply sapp_assoc.
    rewrite (DecodeLast_encodes _ _ _ He). cbn [fst snd]. rewrite Hr. cbn [Bool.eqb].
    replace (String.length ((m +:+ t) +:+ e) - String.length e)%nat
      with (String.length (m +:+ t)) by (rewrite (slength_app (m +:+ t) e); lia).
    rewrite sapp_assoc. apply IH; [exact Hm|lia].
Qed.

Lemma TrimRightFunc_Spaces (m r : string) :
  Spaces r -> endsWithSpace m = false -> TrimRightFunc (m +:+ r) IsSpace = m.
Proof.
  intros Hr Hm. unfold TrimRightFunc, lastIndexFunc.
  pose proof (lastIndexFunc_Spaces r Hr m "" (String.length (m +:+ r)) Hm) as H.
  rewrite sapp_nil_r in H. rewrite H by (rewrite slength_app; lia). clear H.
  destruct (decide (m = "")) as [->|Hne].
  { change (0 <=? -1) with false. cbn [andb].
    change (Z.to_nat (-1 + 1)) with 0%nat. unfold slice. cbn [Nat.sub].
    destruct ("" +:+ r); reflexivity. }
  destruct (DecodeLast_cases m Hne) as (p & e & Hpe & Hlen & Hcase).
  assert (Hi : (String.length m - (DecodeLastRuneInString m).2)%nat = String.length p).
  { rewrite <- Hlen. rewrite Hpe at 1. rewrite slength_app. lia. }
  rewrite Hi, Nat2Z.id.
  assert (Hge : (0 <=? Z.of_nat (String.length p)) = true) by (apply Z.leb_le; lia).
  rewrite Hge. cbn [andb].
  assert (Hs : m +:+ r = p +:+ e +:+ r) by (rewrite Hpe, sapp_assoc; reflexivity).
  assert (HX : (if RuneSelf <=? byteAt (m +:+ r) (String.length p)
                then Z.of_nat (String.length p)
                     + Z.of_nat (DecodeRuneInString
                         (slice (m +:+ r) (String.length p)
                            (String.length (m +:+ r)))).2
                else Z.of_nat (String.length p) + 1)
               = Z.of_nat (String.length (p +:+ e))).
  { rewrite Hs, slice_suffix, slength_app, Nat2Z.inj_add.
    destruct Hcase as [He|(_ & c & -> & Hc)].
    - pose proof (encodes_length _ _ He) as Hpos.
      destruct e as [|a e']; [cbn in Hpos; lia|].
      rewrite sapp_cons, byteAt_app. rewrite <- sapp_cons.
      destruct He as [He Hd].
      rewrite (Decode_prefix _ r _ _ He Hd). cbn [snd].
      destruct (RuneSelf <=? byte a) eqn:Ea; [reflexivity|].
      cbn [DecodeRuneInString] in He.
      unfold RuneSelf in Ea. apply Z.leb_gt in Ea. apply Z.ltb_lt in Ea.
      rewrite Ea in He. injection He as _ He. cbn [String.length].
      rewrite <- He. reflexivity.
    - rewrite sapp_cons, byteAt_app.
      assert (Ec : (RuneSelf <=? byte c) = true).
      { apply Z.leb_le. apply Z.ltb_ge in Hc. exact Hc. }
      rewrite Ec, sapp_nil_l, (Decode_before_Spaces c r Hc Hr). reflexivity. }
  rewrite HX, Nat2Z.id, <- Hpe. apply slice_prefix.
Qed.

(** ** [TrimSpace] *)

Lemma TrimSpace_Spaces (l m r : string) :
  Spaces l -> Spaces r ->
  startsWithSpace (m +:+ r) = false -> endsWithSpace m = false ->
  TrimSpace (l +:+ m +:+ r) = m.
Proof.
  intros Hl Hr Hs He. unfold TrimSpace, TrimFunc.
  rewrite (TrimLeftFunc_Spaces l (m +:+ r) Hl Hs).
  apply TrimRightFunc_Spaces; assumption.
Qed.

(** Every string is white space, then a string that does not start with
    white space. *)
Lemma split_left (s : string) :
  exists l m, s = l +:+ m /\ Spaces l /\ startsWithSpace m = false.
Proof.
  remember (String.length s) as n eqn:Hn. revert s Hn.
  induction (lt_wf n) as [n _ IH]. intros s Hn.
  destruct (startsWithSpace s) eqn:Hs.
  - unfold startsWithSpace in Hs.
    destruct (DecodeRuneInString s) as [r wid] eqn:Hd. cbn [fst] in Hs.
    destruct (Decode_chunk s r wid Hd (IsSpace_decoded _ _ Hs)) as (e & t & -> & Hl & He).
    assert (Henc : encodes e r).
    { split; [rewrite Hl; exact He|]. apply IsSpace_decoded. exact Hs. }
    pose proof (encodes_length e r Henc) as Hpos.
    destruct (IH (String.length t)) with (s := t) as (l & m & -> & Hsp & Hm);
      [subst n; rewrite slength_app; lia|reflexivity|].
    exists (e +:+ l), m. rewrite sapp_assoc. split; [reflexivity|].
    split; [econstructor; eauto|exact Hm].
  - exists "", s. split; [reflexivity|]. split; [constructor|exact Hs].
Qed.

(** Every string is a string that does not end with white space, then
    white space. *)
Lemma split_right (s : string) :
  exists m r, s = m +:+ r /\ Spaces r /\ endsWithSpace m = false.
Proof.
  remember (String.length s) as n eqn:Hn. revert s Hn.
  induction (lt_wf n) as [n _ IH]. intros s Hn.
  destruct (endsWithSpace s) eqn:Hs.
  - assert (Hne : s <> "") by (intros ->; discriminate).
    destruct (DecodeLast_cases s Hne) as (p & e & Hpe & Hlen & Hcase).
    unfold endsWithSpace in Hs.
    destruct Hcase as [He|(Hr & _)]; [|rewrite Hr in Hs; discriminate].
    pose proof (encodes_length e _ He) as Hpos.
    destruct (IH (String.length p)) with (s := p) as (m & r & -> & Hsp & Hm);
      [subst n; rewrite Hpe, slength_app; lia|reflexivity|].
    exists m, (r +:+ e). rewrite Hpe, sapp_assoc. split; [reflexivity|].
    split; [|exact Hm]. apply Spaces_app; [exact Hsp|].
    eapply Spaces_one; eauto.
  - exists s, "". rewrite sapp_nil_r. split; [reflexivity|].
    split; [constructor|exact Hs].
Qed.

Lemma startsWithSpace_prefix (m r : string) :
  startsWithSpace (m +:+ r) = false -> startsWithSpace m = false.
Proof.
  unfold startsWithSpace. intros H.
  destruct (DecodeRuneInString m) as [x n] eqn:Hd. cbn [fst].
  destruct (IsSpace x) eqn:Hx; [|reflexivity].
  rewrite (Decode_prefix m r x n Hd (IsSpace_decoded _ _ Hx)) in H.
  cbn [fst] in H. congruence.
Qed.

(** [TrimSpace] cuts white space off both ends and nothing else. *)
Lemma TrimSpace_split (s : string) :
  exists l r,
    s = l +:+ TrimSpace s +:+ r
    /\ allSpace l = true /\ allSpace r = true
    /\ startsWithSpace (TrimSpace s) = false
    /\ endsWithSpace (TrimSpace s) = false.
Proof.
  destruct (split_left s) as (l & m' & -> & Hl & Hs).
  destruct (split_right m') as (m & r & -> & Hr & He).
  rewrite (TrimSpace_Spaces l m r Hl Hr Hs He).
  exists l, r. split; [reflexivity|].
  split; [apply allSpace_Spaces; exact Hl|].
  split; [apply allSpace_Spaces; exact Hr|].
  split; [exact (startsWithSpace_prefix m r Hs)|exact He].
Qed.


(** ** White space after ASCII text *)

Lemma asciiOnly_app (q : string) (a : ascii) (k : string) :
  asciiOnly (q +:+ String a k) = true -> (byte a <? RuneSelf) = true.
Proof.
  induction q as [|b q IH]; [rewrite sapp_nil_l|rewrite sapp_cons];
    cbn [asciiOnly]; intros H; apply andb_prop in H as [H1 H2]; auto.
Qed.

(** Whether a string ends with white space does not depend on ASCII text
    before it. *)
Lemma endsWithSpace_after_ascii (p m : string) :
  asciiOnly p = true -> m <> "" ->
  endsWithSpace m = false -> endsWithSpace (p +:+ m) = false.
Proof.
  intros Hp Hm He.
  destruct (endsWithSpace (p +:+ m)) eqn:Hs; [exfalso|reflexivity].
  assert (Hne : p +:+ m <> "").
  { intros H0. apply (f_equal String.length) in H0. rewrite slength_app in H0.
    destruct m; [contradiction|cbn in H0; lia]. }
  destruct (DecodeLast_cases _ Hne) as (q & e & Hqe & Hlen & Hcase).
  unfold endsWithSpace in Hs, He.
  destruct Hcase as [Henc|(Hr & _)]; [|rewrite Hr in Hs; discriminate].
  destruct (sapp_eq_app _ _ _ _ Hqe) as [(k & -> & ->)|(k & a & -> & ->)].
  - rewrite (DecodeLast_encodes k e _ Henc) in He. cbn [fst] in He. congruence.
  - pose proof (asciiOnly_app _ _ _ Hp) as Ha.
    destruct Henc as [Hd _]. rewrite !sapp_cons in Hd.
    cbn [DecodeRuneInString String.length] in Hd. unfold RuneSelf in Ha.
    rewrite Ha in Hd. injection Hd as _ Hd. rewrite slength_app in Hd.
    destruct m; [contradiction|cbn in Hd; lia].
Qed.

End StringsFacts.

(** * Further properties of the hook package *)

Module HookMore.
Import Strings Hook HookFacts StringsFacts.

(** ** Commands with a JSON answer *)

Lemma run_result ctxt cmd args t :
  (run ctxt cmd args t).1 = (run ctxt cmd args []).1.
Proof.
  unfold run. destruct (jujucClient ctxt _) as [[err|] resp]; [reflexivity|].
  destruct (Code resp =? 0); reflexivity.
Qed.

Lemma run_commands ctxt cmd args t :
  commands (run ctxt cmd args t).2 = commands t ++ [request ctxt cmd args].
Proof. rewrite run_trace, commands_app. reflexivity. Qed.

Lemma runJson_result {A} (um : string -> A + string) ty ctxt cmd args t :
  (runJson um ty ctxt cmd args t).1 = (runJson um ty ctxt cmd args []).1.
Proof.
  unfold runJson. pose proof (run_result ctxt cmd args t) as H.
  destruct (run ctxt cmd args t) as [[out|err] t'],
           (run ctxt cmd args []) as [[out0|err0] t0]; cbn in H; try discriminate;
    injection H as ->; [destruct (um out0)|]; reflexivity.
Qed.

Lemma runJson_commands {A} (um : string -> A + string) ty ctxt cmd args t :
  commands (runJson um ty ctxt cmd args t).2
  = commands t ++ [request ctxt cmd args].
Proof.
  unfold runJson. pose proof (run_commands ctxt cmd args t) as H.
  destruct (run ctxt cmd args t) as [[out|err] t']; cbn in H |- *;
    [destruct (um out)|]; exact H.
Qed.

(** The loop of [AllRelationUnits]. *)
Lemma allUnitsLoop_spec um ctxt ids : forall acc t,
  let r := allUnitsLoop um ctxt ids acc t in
  match r.1 with
  | inl m =>
      (forall id, id ∈ ids ->
         exists us, unitsAnswer um ctxt id = inl us /\ m !! id = Some us)
      /\ (forall id, id ∉ ids -> m !! id = acc !! id)
      /\ commands r.2 = commands t ++ (relationListRequest ctxt <$> ids)
  | inr err =>
      exists (k : nat) id e,
        ids !! k = Some id
        /\ unitsAnswer um ctxt id = inr e
        /\ err = "cannot get relation units for id " +:+ quote id +:+ ": " +:+ e
        /\ (forall (j : nat) id', (j < k)%nat -> ids !! j = Some id' ->
              exists us, unitsAnswer um ctxt id' = inl us)
        /\ commands r.2
           = commands t ++ (relationListRequest ctxt <$> take (S k) ids)
  end.
Proof.
  induction ids as [|id ids IH]; intros acc t; cbn zeta.
  - cbn [allUnitsLoop fst snd fmap list_fmap]. rewrite app_nil_r.
    repeat split. intros id Hin. apply elem_of_nil in Hin. contradiction.
  - cbn [allUnitsLoop].
    pose proof (runJson_result um "*[]string" ctxt "relation-list"
                  ["--format"; "json"; "--"; id] t) as Hres.
    pose proof (runJson_commands um "*[]string" ctxt "relation-list"
                  ["--format"; "json"; "--"; id] t) as Hcmd.
    fold (RelationUnits um ctxt id t) in Hres, Hcmd.
    fold (RelationUnits um ctxt id []) in Hres.
    fold (unitsAnswer um ctxt id) in Hres.
    fold (relationListRequest ctxt id) in Hcmd.
    destruct (RelationUnits um ctxt id t) as [[units|err] t']; cbn [fst snd] in Hres, Hcmd.
    + specialize (IH (<[id := units]> acc) t'). cbn zeta in IH.
      destruct (allUnitsLoop um ctxt ids (<[id := units]> acc) t') as [[m|err] t2];
        cbn [fst snd] in IH |- *.
      * destruct IH as (Hin & Hout & Hc). split; [|split].
        -- intros id' Hid'. destruct (decide (id' ∈ ids)) as [Hd|Hd]; [auto|].
           apply elem_of_cons in Hid' as [->|?]; [|contradiction].
           exists units. split; [symmetry; exact Hres|].
           rewrite (Hout id Hd). apply lookup_insert_eq.
        -- intros id' Hid'. apply not_elem_of_cons in Hid' as [Hne Hid'].
           rewrite (Hout id' Hid'). apply lookup_insert_ne. congruence.
        -- rewrite Hc, Hcmd, <- app_assoc. reflexivity.
      * destruct IH as (k & id' & e & Hk & Ha & -> & Hbefore & Hc).
        exists (S k), id', e. split; [exact Hk|]. split; [exact Ha|].
        split; [reflexivity|]. split.
        -- intros [|j] id2 Hj Hl; cbn in Hl.
           ++ injection Hl as <-. eauto.
           ++ apply (Hbefore j id2); [lia|exact Hl].
        -- rewrite Hc, Hcmd, <- app_assoc. reflexivity.
    + exists 0%nat, id, err. split; [reflexivity|]. split; [symmetry; exact Hres|].
      split; [reflexivity|]. split; [intros j id' Hj; lia|].
      cbn [fst snd take fmap list_fmap]. exact Hcmd.
Qed.

(** X12. [AllRelationUnits] asks for the ids of the relation and then,
    id by id in their order, for the units.  When the first command fails it
    stops with "cannot get relation ids" after that one command.  When all
    commands succeed, the map has exactly the ids as keys, each with the
    units the agent lists for it, and one command was sent per id.  When the
    units of an id cannot be got, it stops there: the error names that id,
    the earlier ids were answered, and no command was sent for a later
    one. *)
Theorem AllRelationUnits_commands (um : string -> list string + string)
    (ctxt : Context) (relationName : string) (t : Trace) :
  let r := AllRelationUnits um ctxt relationName t in
  match (RelationIds um ctxt relationName t).1 with
  | inr e =>
      r.1 = inr ("cannot get relation ids: " +:+ e)
      /\ commands r.2 = commands t ++ [relationIdsRequest ctxt relationName]
  | inl ids =>
      match r.1 with
      | inl m =>
          (forall id, is_Some (m !! id) <-> id ∈ ids)
          /\ (forall id us, m !! id = Some us -> unitsAnswer um ctxt id = inl us)
          /\ commands r.2
             = commands t ++ relationIdsRequest ctxt relationName
                 :: (relationListRequest ctxt <$> ids)
      | inr err =>
          exists (k : nat) id e,
            ids !! k = Some id
            /\ unitsAnswer um ctxt id = inr e
            /\ err = "cannot get relation units for id " +:+ quote id
                     +:+ ": " +:+ e
            /\ (forall (j : nat) id', (j < k)%nat -> ids !! j = Some id' ->
                  exists us, unitsAnswer um ctxt id' = inl us)
            /\ commands r.2
               = commands t ++ relationIdsRequest ctxt relationName
                   :: (relationListRequest ctxt <$> take (S k) ids)
      end
  end.
Proof.
  cbn zeta. unfold AllRelationUnits.
  pose proof (runJson_commands um "*[]string" ctxt "relation-ids"
                ["--format"; "json"; "--"; relationName] t) as Hcmd.
  fold (RelationIds um ctxt relationName t) in Hcmd.
  fold (relationIdsRequest ctxt relationName) in Hcmd.
  destruct (RelationIds um ctxt relationName t) as [[ids|e] t']; cbn [fst snd] in Hcmd |- *;
    [|split; [reflexivity|exact Hcmd]].
  pose proof (allUnitsLoop_spec um ctxt ids ∅ t') as Hloop. cbn zeta in Hloop.
  destruct (allUnitsLoop um ctxt ids ∅ t') as [[m|err] t2]; cbn [fst snd] in Hloop |- *.
  - destruct Hloop as (Hin & Hout & Hc). split; [|split].
    + intros id. split.
      * intros Hsome. destruct (decide (id ∈ ids)) as [|Hn]; [assumption|].
        rewrite (Hout id Hn), lookup_empty in Hsome. destruct Hsome. discriminate.
      * intros Hid. destruct (Hin id Hid) as (us & _ & ->). eauto.
    + intros id us Hm. destruct (decide (id ∈ ids)) as [Hid|Hn].
      * destruct (Hin id Hid) as (us' & Ha & Hm'). congruence.
      * rewrite (Hout id Hn), lookup_empty in Hm. discriminate.
    + rewrite Hc, Hcmd, <- app_assoc. reflexivity.
  - destruct Hloop as (k & id & e & Hk & Ha & -> & Hbefore & Hc).
    exists k, id, e. repeat (split; [assumption || reflexivity|]).
    rewrite Hc, Hcmd, <- app_assoc. reflexivity.
Qed.

(** ** Addresses *)

Lemma str_app_cons (a : ascii) (p q : string) :
  String a p +:+ q = String a (p +:+ q).
Proof. reflexivity. Qed.

Lemma str_app_nil_r (s : string) : s +:+ "" = s.
Proof.
  induction s as [|a s IH]; [reflexivity|]. rewrite str_app_cons, IH. reflexivity.
Qed.

(** X13. [PublicAddress] and [PrivateAddress] ask [unit-get] for their
    key, once.  The address they return is the output of the command with
    the white space at both ends cut off, and nothing else: what is cut off
    is made of white-space runes only (those of [unicode.IsSpace], read as
    UTF-8), and the first and the last rune of the address are not white
    space; when the command fails, its error is returned. *)
Theorem address_is_trimmed_output (ctxt : Context) (t : Trace) :
  (commands (PublicAddress ctxt t).2
   = commands t ++ [request ctxt "unit-get" ["public-address"]]
   /\ match (PublicAddress ctxt t).1 with
      | inl addr =>
          exists out l r,
            (run ctxt "unit-get" ["public-address"] t).1 = inl out
            /\ out = l +:+ addr +:+ r
            /\ allSpace l = true /\ allSpace r = true
            /\ startsWithSpace addr = false /\ endsWithSpace addr = false
      | inr err => (run ctxt "unit-get" ["public-address"] t).1 = inr err
      end)
  /\ (commands (PrivateAddress ctxt t).2
      = commands t ++ [request ctxt "unit-get" ["private-address"]]
      /\ match (PrivateAddress ctxt t).1 with
         | inl addr =>
             exists out l r,
               (run ctxt "unit-get" ["private-address"] t).1 = inl out
               /\ out = l +:+ addr +:+ r
               /\ allSpace l = true /\ allSpace r = true
               /\ startsWithSpace addr = false /\ endsWithSpace addr = false
         | inr err => (run ctxt "unit-get" ["private-address"] t).1 = inr err
         end).
Proof.
  unfold PublicAddress, PrivateAddress. split.
  - pose proof (run_commands ctxt "unit-get" ["public-address"] t) as Hc.
    destruct (run ctxt "unit-get" ["public-address"] t) as [[out|err] t'];
      cbn [fst snd] in Hc |- *; (split; [exact Hc|]); [|reflexivity].
    destruct (TrimSpace_split out) as (l & r & H). exists out, l, r. auto.
  - pose proof (run_commands ctxt "unit-get" ["private-address"] t) as Hc.
    destruct (run ctxt "unit-get" ["private-address"] t) as [[out|err] t'];
      cbn [fst snd] in Hc |- *; (split; [exact Hc|]); [|reflexivity].
    destruct (TrimSpace_split out) as (l & r & H). exists out, l, r. auto.
Qed.

(** ** Ports *)

Lemma pretty_N_go_noSlash (x : N) : forall s,
  noSlash s = true -> noSlash (pretty_N_go x s) = true.
Proof.
  induction (N.lt_wf_0 x) as [x _ IH]. intros s Hs.
  destruct (decide (0 < x)%N) as [Hx|Hx].
  - rewrite pretty_N_go_step by exact Hx. apply IH.
    + apply N.div_lt; lia.
    + cbn [noSlash]. rewrite Hs, andb_true_r.
      unfold pretty_N_char. repeat case_match; reflexivity.
  - assert (x = 0%N) as -> by lia. rewrite pretty_N_go_0. exact Hs.
Qed.

Lemma pretty_Z_noSlash (z : Z) : noSlash (pretty z) = true.
Proof.
  assert (HN : forall n : N, noSlash (pretty n) = true).
  { intros n. unfold pretty, pretty_N. case_decide; [reflexivity|].
    apply pretty_N_go_noSlash. reflexivity. }
  destruct z as [|p|p].
  - reflexivity.
  - exact (HN (Npos p)).
  - change (noSlash ("-" +:+ pretty (Npos p)) = true).
    rewrite str_app_cons. cbn [noSlash]. exact (HN (Npos p)).
Qed.

Lemma slash_split (a b x y : string) :
  noSlash a = true -> noSlash b = true ->
  a +:+ "/" +:+ x = b +:+ "/" +:+ y -> a = b /\ x = y.
Proof.
  revert b. induction a as [|c a IH]; intros [|d b] Ha Hb Heq.
  - injection Heq as Heq. change (x = y) in Heq. subst y. auto.
  - rewrite str_app_cons in Heq. injection Heq as Hd _. subst d.
    cbn in Hb. discriminate.
  - rewrite str_app_cons in Heq. injection Heq as Hc _. subst c.
    cbn in Ha. discriminate.
  - rewrite !str_app_cons in Heq. injection Heq as -> Heq.
    cbn in Ha, Hb. apply andb_prop in Ha as [_ Ha]. apply andb_prop in Hb as [_ Hb].
    destruct (IH b Ha Hb Heq) as [-> ->]. auto.
Qed.

(** X14. [OpenPort] and [ClosePort] send one command each, [open-port]
    and [close-port], with the same single argument [port/proto]; and the
    argument names the port and the protocol without ambiguity: two calls of
    [OpenPort] send the same command only for the same port and protocol. *)
Theorem port_argument_unambiguous (ctxt : Context) (t : Trace)
    (proto1 proto2 : string) (port1 port2 : Z) :
  commands (OpenPort ctxt proto1 port1 t).2
  = commands t ++ [request ctxt "open-port" [portArg proto1 port1]]
  /\ commands (ClosePort ctxt proto1 port1 t).2
     = commands t ++ [request ctxt "close-port" [portArg proto1 port1]]
  /\ (commands (OpenPort ctxt proto1 port1 t).2
      = commands (OpenPort ctxt proto2 port2 t).2 ->
      port1 = port2 /\ proto1 = proto2).
Proof.
  assert (Ho : forall proto port,
            commands (OpenPort ctxt proto port t).2
            = commands t ++ [request ctxt "open-port" [portArg proto port]]).
  { intros proto port. unfold OpenPort.
    pose proof (run_commands ctxt "open-port" [portArg proto port] t) as Hc.
    destruct (run ctxt "open-port" [portArg proto port] t) as [[out|err] t'];
      exact Hc. }
  split; [apply Ho|]. split.
  - unfold ClosePort.
    pose proof (run_commands ctxt "close-port" [portArg proto1 port1] t) as Hc.
    destruct (run ctxt "close-port" [portArg proto1 port1] t) as [[out|err] t'];
      exact Hc.
  - rewrite !Ho. intros Heq. apply app_inv_head in Heq.
    injection Heq as Heq. unfold portArg in Heq.
    apply slash_split in Heq as [Hp Hq]; try apply pretty_Z_noSlash.
    split; [|exact Hq]. apply (inj pretty). exact Hp.
Qed.

(** ** The error of a failed command *)

Lemma str_length_app (p s : string) :
  String.length (p +:+ s) = (String.length p + String.length s)%nat.
Proof.
  induction p as [|a p IH]; [reflexivity|].
  rewrite str_app_cons. cbn. rewrite IH. reflexivity.
Qed.

Lemma substring_whole (s : string) : String.substring 0 (String.length s) s = s.
Proof. induction s as [|a s IH]; [reflexivity|]. cbn. rewrite IH. reflexivity. Qed.

(** X15. [run] gives back the message of a failed command: when the
    agent answers with a non-zero code and writes [error: msg] on its error
    stream, with white space (of any kind Unicode knows) around it, the error
    [run] returns is [msg], for a message that is not empty and whose last
    rune is not white space. *)
Theorem run_error_message (ctxt : Context) (cmd : string) (args : list string)
    (t : Trace) (resp : Response) (l msg r : string) :
  jujucClient ctxt (request ctxt cmd args) = (None, resp) ->
  Code resp <> 0 ->
  Stderr resp = l +:+ "error: " +:+ msg +:+ r ->
  allSpace l = true -> allSpace r = true ->
  msg <> "" -> endsWithSpace msg = false ->
  (run ctxt cmd args t).1 = inr msg.
Proof.
  intros Hcall Hcode Herr Hl Hr Hmsg Hend.
  unfold run. fold (request ctxt cmd args). rewrite Hcall.
  apply Z.eqb_neq in Hcode. rewrite Hcode. cbn [fst]. f_equal.
  assert (Htrim : TrimSpace (Stderr resp) = "error: " +:+ msg).
  { rewrite Herr.
    replace (l +:+ "error: " +:+ msg +:+ r) with (l +:+ ("error: " +:+ msg) +:+ r)
      by (rewrite (sapp_assoc "error: " msg r); reflexivity).
    apply TrimSpace_Spaces.
    - apply allSpace_Spaces. exact Hl.
    - apply allSpace_Spaces. exact Hr.
    - reflexivity.
    - apply endsWithSpace_after_ascii; [reflexivity|exact Hmsg|exact Hend]. }
  rewrite Htrim.
  assert (Hp : HasPrefix ("error: " +:+ msg) "error: " = true).
  { unfold HasPrefix. cbn. destruct msg; reflexivity. }
  rewrite Hp. unfold slice. rewrite str_length_app. cbn [String.length].
  replace (7 + String.length msg - 7)%nat with (String.length msg) by lia.
  cbn. apply substring_whole.
Qed.

Lemma run_error_message_witness :
  jujucClient failingContext (request failingContext "relation-ids" ["db"])
  = (None, mkResponse 1 "" (" error: no such relation" +:+ nbsp +:+ newline))
  /\ Code (mkResponse 1 "" (" error: no such relation" +:+ nbsp +:+ newline)) <> 0
  /\ Stderr (mkResponse 1 "" (" error: no such relation" +:+ nbsp +:+ newline))
     = " " +:+ "error: " +:+ "no such relation" +:+ (nbsp +:+ newline)
  /\ allSpace " " = true /\ allSpace (nbsp +:+ newline) = true
  /\ "no such relation" <> "" /\ endsWithSpace "no such relation" = false
  /\ (run failingContext "relation-ids" ["db"] []).1 = inr "no such relation".
Proof.
  repeat (split; [first [reflexivity|discriminate]|]).
  apply (run_error_message failingContext "relation-ids" ["db"] []
           (mkResponse 1 "" (" error: no such relation" +:+ nbsp +:+ newline))
           " " "no such relation" (nbsp +:+ newline));
    first [reflexivity|discriminate].
Defined.

Lemma port_argument_unambiguous_witness :
  commands (OpenPort sampleContext "tcp" 80 []).2
  = commands (OpenPort sampleContext "tcp" 80 []).2
  /\ 80 = 80 /\ "tcp" = "tcp".
Proof.
  split; [reflexivity|].
  exact (proj2 (proj2 (port_argument_unambiguous sampleContext [] "tcp" "tcp"
                         80 80)) eq_refl).
Defined.

End HookMore.

(** * Further properties of the gocharm command *)

Module GocharmMore.
Import Strings Gocharm GocharmFacts.

(** ** More on [setenv] *)

Lemma Index_none_iff (entry : string) :
  Index entry "=" = None <-> isName entry = true.
Proof.
  unfold Index. induction entry as [|a entry IH]; [split; reflexivity|].
  rewrite index_cons, prefix_cons. cbn [isName].
  destruct (ascii_dec "=" a) as [<-|Hne].
  - rewrite prefix_empty. cbn. split; discriminate.
  - assert (Ha : Ascii.eqb a "=" = false)
      by (apply Ascii.eqb_neq; congruence).
    rewrite Ha. cbn. rewrite <- IH.
    destruct (String.index 0 "=" entry); split; congruence.
Qed.

(** X1. [setenv] panics exactly on an entry without [=]; the environment
    plays no part in it. *)
Theorem setenv_panics_iff (env : list string) (entry : string) :
  setenv env entry = None <-> isName entry = true.
Proof.
  rewrite <- Index_none_iff. unfold setenv.
  destruct (Index entry "=") as [i|]; [|split; reflexivity].
  destruct (replaceFirst _ _ env); split; discriminate.
Qed.

Lemma replaceFirst_insert (prefix entry : string) (env : list string) :
  forall (i : nat) (e : string),
    env !! i = Some e -> HasPrefix e prefix = true ->
    (forall (j : nat) e', (j < i)%nat -> env !! j = Some e' -> HasPrefix e' prefix = false) ->
    replaceFirst prefix entry env = Some (<[i := entry]> env).
Proof.
  induction env as [|x env IH]; intros i e Hi He Hbefore.
  - rewrite lookup_nil in Hi. discriminate.
  - destruct i as [|i]; cbn in Hi |- *.
    + injection Hi as ->. rewrite He. reflexivity.
    + rewrite (Hbefore 0%nat x) by (reflexivity || lia).
      rewrite (IH i e Hi He); [reflexivity|].
      intros j e' Hj Hl. apply (Hbefore (S j) e'); [lia|exact Hl].
Qed.

Lemma replaceFirst_none (prefix entry : string) (env : list string) :
  (forall e, e ∈ env -> HasPrefix e prefix = false) ->
  replaceFirst prefix entry env = None.
Proof.
  induction env as [|x env IH]; intros Hall; [reflexivity|].
  cbn. rewrite (Hall x) by left. rewrite IH; [reflexivity|].
  intros e He. apply Hall. right. exact He.
Qed.

(** X2. [setenv] of [name=value] overwrites in place the first entry of
    the variable and touches no other position; when the variable has no
    entry, the new entry is appended. *)
Theorem setenv_in_place (env : list string) (name value : string) :
  isName name = true ->
  (forall (i : nat) e,
     env !! i = Some e -> isFor name e = true ->
     (forall (j : nat) e', (j < i)%nat -> env !! j = Some e' -> isFor name e' = false) ->
     setenv env (name +:+ "=" +:+ value)
     = Some (<[i := name +:+ "=" +:+ value]> env))
  /\ ((forall e, e ∈ env -> isFor name e = false) ->
      setenv env (name +:+ "=" +:+ value)
      = Some (env ++ [name +:+ "=" +:+ value])).
Proof.
  intros Hname. rewrite (setenv_entry _ _ _ Hname). split.
  - intros i e Hi He Hbefore.
    rewrite (replaceFirst_insert _ _ _ i e Hi He Hbefore). reflexivity.
  - intros Hall. rewrite replaceFirst_none by exact Hall. reflexivity.
Qed.

Lemma replaceFirst_twice (prefix e1 e2 : string) (env : list string) :
  HasPrefix e1 prefix = true ->
  match replaceFirst prefix e1 env with
  | Some env' =>
      replaceFirst prefix e2 env' = replaceFirst prefix e2 env
      /\ is_Some (replaceFirst prefix e2 env)
  | None => replaceFirst prefix e2 env = None
  end.
Proof.
  intros H1. induction env as [|x env IH]; [reflexivity|].
  cbn. destruct (HasPrefix x prefix) eqn:Hx.
  - cbn. rewrite H1. eauto.
  - destruct (replaceFirst prefix e1 env) as [env'|].
    + cbn. rewrite Hx. destruct IH as [-> [env2 ->]]. eauto.
    + rewrite IH. reflexivity.
Qed.

Lemma replaceFirst_app_last (prefix e1 e2 : string) (env : list string) :
  replaceFirst prefix e1 env = None -> HasPrefix e1 prefix = true ->
  replaceFirst prefix e2 (env ++ [e1]) = Some (env ++ [e2]).
Proof.
  intros Hnone H1. induction env as [|x env IH].
  - cbn. rewrite H1. reflexivity.
  - cbn in Hnone |- *. destruct (HasPrefix x prefix); [discriminate|].
    destruct (replaceFirst prefix e1 env); [discriminate|].
    rewrite IH; reflexivity.
Qed.

(** X3. The last write wins: setting a variable twice is setting it to
    the second value, in the same place. *)
Theorem setenv_last_write_wins (env : list string) (name v1 v2 : string) :
  isName name = true ->
  setenv env (name +:+ "=" +:+ v1)
    ≫= (fun env' => setenv env' (name +:+ "=" +:+ v2))
  = setenv env (name +:+ "=" +:+ v2).
Proof.
  intros Hname. rewrite !(setenv_entry _ _ _ Hname). cbn [mbind option_bind].
  rewrite (setenv_entry _ _ _ Hname).
  pose proof (replaceFirst_twice (name +:+ "=") (name +:+ "=" +:+ v1)
                (name +:+ "=" +:+ v2) env (isFor_entry name v1)) as Htw.
  destruct (replaceFirst (name +:+ "=") (name +:+ "=" +:+ v1) env) as [env'|] eqn:H1.
  - destruct Htw as [-> [env2 ->]]. reflexivity.
  - rewrite Htw. rewrite (replaceFirst_app_last _ _ _ _ H1 (isFor_entry name v1)).
    reflexivity.
Qed.

Lemma setenv_in_place_witness :
  isName "GOOS" = true
  /\ setenv ["HOME=/root"; "GOOS=darwin"; "GOPATH=/usr/share/go"]
       ("GOOS" +:+ "=" +:+ "linux")
     = Some ["HOME=/root"; "GOOS=linux"; "GOPATH=/usr/share/go"].
Proof.
  split; [reflexivity|].
  apply (proj1 (setenv_in_place ["HOME=/root"; "GOOS=darwin"; "GOPATH=/usr/share/go"]
                  "GOOS" "linux" eq_refl) 1%nat "GOOS=darwin");
    [reflexivity|reflexivity|].
  intros [|j] e' Hj Hl; [injection Hl as <-; reflexivity|lia].
Defined.

Lemma setenv_last_write_wins_witness :
  isName "GOARCH" = true
  /\ setenv ["HOME=/root"] ("GOARCH" +:+ "=" +:+ "386")
       ≫= (fun env' => setenv env' ("GOARCH" +:+ "=" +:+ "amd64"))
     = Some ["HOME=/root"; "GOARCH=amd64"].
Proof.
  split; [reflexivity|].
  rewrite (setenv_last_write_wins ["HOME=/root"] "GOARCH" "386" "amd64" eq_refl).
  reflexivity.
Defined.

(** ** The first loop of [main] *)

Lemma errorf_all_fields (msgs : list string) (s : State) :
  let s' := foldl (fun st m => errorf m st) s msgs in
  stderr s' = stderr s ++ (Failure <$> msgs)
  /\ exitCode s' = (if msgs is [] then exitCode s else 1)
  /\ stdout s' = stdout s /\ revisions s' = revisions s
  /\ files s' = files s /\ calls s' = calls s.
Proof.
  revert s. induction msgs as [|m msgs IH]; intros s; cbn zeta.
  - cbn. rewrite app_nil_r. repeat split.
  - cbn [foldl]. specialize (IH (errorf m s)). cbn zeta in IH.
    destruct IH as (H1 & H2 & H3 & H4 & H5 & H6).
    rewrite H1, H2, H3, H4, H5, H6. cbn. rewrite <- app_assoc.
    repeat split. destruct msgs; reflexivity.
Qed.

Lemma readDirs_omap w paths : forall dirs s,
  readDirs w paths dirs s
  = (dirs ++ omap (readOk w s) paths,
     foldl (fun st m => errorf m st) s (omap (readError w) paths)).
Proof.
  induction paths as [|p paths IH]; intros dirs s.
  - cbn. rewrite app_nil_r. reflexivity.
  - cbn [readDirs omap list_omap]. unfold readOk at 1, readError at 1, ReadDir.
    destruct (readMeta w (filepath_Dir p)) as [e|name].
    + rewrite IH. reflexivity.
    + rewrite IH, <- app_assoc. reflexivity.
Qed.

(** X4. The first loop of [main] reads every directory once, in the
    order of the paths: the charms it hands on are exactly the readable
    ones, each with the revision it has on disk; each unreadable one costs
    one error line, in the same order, and the exit code 1; nothing else
    changes. *)
Theorem readDirs_reads_in_order (w : World) (paths : list path) (s : State) :
  let r := readDirs w paths [] s in
  r.1 = omap (readOk w s) paths
  /\ Forall (fun d => Revision d = diskRevision s (Path d)) r.1
  /\ stderr r.2 = stderr s ++ (Failure <$> omap (readError w) paths)
  /\ exitCode r.2 = (if omap (readError w) paths is [] then exitCode s else 1)
  /\ (length r.1 + length (omap (readError w) paths) = length paths)%nat
  /\ stdout r.2 = stdout s /\ revisions r.2 = revisions s
  /\ files r.2 = files s /\ calls r.2 = calls s.
Proof.
  cbn zeta. rewrite readDirs_omap. cbn [fst snd app].
  destruct (errorf_all_fields (omap (readError w) paths) s)
    as (H1 & H2 & H3 & H4 & H5 & H6).
  split; [reflexivity|]. split.
  { apply Forall_forall. intros d Hd. apply list_elem_of_omap in Hd as (p & _ & Hp).
    unfold readOk, ReadDir in Hp.
    destruct (readMeta w (filepath_Dir p)); [discriminate|].
    injection Hp as <-. reflexivity. }
  repeat (split; [assumption|]). split; [|auto].
  clear. induction paths as [|p paths IH]; [reflexivity|].
  cbn [omap list_omap]. unfold readOk at 1, readError at 1, ReadDir.
  destruct (readMeta w (filepath_Dir p)); cbn [length]; lia.
Qed.

(** ** The exit status *)

(** The diagnostics one turn of the second loop adds, and the exit code
    after it. *)
Lemma processCharm_diag fl w dir s s' :
  processCharm fl w dir s = Some s' ->
  exists ds,
    stderr s' = stderr s ++ ds
    /\ exitCode s' = (if existsb isFailure ds then 1 else exitCode s).
Proof.
  unfold processCharm.
  destruct (isGoCharm w dir) as [[|] [e|]].
  - intros [= <-]. eexists [_]. split; reflexivity.
  - fold (started fl dir s).
    destruct (processGoCharm_effect fl w dir (started fl dir s))
      as (d & err & sp & Hp & He & _ & _ & (ws & Hs & Hq) & _).
    assert (Hst : exists l, stderr (started fl dir s) = stderr s ++ l
                            /\ existsb isFailure l = false
                            /\ exitCode (started fl dir s) = exitCode s).
    { unfold started. destruct (verbose fl).
      - eexists [_]. repeat split.
      - exists []. rewrite app_nil_r. repeat split. }
    destruct Hst as (l & Hl & Hlf & Hle).
    rewrite Hp. cbn [mbind option_bind].
    destruct err as [e|].
    { intros [= <-]. eexists (l ++ ws ++ [_; _]).
      cbn. rewrite Hs, Hl, <- !app_assoc. split; [reflexivity|].
      rewrite !existsb_app, Hlf, Hq. reflexivity. }
    destruct d.
    + unfold SetDiskRevision. destruct (writeRevision w (Path dir)); intros [= <-].
      * eexists (l ++ ws ++ [_]).
        cbn. rewrite Hs, Hl, <- !app_assoc. split; [reflexivity|].
        rewrite !existsb_app, Hlf, Hq. reflexivity.
      * exists (l ++ ws).
        cbn. rewrite Hs, Hl, <- !app_assoc. split; [reflexivity|].
        rewrite !existsb_app, Hlf, Hq. cbn. congruence.
    + intros [= <-]. exists (l ++ ws).
      rewrite Hs, Hl, <- !app_assoc. split; [reflexivity|].
      rewrite !existsb_app, Hlf, Hq. cbn. congruence.
  - intros [= <-]. eexists [_]. split; reflexivity.
  - intros [= <-]. destruct (verbose fl).
    + eexists [_]. split; reflexivity.
    + exists []. rewrite app_nil_r. split; reflexivity.
Qed.

Lemma processAll_diag fl w ds : forall s s',
  processAll fl w ds s = Some s' ->
  exists l,
    stderr s' = stderr s ++ l
    /\ exitCode s' = (if existsb isFailure l then 1 else exitCode s).
Proof.
  induction ds as [|d ds IH]; intros s s' H.
  - injection H as <-. exists []. rewrite app_nil_r. split; reflexivity.
  - cbn in H. destruct (processCharm fl w d s) as [s1|] eqn:H1; [|discriminate].
    cbn in H. destruct (processCharm_diag _ _ _ _ _ H1) as (l1 & Hl1 & He1).
    destruct (IH _ _ H) as (l2 & Hl2 & He2).
    exists (l1 ++ l2). rewrite Hl2, Hl1, <- app_assoc. split; [reflexivity|].
    rewrite existsb_app, He2, He1.
    destruct (existsb isFailure l1), (existsb isFailure l2); reflexivity.
Qed.

Lemma existsb_failure_iff (l : list Diag) :
  existsb isFailure l = true <-> exists msg, Failure msg ∈ l.
Proof.
  rewrite List.existsb_exists. split.
  - intros ([m| m| m| e| m] & Hin & Hf); try discriminate.
    exists m. apply list_elem_of_In. exact Hin.
  - intros (m & Hin). exists (Failure m). split; [|reflexivity].
    apply list_elem_of_In. exact Hin.
Qed.

(** X5. A run that gets past the configuration checks exits with status
    1 exactly when an error line ([errorf]) is on the diagnostic stream, and
    with status 0 otherwise; warnings and log lines never change the
    status. *)
Theorem exit_status_one_iff_error (fl : Flags) (w : World)
    (revs : gmap (list string) Z) (fs : gmap (list string) string) :
  resolvedRepo fl w <> "" -> Glob w [resolvedRepo fl w] <> [] ->
  exists code sf,
    main fl w (initial revs fs) = Some (code, sf)
    /\ (code = 1 <-> exists msg, Failure msg ∈ stderr sf)
    /\ (code = 0 <-> forall msg, Failure msg ∉ stderr sf).
Proof.
  intros Hrepo Hglob. rewrite (main_run _ _ _ Hrepo Hglob).
  rewrite readDirs_omap.
  destruct (errorf_all_fields (omap (readError w) (Glob w [resolvedRepo fl w]))
              (initial revs fs)) as (H1 & H2 & _).
  set (s1 := foldl (fun st m => errorf m st) (initial revs fs)
               (omap (readError w) (Glob w [resolvedRepo fl w]))) in *.
  destruct (processAll_total fl w
              ([] ++ omap (readOk w (initial revs fs)) (Glob w [resolvedRepo fl w]))
              s1) as (s2 & Hall).
  rewrite Hall. cbn [mbind option_bind].
  destruct (processAll_diag _ _ _ _ _ Hall) as (l & Hl & He).
  exists (exitCode s2), s2. split; [reflexivity|].
  assert (Hcode : exitCode s2 = if existsb isFailure (stderr s2) then 1 else 0).
  { rewrite He, Hl, H1, H2. cbn [stderr initial app exitCode].
    rewrite existsb_app.
    destruct (omap (readError w) (Glob w [resolvedRepo fl w])) as [|m ms];
      cbn; destruct (existsb isFailure l); reflexivity. }
  rewrite Hcode. pose proof (existsb_failure_iff (stderr s2)) as Hiff.
  destruct (existsb isFailure (stderr s2)).
  - split; [tauto|]. split; [discriminate|].
    intros Hno. destruct (proj1 Hiff eq_refl) as [m Hm]. destruct (Hno m Hm).
  - split.
    + split; [discriminate|]. intros H. apply Hiff in H. discriminate.
    + split; [|reflexivity]. intros _ m Hm.
      assert (false = true) by (apply Hiff; eauto). discriminate.
Qed.

(** X6. A charm directory that cannot be read makes the run exit with
    status 1, whatever happens to the other charms: the error naming it is on
    the diagnostic stream, and it is not among the charms the second loop
    works on. *)
Theorem unreadable_charm_fails_run (fl : Flags) (w : World) (s : State)
    (p : path) (e : string) :
  resolvedRepo fl w <> "" ->
  p ∈ Glob w [resolvedRepo fl w] ->
  readMeta w (filepath_Dir p) = inl e ->
  exists sf,
    main fl w s = Some (1, sf)
    /\ Failure ("cannot read " +:+ quote (render (filepath_Dir p))
                +:+ ": " +:+ e) ∈ stderr sf
    /\ forall d, d ∈ (readDirs w (Glob w [resolvedRepo fl w]) [] s).1 ->
                 Path d <> filepath_Dir p.
Proof.
  intros Hrepo Hp Hmeta.
  assert (Hglob : Glob w [resolvedRepo fl w] <> []).
  { intros Hnil. rewrite Hnil in Hp. apply elem_of_nil in Hp. exact Hp. }
  rewrite (main_run _ _ _ Hrepo Hglob). rewrite readDirs_omap.
  cbn [fst app].
  assert (Hmsg : ("cannot read " +:+ quote (render (filepath_Dir p)) +:+ ": " +:+ e)
                 ∈ omap (readError w) (Glob w [resolvedRepo fl w])).
  { apply list_elem_of_omap. exists p. split; [exact Hp|].
    unfold readError. rewrite Hmeta. reflexivity. }
  destruct (errorf_all_fields (omap (readError w) (Glob w [resolvedRepo fl w])) s)
    as (H1 & H2 & _).
  set (s1 := foldl (fun st m => errorf m st) s
               (omap (readError w) (Glob w [resolvedRepo fl w]))) in *.
  destruct (processAll_total fl w
              (omap (readOk w s) (Glob w [resolvedRepo fl w])) s1) as (s2 & Hall).
  rewrite Hall. cbn [mbind option_bind].
  destruct (processAll_diag _ _ _ _ _ Hall) as (l & Hl & He).
  assert (Hone : exitCode s1 = 1).
  { rewrite H2. destruct (omap (readError w) (Glob w [resolvedRepo fl w]));
      [apply elem_of_nil in Hmsg; contradiction|reflexivity]. }
  assert (Hcode : exitCode s2 = 1)
    by (rewrite He, Hone; destruct (existsb isFailure l); reflexivity).
  exists s2. rewrite Hcode. split; [reflexivity|]. split.
  - rewrite Hl, H1. apply elem_of_app. left. apply elem_of_app. right.
    apply list_elem_of_fmap. eauto.
  - intros d Hd Heq. apply list_elem_of_omap in Hd as (q & Hq & Hd).
    unfold readOk, ReadDir in Hd.
    destruct (readMeta w (filepath_Dir q)) as [?|name] eqn:Hmq; [discriminate|].
    injection Hd as <-. cbn in Heq. rewrite Heq in Hmq. congruence.
Qed.

(** ** Test mode *)

Lemma processCharm_test fl w dir s :
  test fl = true ->
  exists s',
    processCharm fl w dir s = Some s'
    /\ revisions s' = revisions s /\ files s' = files s
    /\ (exists out, stdout s' = stdout s ++ (ChildOut <$> out))
    /\ forall c, c ∈ calls s' ->
         c ∈ calls s \/ (exists env, c = Exec env ["go"; "test"; "./..."])
         \/ c = RemoveAll (pkgDir dir).
Proof.
  intros Htest. unfold processCharm.
  destruct (isGoCharm w dir) as [[|] [e|]].
  - eexists. split; [reflexivity|].
    split; [reflexivity|]. split; [reflexivity|]. split; [apply out_nil|auto].
  - fold (started fl dir s). unfold processGoCharm, processGoCharmBody.
    rewrite Htest.
    destruct (testCharm_effect w dir (started fl dir s))
      as (cs & Hc & _ & Hcs & _ & (out & Ho) & _ & Hr & Hf).
    destruct (started_fields fl dir s) as (_ & Fo & Fr & Ff & Fc).
    destruct (testCharm w dir (started fl dir s)) as [e st]. cbn in *.
    assert (Hcalls : forall c, c ∈ calls st ++ [RemoveAll (Join (Path dir) ["pkg"])] ->
              c ∈ calls s \/ (exists env, c = Exec env ["go"; "test"; "./..."])
              \/ c = RemoveAll (pkgDir dir)).
    { intros c Hin. rewrite Hc, Fc in Hin.
      apply elem_of_app in Hin as [Hin|Hin].
      - apply elem_of_app in Hin as [Hin|Hin]; [auto|]. right. left. auto.
      - apply list_elem_of_singleton in Hin. auto. }
    destruct e as [e|]; eexists; (split; [reflexivity|]); cbn;
      rewrite Hr, Hf, Ho, Fo, Fr, Ff;
      (split; [reflexivity|]); (split; [reflexivity|]);
      (split; [exists out; reflexivity|exact Hcalls]).
  - eexists. split; [reflexivity|].
    split; [reflexivity|]. split; [reflexivity|]. split; [apply out_nil|auto].
  - eexists. split; [reflexivity|].
    destruct (verbose fl);
      (split; [reflexivity|]); (split; [reflexivity|]);
      (split; [apply out_nil|auto]).
Qed.

(** X7. With [-test] nothing is built: the second loop returns with the
    revision files and the files as they were; [main] prints no line on the
    standard output, where only the [go test] processes, which are given the
    stream, may write; and the only commands it has run are [go test ./...]
    and the removal of the [pkg] directory of a charm; the compiler is never
    started to build a binary. *)
Theorem test_mode_builds_nothing (fl : Flags) (w : World) (ds : list Dir)
    (s : State) :
  test fl = true ->
  exists sf,
    processAll fl w ds s = Some sf
    /\ revisions sf = revisions s /\ files sf = files s
    /\ (exists out, stdout sf = stdout s ++ (ChildOut <$> out))
    /\ printed (stdout sf) = printed (stdout s)
    /\ forall c, c ∈ calls sf ->
         c ∈ calls s \/ (exists env, c = Exec env ["go"; "test"; "./..."])
         \/ exists d, d ∈ ds /\ c = RemoveAll (pkgDir d).
Proof.
  intros Htest.
  assert (Hgen : forall s, exists sf,
    processAll fl w ds s = Some sf
    /\ revisions sf = revisions s /\ files sf = files s
    /\ (exists out, stdout sf = stdout s ++ (ChildOut <$> out))
    /\ forall c, c ∈ calls sf ->
         c ∈ calls s \/ (exists env, c = Exec env ["go"; "test"; "./..."])
         \/ exists d, d ∈ ds /\ c = RemoveAll (pkgDir d)).
  { clear s. induction ds as [|d ds IH]; intros s.
    - exists s. split; [reflexivity|]. split; [reflexivity|]. split; [reflexivity|].
      split; [apply out_nil|auto].
    - destruct (processCharm_test fl w d s Htest)
        as (s1 & H1 & Hr1 & Hf1 & (out1 & Ho1) & Hc1).
      destruct (IH s1) as (sf & Hf & Hr & Hfi & (out & Ho) & Hc).
      exists sf. cbn. rewrite H1. cbn. split; [exact Hf|].
      rewrite Hr, Hfi. split; [exact Hr1|]. split; [exact Hf1|].
      split.
      { exists (out1 ++ out). rewrite Ho, Ho1, fmap_app, <- app_assoc. reflexivity. }
      intros c Hin. destruct (Hc c Hin) as [Hin1|[Hex|(d' & Hd' & ->)]].
      + destruct (Hc1 c Hin1) as [?|[?|Heq]]; [auto|auto|].
        right. right. exists d. split; [left|exact Heq].
      + auto.
      + right. right. exists d'. split; [right; exact Hd'|reflexivity]. }
  destruct (Hgen s) as (sf & Hf & Hr & Hfi & (out & Ho) & Hc).
  exists sf. split; [exact Hf|]. split; [exact Hr|]. split; [exact Hfi|].
  split; [exists out; exact Ho|]. split; [|exact Hc].
  rewrite Ho, printed_app, printed_child, app_nil_r. reflexivity.
Qed.

(** ** The packages of a charm *)

(** X8. [packagesInDir] fails exactly when the walk fails, with its
    error; otherwise the packages are sorted, each occurs once, and they are
    exactly the parent directories, with the [src] prefix cut off, of the
    visited names that end in [.go] and start with [dir/src]. *)
Theorem packagesInDir_sorted_set (w : World) (dir : path) :
  match packagesInDir w dir with
  | inl e => walk w dir = inl e
  | inr pkgs =>
      exists visited,
        walk w dir = inr visited
        /\ Sorted String.le pkgs
        /\ NoDup pkgs
        /\ forall pkg,
             pkg ∈ pkgs <->
             exists f, f ∈ visited
                       /\ HasSuffix f ".go" = true
                       /\ HasPrefix f (render (Join dir ["src"])) = true
                       /\ pkg = TrimPrefix (splitName f).1 (render (Join dir ["src"]))
  end.
Proof.
  unfold packagesInDir. destruct (walk w dir) as [e|visited]; [reflexivity|].
  exists visited. split; [reflexivity|].
  split; [apply Sorted_merge_sort; apply _|].
  split; [rewrite merge_sort_Permutation; apply NoDup_remove_dups|].
  intros pkg. rewrite merge_sort_Permutation, elem_of_remove_dups, list_elem_of_fmap.
  split.
  - intros (f & -> & Hf). apply list_elem_of_In, List.filter_In in Hf as [Hin Hb].
    apply andb_prop in Hb as [Hs Hp].
    exists f. repeat split; auto. apply list_elem_of_In. exact Hin.
  - intros (f & Hin & Hs & Hp & ->). exists f. split; [reflexivity|].
    apply list_elem_of_In, List.filter_In. split; [apply list_elem_of_In; exact Hin|].
    rewrite Hs, Hp. reflexivity.
Qed.

(** ** Revisions of other directories *)

(** X9. [main] writes the revision of no directory but that of a charm
    directly below [root/series]: the revision of every other path is after
    the run what it was before, also when the run ends with a fatal error. *)
Theorem main_keeps_other_revisions (fl : Flags) (w : World) (s : State)
    (p : path) :
  (forall series name, p <> [resolvedRepo fl w; series; name]) ->
  exists code sf,
    main fl w s = Some (code, sf)
    /\ revisions sf !! p = revisions s !! p.
Proof.
  intros Hp. unfold main. fold (resolvedRepo fl w).
  destruct (String.eqb (resolvedRepo fl w) "");
    [eexists _, _; split; reflexivity|].
  destruct (Z.of_nat (length (Glob w [resolvedRepo fl w])) =? 0);
    [eexists _, _; split; reflexivity|].
  destruct (readDirs w (Glob w [resolvedRepo fl w]) [] s) as [dirs s1] eqn:Hread.
  destruct (readDirs_spec w (Glob w [resolvedRepo fl w]) [] s)
    as (new & _ & _ & _ & Hr & _).
  rewrite Hread in Hr. cbn in Hr.
  destruct (processAll_total fl w dirs s1) as (s2 & Hall).
  rewrite Hall. exists (exitCode s2), s2. split; [reflexivity|].
  rewrite <- Hr.
  apply (processAll_revision_other _ _ _ _ _ _ Hall).
  intros Hin. apply list_elem_of_fmap in Hin as (d & -> & Hd).
  destruct (readDirs_paths w _ s _ s1 d Hread Hd) as (a & b & Hpath).
  exact (Hp a b Hpath).
Qed.

Lemma main_keeps_other_revisions_witness :
  (forall series name,
     ["/srv"; "backup"] <> [resolvedRepo sampleFlags sampleWorld; series; name])
  /\ exists code sf,
       main sampleFlags sampleWorld sampleState = Some (code, sf)
       /\ revisions sf !! ["/srv"; "backup"]
          = revisions sampleState !! ["/srv"; "backup"].
Proof.
  assert (H : forall series name,
            ["/srv"; "backup"]
            <> [resolvedRepo sampleFlags sampleWorld; series; name])
    by (intros series name; discriminate).
  split; [exact H|].
  exact (main_keeps_other_revisions sampleFlags sampleWorld sampleState
           ["/srv"; "backup"] H).
Defined.

(** ** The build, step by step *)


(** ** Accepted charms are never passed over in silence *)

(** Without [-test], all that [processGoCharm] adds to the standard output
    is what the compiler printed there, if it was started. *)
Lemma processGoCharm_build_stdout fl w dir s :
  test fl = false ->
  exists d err sp env out,
    processGoCharm fl w dir s = Some (d, err, sp)
    /\ buildEnv w dir true = Some env
    /\ (out = [] \/ out = execOut w env (buildArgv dir "runhook"))
    /\ stdout sp = stdout s ++ (ChildOut <$> out)
    /\ (d = true -> err = None).
Proof.
  intros Htest. destruct (buildEnv_total w dir true) as (env & Henv).
  unfold processGoCharm, processGoCharmBody.
  rewrite Htest, (compile_unfold _ _ _ _ _ _ _ Henv). cbv zeta.
  destruct (mkdirAll w _) as [e|].
  { eexists _, _, _, env, []. split; [reflexivity|]. split; [exact Henv|].
    split; [auto|]. cbn. rewrite app_nil_r. split; [reflexivity|discriminate]. }
  destruct (writeFile w _) as [e|].
  { eexists _, _, _, env, []. split; [reflexivity|]. split; [exact Henv|].
    split; [auto|]. cbn. rewrite app_nil_r. split; [reflexivity|discriminate]. }
  destruct (exec w env _) as [e|].
  { eexists _, _, _, env, _. split; [reflexivity|]. split; [exact Henv|].
    split; [right; reflexivity|]. cbn. split; [reflexivity|discriminate]. }
  cbn [mbind option_bind].
  destruct (stat w (Join (Path dir) ["bin"; "runhook"])) as [|e|isDir];
    try (eexists _, _, _, env, _; (split; [reflexivity|]); (split; [exact Henv|]);
         (split; [right; reflexivity|]); cbn; split; [reflexivity|discriminate]).
  unfold registeredHooks. destruct (registered w (Path dir)) as [e|hooks].
  { eexists _, _, _, env, _. split; [reflexivity|]. split; [exact Henv|].
    split; [right; reflexivity|]. cbn. split; [reflexivity|discriminate]. }
  unfold writeHooks.
  match goal with
  | |- context [syncStubs w ?h ?n ?sc] =>
      pose proof (syncStubs_effect w h n sc) as Hs; cbn zeta in Hs;
      destruct Hs as (_ & Ho & _);
      destruct (syncStubs w h n sc) as [[e|] sw]
  end; cbn [snd] in Ho;
    eexists _, _, _, env, _; (split; [reflexivity|]); (split; [exact Henv|]);
    (split; [right; reflexivity|]); cbn; rewrite Ho;
    (split; [reflexivity|]); first [discriminate|reflexivity].
Qed.

(** X11. Without [-test], an accepted charm is either built, and its
    success line is printed, or reported: its turn of the loop ends with an
    error line on the diagnostic stream and the exit code 1, and [main]
    prints no line.  In both cases all that stands on the standard output
    besides is what the compiler, which is given the stream, wrote there
    before, if it was started.  (With [-test] and passing tests [main]
    prints nothing at all.) *)
Theorem accepted_charm_is_reported (fl : Flags) (w : World) (dir : Dir)
    (s : State) :
  test fl = false -> accepted w dir ->
  exists s' env out,
    processCharm fl w dir s = Some s'
    /\ buildEnv w dir true = Some env
    /\ (out = [] \/ out = execOut w env (buildArgv dir "runhook"))
    /\ ((stdout s' = stdout s ++ (ChildOut <$> out)
                     ++ [Printed (successLine (bumped dir))])
        \/ (stdout s' = stdout s ++ (ChildOut <$> out) /\ exitCode s' = 1
            /\ exists l msg, stderr s' = l ++ [Failure msg])).
Proof.
  intros Htest Hacc. unfold processCharm. rewrite Hacc.
  fold (started fl dir s).
  destruct (processGoCharm_build_stdout fl w dir (started fl dir s) Htest)
    as (d & err & sp & env & out & Hp & Henv & Hout & Ho & Hdone).
  destruct (started_fields fl dir s) as (_ & Fo & _).
  rewrite Hp. cbn [mbind option_bind].
  destruct err as [e|].
  { eexists _, env, out. split; [reflexivity|]. split; [exact Henv|].
    split; [exact Hout|]. right. cbn. rewrite Ho, Fo.
    repeat split. eexists _, _. reflexivity. }
  destruct d.
  - unfold SetDiskRevision.
    destruct (writeRevision w (Path dir)); eexists _, env, out;
      (split; [reflexivity|]); (split; [exact Henv|]); (split; [exact Hout|]);
      left; cbn; rewrite Ho, Fo, <- app_assoc; reflexivity.
  - exfalso. revert Hp. unfold processGoCharm, processGoCharmBody.
    rewrite Htest.
    destruct (compile w dir "runhook" hookMainCode true (started fl dir s))
      as [[[e|] sc]|]; cbn; try discriminate.
    destruct (stat w (Join (Path dir) ["bin"; "runhook"])); try discriminate.
    unfold registeredHooks. destruct (registered w (Path dir)); [discriminate|].
    destruct (writeHooks w dir _ sc) as [[e|] sw]; discriminate.
Qed.

(** ** Sample runs *)

Lemma exit_status_one_iff_error_witness :
  resolvedRepo sampleFlags readOnlyWorld <> ""
  /\ Glob readOnlyWorld [resolvedRepo sampleFlags readOnlyWorld] <> []
  /\ exists code sf,
       main sampleFlags readOnlyWorld (initial sampleRevisions sampleFiles)
       = Some (code, sf)
       /\ (code = 1 <-> exists msg, Failure msg ∈ stderr sf)
       /\ (code = 0 <-> forall msg, Failure msg ∉ stderr sf).
Proof.
  assert (H1 : resolvedRepo sampleFlags readOnlyWorld <> "")
    by (vm_compute; discriminate).
  assert (H2 : Glob readOnlyWorld [resolvedRepo sampleFlags readOnlyWorld] <> [])
    by (vm_compute; discriminate).
  split; [exact H1|]. split; [exact H2|].
  exact (exit_status_one_iff_error sampleFlags readOnlyWorld sampleRevisions
           sampleFiles H1 H2).
Defined.

Lemma unreadable_charm_fails_run_witness :
  resolvedRepo sampleFlags brokenWorld <> ""
  /\ Join mysql ["metadata.yaml"]
     ∈ Glob brokenWorld [resolvedRepo sampleFlags brokenWorld]
  /\ readMeta brokenWorld (filepath_Dir (Join mysql ["metadata.yaml"]))
     = inl "metadata.yaml: no such file"
  /\ exists sf, main sampleFlags brokenWorld sampleState = Some (1, sf).
Proof.
  assert (H1 : resolvedRepo sampleFlags brokenWorld <> "")
    by (vm_compute; discriminate).
  assert (H2 : Join mysql ["metadata.yaml"]
               ∈ Glob brokenWorld [resolvedRepo sampleFlags brokenWorld]).
  { apply list_elem_of_In. vm_compute. right. left. reflexivity. }
  assert (H3 : readMeta brokenWorld (filepath_Dir (Join mysql ["metadata.yaml"]))
               = inl "metadata.yaml: no such file") by (vm_compute; reflexivity).
  split; [exact H1|]. split; [exact H2|]. split; [exact H3|].
  destruct (unreadable_charm_fails_run sampleFlags brokenWorld sampleState _ _
              H1 H2 H3) as (sf & Hmain & _).
  exists sf. exact Hmain.
Defined.

Lemma test_mode_builds_nothing_witness :
  test testFlags = true
  /\ exists sf,
       processAll testFlags failingTests
         [sampleDir wordpress; sampleDir mysql; sampleDir haproxy] sampleState
       = Some sf
       /\ revisions sf = revisions sampleState
       /\ files sf = files sampleState
       /\ printed (stdout sf) = printed (stdout sampleState).
Proof.
  assert (H : test testFlags = true) by reflexivity.
  split; [exact H|].
  destruct (test_mode_builds_nothing testFlags failingTests
              [sampleDir wordpress; sampleDir mysql; sampleDir haproxy]
              sampleState H) as (sf & Hall & Hr & Hf & _ & Ho & _).
  exists sf. auto.
Defined.

Lemma accepted_charm_is_reported_witness :
  test sampleFlags = false
  /\ accepted sampleWorld (sampleDir wordpress)
  /\ exists s' env out,
       processCharm sampleFlags sampleWorld (sampleDir wordpress) sampleState
       = Some s'
       /\ buildEnv sampleWorld (sampleDir wordpress) true = Some env
       /\ (out = []
           \/ out = execOut sampleWorld env (buildArgv (sampleDir wordpress) "runhook"))
       /\ ((stdout s' = stdout sampleState ++ (ChildOut <$> out)
                        ++ [Printed (successLine (bumped (sampleDir wordpress)))])
           \/ (stdout s' = stdout sampleState ++ (ChildOut <$> out)
               /\ exitCode s' = 1
               /\ exists l msg, stderr s' = l ++ [Failure msg])).
Proof.
  assert (H1 : test sampleFlags = false) by reflexivity.
  assert (H2 : accepted sampleWorld (sampleDir wordpress))
    by (vm_compute; reflexivity).
  split; [exact H1|]. split; [exact H2|].
  exact (accepted_charm_is_reported sampleFlags sampleWorld (sampleDir wordpress)
           sampleState H1 H2).
Defined.

End GocharmMore.
